(** * Verification of the BitBox host core

    A shallow embedding of the signing-critical path of the wallet backend:
    - [devices/usb/communication.go]: the HID framing ([sendFrame], [readFrame]);
    - [devices/bitbox/device.go]: the device session ([Status], [SetPassword],
      [Reset], [XPub], [stretchKey], [signBatch], [Sign]);
    - [coins/btc/sign.go]: [SignTransaction] and [txValidityCheck].

    Go integers are [Z]; bytes are [Z] values in [0, 256); slices are lists;
    a Go pair [(value, error)] is a Rocq pair whose second component is an
    [option error] ([None] is Go's [nil]). *)

From Stdlib Require Import String Ascii ZArith List Bool Arith Lia.
From Stdlib Require Import DecimalString.
Import ListNotations.
Open Scope string_scope.
Open Scope list_scope.
Open Scope Z_scope.
Set Warnings "-register-all,-abstract-large-number".

(** ** Errors ([util/errp], [github.com/pkg/errors], [bitbox.Error]) *)

Module Errp.

(** The error values the core builds.  [WithMessage] and [WithStack] wrap a
    cause; [Device] is [bitbox.NewError(message, code)]. *)
Inductive error : Type :=
| New (msg : string)
| Device (msg : string) (code : Z)
| WithMessage (cause : error) (msg : string)
| WithStack (cause : error).

(** [errp.Cause]: strip the wrappers down to the innermost error. *)
Fixpoint Cause (err : error) : error :=
  match err with
  | WithMessage cause _ => Cause cause
  | WithStack cause => Cause cause
  | _ => err
  end.

(** [io.EOF], what a drained transport answers to [Read]. *)
Definition EOF : error := New "EOF".

End Errp.

Import Errp.

(** What running a piece of Go code can end in: a normal return, a [panic],
    or (for loops modelled with a step budget) the budget running out. *)
Inductive Outcome (A : Type) : Type :=
| Returned (a : A)
| Panicked (msg : string)
| OutOfFuel.
Arguments Returned {A} a.
Arguments Panicked {A} msg.
Arguments OutOfFuel {A}.

(** ** Untyped replies ([map[string]interface{}] from [encoding/json]) *)

Module Json.

(** An [interface{}] value as [encoding/json] produces it.  A map is an
    association list read through its first binding for a key. *)
Inductive Value : Type :=
| VNil
| VBool (b : bool)
| VNumber (n : Z)
| VString (s : string)
| VArray (items : list Value)
| VMap (fields : list (string * Value)).

Definition Map := list (string * Value).

(** [m[key]]: the bound value, or [nil] when the key is absent. *)
Fixpoint index (m : Map) (key : string) : Value :=
  match m with
  | [] => VNil
  | (k, v) :: m => if String.eqb k key then v else index m key
  end.

(** The type assertions [v.(string)], [v.([]interface{})] and
    [v.(map[string]interface{})]; [None] is [ok == false]. *)
Definition asString (v : Value) : option string :=
  match v with VString s => Some s | _ => None end.
Definition asArray (v : Value) : option (list Value) :=
  match v with VArray items => Some items | _ => None end.
Definition asMap (v : Value) : option Map :=
  match v with VMap fields => Some fields | _ => None end.
Definition asNumber (v : Value) : option Z :=
  match v with VNumber n => Some n | _ => None end.

(** [v == "text"] for an [interface{}] [v] and a string constant. *)
Definition isString (v : Value) (text : string) : bool :=
  match v with VString s => String.eqb s text | _ => false end.

(** The type assertion [v.(bool)]. *)
Definition asBool (v : Value) : option bool :=
  match v with VBool b => Some b | _ => None end.

(** The keys of a structure, level by level, with every value blanked. *)
Fixpoint skeleton (v : Value) : Value :=
  match v with
  | VMap fields => VMap (map (fun kv => let '(k, v) := kv in (k, skeleton v)) fields)
  | _ => VNil
  end.

(** The values a structure holds outside its nested maps. *)
Fixpoint leaves (v : Value) : list Value :=
  match v with
  | VMap fields => flat_map (fun kv => let '(_, v) := kv in leaves v) fields
  | _ => [v]
  end.

End Json.

Import Json.

(** ** Transport framer ([devices/usb/communication.go]) *)

Module Usb.

Definition byte := Z.

Definition usbReportSize : nat := 64.
Definition hwwCID : Z := 0xff000000.
Definition u2fHIDTypeInit : Z := 0x80.
Definition u2fHIDVendorFirst : Z := Z.lor u2fHIDTypeInit 0x40.
Definition hwwCMD : Z := Z.lor u2fHIDVendorFirst 0x01.

(** Go's integer conversions [uint8(x)], [uint16(x)], [uint32(x)]. *)
Definition uint8 (x : Z) : Z := x mod 2 ^ 8.
Definition uint16 (x : Z) : Z := x mod 2 ^ 16.
Definition uint32 (x : Z) : Z := x mod 2 ^ 32.

(** [binary.Write(buf, binary.BigEndian, v)] for the three widths used. *)
Definition writeUint8 (v : Z) : list byte := [uint8 v].
Definition writeUint16 (v : Z) : list byte :=
  [uint8 (Z.shiftr v 8); uint8 v].
Definition writeUint32 (v : Z) : list byte :=
  [uint8 (Z.shiftr v 24); uint8 (Z.shiftr v 16); uint8 (Z.shiftr v 8); uint8 v].

(** The loopback transport: the reports written so far and not yet read,
    oldest first.  [Write] queues one report and never fails; [Read] hands
    out the oldest report (cut to the caller's buffer) or [io.EOF]. *)
Definition Loopback := list (list byte).

Definition Write (p : list byte) (device : Loopback) : option error * Loopback :=
  (None, device ++ [p]).

Definition Read (size : nat) (device : Loopback)
  : (list byte * option error) * Loopback :=
  match device with
  | [] => (([], Some EOF), [])
  | p :: rest => ((firstn size p, None), rest)
  end.

(** The closure [send] of [sendFrame]: header, then as much of [readFrom] as
    fits, then [0xee] up to the report size; returns what is left of
    [readFrom]. *)
Definition send (header readFrom : list byte) (device : Loopback)
  : option error * list byte * Loopback :=
  let n := (usbReportSize - length header)%nat in
  let buf := header ++ firstn n readFrom in
  let buf := buf ++ repeat 0xee (usbReportSize - length buf) in
  let '(err, device) := Write buf device in
  (option_map (fun e => WithMessage (WithStack e) "Failed to send message") err,
   skipn n readFrom, device).

(** The continuation loop of [sendFrame],
    [for seq := 0; readBuffer.Len() > 0; seq++]. *)
Fixpoint sendCont (fuel : nat) (seq : Z) (readBuffer : list byte)
  (device : Loopback) : Outcome (option error) * Loopback :=
  match fuel with
  | O => (OutOfFuel, device)
  | S fuel =>
    if (0 <? length readBuffer)%nat then
      let header := writeUint32 (uint32 hwwCID) ++ writeUint8 (uint8 seq) in
      match send header readBuffer device with
      | (Some err, _, device) => (Returned (Some err), device)
      | (None, readBuffer, device) => sendCont fuel (seq + 1) readBuffer device
      end
    else (Returned None, device)
  end.

Definition sendFrame (msg : list byte) (device : Loopback)
  : Outcome (option error) * Loopback :=
  let dataLen := Z.of_nat (length msg) in
  if dataLen =? 0 then (Returned None, device)
  else
    let header := writeUint32 (uint32 hwwCID) ++ writeUint8 (uint8 hwwCMD)
                  ++ writeUint16 (uint16 (Z.land dataLen 0xFFFF)) in
    match send header msg device with
    | (Some err, _, device) => (Returned (Some err), device)
    | (None, readBuffer, device) =>
        sendCont (S (length readBuffer)) 0 readBuffer device
    end.

(** The continuation loop of [readFrame], [for idx < dataLen]. *)
Fixpoint readCont (device : Loopback) (idx dataLen : Z) (data : list byte)
  : (list byte * option error) * Loopback :=
  if idx <? dataLen then
    match device with
    | [] => (([], Some (WithStack EOF)), [])
    | p :: rest =>
        let read := firstn usbReportSize p in
        let readLen := length read in
        if (readLen <? 5)%nat then
          (([], Some (New "expected minimum read length of 7")), rest)
        else
          readCont rest (idx + (Z.of_nat readLen - 5)) dataLen
                   (data ++ skipn 5 read)
    end
  else ((data, None), device).

Definition readFrame (device : Loopback)
  : (list byte * option error) * Loopback :=
  match Read usbReportSize device with
  | ((_, Some err), device) => (([], Some (WithStack err)), device)
  | ((read, None), device) =>
    let readLen := length read in
    if (readLen <? 7)%nat then
      (([], Some (New "expected minimum read length of 7")), device)
    else if negb (nth 0 read 0 =? 0xff) || negb (nth 1 read 0 =? 0)
            || negb (nth 2 read 0 =? 0) || negb (nth 3 read 0 =? 0) then
      (([], Some (New "USB command ID mismatch")), device)
    else if negb (nth 4 read 0 =? hwwCMD) then
      (([], Some (New "USB command frame mismatch")), device)
    else
      let dataLen := nth 5 read 0 * 256 + nth 6 read 0 in
      let data := skipn 7 read in
      let idx := Z.of_nat usbReportSize - 7 in
      readCont device idx dataLen data
  end.

(** [maybeDBBErr]: an [error] object in a reply becomes a device error. *)
Definition maybeDBBErr (jsonResult : Map) : option error :=
  match asMap (index jsonResult "error") with
  | Some errMap =>
    match asString (index errMap "message") with
    | None => Some (New "Unexpected reply")
    | Some errMsg =>
      match asNumber (index errMap "code") with
      | None => Some (New "Unexpected reply")
      | Some errCode => Some (Errp.Device errMsg errCode)
      end
    end
  | None => None
  end.

(** The length a frame's first report declares, as [readFrame] decodes it,
    and the bytes a list of reports carries after their headers. *)
Definition declaredLen (report : list byte) : Z :=
  nth 5 report 0 * 256 + nth 6 report 0.

Definition payload (reports : list (list byte)) : list byte :=
  match reports with
  | [] => []
  | first :: conts => skipn 7 first ++ flat_map (skipn 5) conts
  end.

(** The init header [sendFrame] builds for a message of [n] bytes. *)
Definition initHeader (n : nat) : list byte :=
  writeUint32 (uint32 hwwCID) ++ writeUint8 (uint8 hwwCMD)
  ++ writeUint16 (uint16 (Z.land (Z.of_nat n) 0xFFFF)).

(** Number of continuation reports and number of filler bytes of a frame
    carrying [n] payload bytes: 57 fit the first report, 59 each later one. *)
Definition contCount (n : nat) : nat := ((n - 57) + 58) / 59.
Definition fillCount (n : nat) : nat := (57 + 59 * contCount n - n)%nat.

(** *** Censoring of logged commands *)

(** [hideValues] on one value: a nested map is censored in turn, anything
    else (arrays included) is replaced by the mask. *)
Fixpoint hideValue (v : Value) : Value :=
  match v with
  | VMap value => VMap (map (fun kv => let '(k, v) := kv in (k, hideValue v)) value)
  | _ => VString "****"
  end.

(** [hideValues]: the map it leaves behind. *)
Definition hideValues (cmd : Map) : Map :=
  map (fun kv => let '(k, v) := kv in (k, hideValue v)) cmd.

(** *** The bootloader channel *)

Definition maxSendLen : nat := 4098.
Definition maxReadLen : nat := 256.

(** A device with a script of reports to hand out, the log of what was
    written to it, and the error its [Write] fails with, if any. *)
Record Port : Type := {
  incoming : list (list byte);
  outgoing : list (list byte);
  writeFails : option error
}.

Definition portWrite (p : list byte) (device : Port) : option error * Port :=
  match writeFails device with
  | Some err => (Some err, device)
  | None =>
      (None, {| incoming := incoming device;
                outgoing := outgoing device ++ [p];
                writeFails := None |})
  end.

(** [bytes.TrimRight(s, cutset)] for a cutset of ASCII bytes. *)
Definition inCutset (cutset : list byte) (b : byte) : bool :=
  existsb (Z.eqb b) cutset.

Fixpoint TrimRight (s cutset : list byte) : list byte :=
  match s with
  | [] => []
  | b :: s =>
    match TrimRight s cutset with
    | [] => if inCutset cutset b then [] else [b]
    | t => b :: t
    end
  end.

(** The read loop of [SendBootloader], [for read.Len() < maxReadLen]. *)
Fixpoint readBootloader (incoming : list (list byte)) (read : list byte)
  : (list byte * option error) * list (list byte) :=
  if (length read <? maxReadLen)%nat then
    match incoming with
    | [] => (([], Some (WithStack EOF)), [])
    | p :: rest => readBootloader rest (read ++ firstn maxReadLen p)
    end
  else ((read, None), incoming).

Definition SendBootloader (msg : list byte) (device : Port)
  : Outcome (list byte * option error) * Port :=
  if (maxSendLen <? length msg)%nat then (Panicked "message too long", device)
  else
    let buf := [0] ++ msg ++ repeat 0 (maxSendLen - length msg) in
    match portWrite buf device with
    | (Some err, device) => (Returned ([], Some (WithStack err)), device)
    | (None, device) =>
      let '((read, err), rest) := readBootloader (incoming device) [] in
      let device := {| incoming := rest; outgoing := outgoing device;
                       writeFails := writeFails device |} in
      match err with
      | Some err => (Returned ([], Some err), device)
      | None => (Returned (TrimRight read [0; 9; 13; 10], None), device)
      end
    end.

End Usb.

(** ** Byte and text helpers of the Go standard library *)

Module Encoding.

(** [[]byte(s)]: a Go string is its bytes. *)
Fixpoint bytesOfString (s : string) : list Z :=
  match s with
  | EmptyString => []
  | String c s => Z.of_N (N_of_ascii c) :: bytesOfString s
  end.

Definition hextable : string := "0123456789abcdef".

Definition hexChar (d : Z) : ascii :=
  match String.get (Z.to_nat d) hextable with
  | Some c => c
  | None => "0"%char
  end.

(** [hex.EncodeToString]. *)
Fixpoint EncodeToString (src : list Z) : string :=
  match src with
  | [] => EmptyString
  | b :: src =>
      String (hexChar (Z.shiftr b 4))
        (String (hexChar (Z.land b 0x0f)) (EncodeToString src))
  end.

(** The value of a digit in base 16, as [math/big] scans it. *)
Definition digitVal (c : ascii) : option Z :=
  let n := Z.of_N (N_of_ascii c) in
  if (48 <=? n) && (n <=? 57) then Some (n - 48)
  else if (97 <=? n) && (n <=? 102) then Some (n - 97 + 10)
  else if (65 <=? n) && (n <=? 70) then Some (n - 65 + 10)
  else None.

Fixpoint scanDigits (s : string) (acc : Z) : option Z :=
  match s with
  | EmptyString => Some acc
  | String c s =>
      match digitVal c with
      | Some d => scanDigits s (acc * 16 + d)
      | None => None
      end
  end.

(** [big.NewInt(0).SetString(s, 16)] of [math/big]: an optional sign [+] or
    [-], then one or more base-16 digits, the whole string consumed; [None]
    is [ok == false]. *)
Definition SetString16 (s : string) : option Z :=
  let '(neg, digits) :=
    match s with
    | String "+"%char rest => (false, rest)
    | String "-"%char rest => (true, rest)
    | _ => (false, s)
    end in
  match digits with
  | EmptyString => None
  | _ => option_map (fun v => if neg then - v else v) (scanDigits digits 0)
  end.

(** Whether every byte of [s] is a base-16 digit. *)
Fixpoint allHex (s : string) : bool :=
  match s with
  | EmptyString => true
  | String c s => match digitVal c with Some _ => allHex s | None => false end
  end.

(** [s[i:j]] on slices. *)
Definition slice {A : Type} (s : list A) (i j : nat) : list A :=
  firstn (j - i) (skipn i s).

End Encoding.

Import Encoding.

(** ** Device session ([devices/bitbox/device.go]) *)

Module Bitbox.

(** The number of signatures the device handles in one batch. *)
Definition signatureBatchSize : nat := 15.

(** Modelled from the spec: the constants of [status.go], which is not among
    the sources: "one of {Bootloader, Uninitialized, Initialized, LoggedIn,
    Seeded}". *)
Inductive Status : Type :=
| StatusBootloader
| StatusUninitialized
| StatusInitialized
| StatusLoggedIn
| StatusSeeded.

(** Modelled from the spec: the struct [BootloaderStatus] of [bootloader.go]
    is not among the sources; the session only tests the pointer against
    [nil] ("bootloader-mode flag (fixed at construction)"). *)
Definition BootloaderStatus : Type := unit.

(** [btcec.Signature]. *)
Record Signature : Type := { R : Z; S : Z }.

(** [CommunicationInterface], over the state [C] of the implementation.  A
    message is passed as the value that is marshalled to JSON. *)
Record CommunicationInterface (C : Type) : Type := {
  SendPlain : Value -> C -> (Map * option error) * C;
  SendEncrypt : Value -> string -> C -> (Map * option error) * C
}.
Arguments SendPlain {C}.
Arguments SendEncrypt {C}.

(** The fields of [Device] the session logic reads or writes (the event
    callback, the pairing channel and the log entry are left out). *)
Record Device (C : Type) : Type := {
  bootloaderStatus : option BootloaderStatus;
  initialized : bool;
  password : string;
  seeded : bool;
  communication : C
}.
Arguments bootloaderStatus {C}.
Arguments initialized {C}.
Arguments password {C}.
Arguments seeded {C}.
Arguments communication {C}.

Section Session.

Context {C : Type} (comm : CommunicationInterface C).

(** Field updates of the receiver [dbb]. *)
Definition withCommunication (dbb : Device C) (c : C) : Device C :=
  {| bootloaderStatus := bootloaderStatus dbb; initialized := initialized dbb;
     password := password dbb; seeded := seeded dbb; communication := c |}.
Definition withPassword (dbb : Device C) (pw : string) : Device C :=
  {| bootloaderStatus := bootloaderStatus dbb; initialized := initialized dbb;
     password := pw; seeded := seeded dbb;
     communication := communication dbb |}.
Definition withSeeded (dbb : Device C) (b : bool) : Device C :=
  {| bootloaderStatus := bootloaderStatus dbb; initialized := initialized dbb;
     password := password dbb; seeded := b;
     communication := communication dbb |}.
Definition withInitialized (dbb : Device C) (b : bool) : Device C :=
  {| bootloaderStatus := bootloaderStatus dbb; initialized := b;
     password := password dbb; seeded := seeded dbb;
     communication := communication dbb |}.

(** The method [Status]; the name [Status] is taken by its result type. *)
Definition getStatus (dbb : Device C) : Status :=
  match bootloaderStatus dbb with
  | Some _ => StatusBootloader
  | None =>
    if seeded dbb then StatusSeeded
    else if negb (String.eqb (password dbb) "") then StatusLoggedIn
    else if initialized dbb then StatusInitialized
    else StatusUninitialized
  end.

Definition sendPlain (key val : string) (dbb : Device C)
  : (Map * option error) * Device C :=
  let '(res, c) := SendPlain comm (VMap [(key, VString val)])
                     (communication dbb) in
  (res, withCommunication dbb c).

Definition send (value : Value) (password : string) (dbb : Device C)
  : (Map * option error) * Device C :=
  let '(res, c) := SendEncrypt comm value password (communication dbb) in
  (res, withCommunication dbb c).

Definition sendKV (key value password : string) (dbb : Device C)
  : (Map * option error) * Device C :=
  send (VMap [(key, VString value)]) password dbb.

Definition SetPassword (pw : string) (dbb : Device C)
  : option error * Device C :=
  match sendPlain "password" pw dbb with
  | ((_, Some err), dbb) => (Some (WithMessage err "Failed to set password"), dbb)
  | ((reply, None), dbb) =>
    if negb (isString (index reply "password") "success") then
      (Some (New "Unexpected reply"), dbb)
    else (None, withPassword dbb pw)
  end.

End Session.

(** Modelled from the spec: the error codes of [errors.go], which is not
    among the sources, enter as parameters ("user-abort, touch-timeout");
    a code is the integral JSON number the device sends. *)
Section Abort.

Variables ErrTouchAbort ErrTouchTimeout : Z.

Definition IsErrorAbort (err : option error) : bool :=
  match err with
  | None => false
  | Some err =>
    match Cause err with
    | Errp.Device _ code => (code =? ErrTouchAbort) || (code =? ErrTouchTimeout)
    | _ => false
    end
  end.

Context {C : Type} (comm : CommunicationInterface C).

Definition Reset (dbb : Device C) : (bool * option error) * Device C :=
  let '((reply, err), dbb) := sendKV comm "reset" "__ERASE__" (password dbb) dbb in
  if IsErrorAbort err then ((false, None), dbb)
  else
    match err with
    | Some err => ((false, Some err), dbb)
    | None =>
      if negb (isString (index reply "reset") "success") then
        ((false, Some (New "unexpected reply")), dbb)
      else
        let dbb := withPassword dbb "" in
        let dbb := withSeeded dbb false in
        let dbb := withInitialized dbb false in
        ((true, None), dbb)
    end.

End Abort.

(** [hdkeychain] is an external library: the key type, its parser and its
    serialisation enter as parameters. *)
Section XPub.

Variable ExtendedKey : Type.
Variable NewKeyFromString : string -> ExtendedKey + error.
Variable KeyString : ExtendedKey -> string.

Context {C : Type} (comm : CommunicationInterface C).

(** The closure [getXPub] of [XPub]; its Go result [(key, err)] has exactly
    one non-nil component, hence the sum. *)
Definition getXPub (path : string) (dbb : Device C)
  : (ExtendedKey + error) * Device C :=
  match sendKV comm "xpub" path (password dbb) dbb with
  | ((_, Some err), dbb) => (inr err, dbb)
  | ((reply, None), dbb) =>
    match asString (index reply "xpub") with
    | None => (inr (WithStack (New "Unexpected reply")), dbb)
    | Some xpubStr => (NewKeyFromString xpubStr, dbb)
    end
  end.

Definition errInconsistentXPubs : error :=
  WithStack (New "Critical: the device returned inconsistent xpubs").

Definition XPub (path : string) (dbb : Device C)
  : (option ExtendedKey * option error) * Device C :=
  match getXPub path dbb with
  | (inr err, dbb) => ((None, Some err), dbb)
  | (inl xpub1, dbb) =>
    match getXPub path dbb with
    | (inr err, dbb) => ((None, Some err), dbb)
    | (inl xpub2, dbb) =>
      if negb (String.eqb (KeyString xpub1) (KeyString xpub2)) then
        ((None, Some errInconsistentXPubs), dbb)
      else ((Some xpub1, None), dbb)
    end
  end.

End XPub.

(** [golang.org/x/crypto/pbkdf2] and [crypto/sha512] are external: the
    derivation function and the hash constructor enter as parameters. *)
Section StretchKey.

Variable Hash : Type.
Variable sha512_New : Hash.
Variable pbkdf2_Key : list Z -> list Z -> Z -> Z -> Hash -> list Z.

Definition stretchKey (key : string) : Outcome string :=
  let iterations := 20480 in
  let keylen := 64 in
  let first := EncodeToString (pbkdf2_Key (bytesOfString key)
                 (bytesOfString "Digital Bitbox") iterations keylen sha512_New) in
  let second := EncodeToString (pbkdf2_Key (bytesOfString key)
                 (bytesOfString "Digital Bitbox") iterations keylen sha512_New) in
  if negb (String.eqb first second) then Panicked "memory error"
  else Returned first.

End StretchKey.

Section Signing.

Context {C : Type} (comm : CommunicationInterface C).

(** The entry of the [data] array for one hash and key path. *)
Definition signEntry (signatureHash : list Z) (keyPath : string) : Value :=
  VMap [("hash", VString (EncodeToString signatureHash));
        ("keypath", VString keyPath)].

(** The command [signBatch] sends for a batch. *)
Definition signCmd (signatureHashes : list (list Z)) (keyPaths : list string)
  : Value :=
  let data := map (fun p => signEntry (fst p) (snd p))
                  (combine signatureHashes keyPaths) in
  VMap [("sign", VMap [("data", VArray data)])].

Definition signBatch (signatureHashes : list (list Z)) (keyPaths : list string)
  (dbb : Device C) : Outcome (Map * option error) * Device C :=
  if negb (length signatureHashes =? length keyPaths)%nat then
    (Panicked "length of keyPaths must match length of signatureHashes", dbb)
  else if (signatureBatchSize <? length signatureHashes)%nat then
    (Panicked "only up to 15 signature hashes can be signed in one batch", dbb)
  else
    let cmd := signCmd signatureHashes keyPaths in
    (* First call returns the echo. *)
    match send comm cmd (password dbb) dbb with
    | ((_, Some err), dbb) =>
        (Returned ([], Some (WithMessage err "Failed to sign batch (1)")), dbb)
    | ((_, None), dbb) =>
      (* Second call returns the signatures. *)
      match send comm cmd (password dbb) dbb with
      | ((_, Some err), dbb) =>
          (Returned ([], Some (WithMessage err "Failed to sign batch (2)")), dbb)
      | ((reply, None), dbb) => (Returned (reply, None), dbb)
      end
    end.

(** One element of the reply's [sign] array, turned into a signature. *)
Definition parseSig (sig : Value) : Signature + error :=
  match asMap sig with
  | None => inr (New "Unexpected reply: 'sign' must be a map")
  | Some sigMap =>
    match asString (index sigMap "sig") with
    | None => inr (New "Unexpected reply: field 'sig' is missing in 'sign' map")
    | Some hexSig =>
      if negb (String.length hexSig =? 128)%nat then
        inr (New "Unexpected reply: field 'sig' must be 128 byte long")
      else
        match SetString16 (substring 0 64 hexSig) with
        | None => inr (New "Unexpected reply: R in 'sig' must be a hex value")
        | Some sigR =>
          match SetString16 (substring 64 (String.length hexSig - 64) hexSig) with
          | None => inr (New "Unexpected reply: S in 'sig' must be a hex value")
          | Some sigS => inl {| R := sigR; S := sigS |}
          end
        end
    end
  end.

(** The inner loop of [Sign], [for _, sig := range sigs]. *)
Fixpoint appendSigs (sigs : list Value) (signatures : list Signature)
  : list Signature + error :=
  match sigs with
  | [] => inl signatures
  | sig :: sigs =>
    match parseSig sig with
    | inr err => inr err
    | inl signature => appendSigs sigs (signatures ++ [signature])
    end
  end.

(** The outer loop of [Sign],
    [for i := 0; i < len(signatureHashes); i = i + signatureBatchSize]. *)
Fixpoint signLoop (fuel : nat) (signatureHashes : list (list Z))
  (keyPaths : list string) (i : nat) (signatures : list Signature)
  (dbb : Device C) : Outcome (list Signature * option error) * Device C :=
  match fuel with
  | O => (OutOfFuel, dbb)
  | Datatypes.S fuel =>
    if (i <? length signatureHashes)%nat then
      let upper := (i + signatureBatchSize)%nat in
      let upper := if (length signatureHashes <? upper)%nat
                   then length signatureHashes else upper in
      match signBatch (slice signatureHashes i upper) (slice keyPaths i upper)
                      dbb with
      | (Panicked msg, dbb) => (Panicked msg, dbb)
      | (OutOfFuel, dbb) => (OutOfFuel, dbb)
      | (Returned (_, Some err), dbb) => (Returned ([], Some err), dbb)
      | (Returned (reply, None), dbb) =>
        match asArray (index reply "sign") with
        | None =>
            (Returned ([], Some (New "Unexpected reply: field 'sign' is missing")),
             dbb)
        | Some sigs =>
          match appendSigs sigs signatures with
          | inr err => (Returned ([], Some err), dbb)
          | inl signatures =>
              signLoop fuel signatureHashes keyPaths
                       (i + signatureBatchSize) signatures dbb
          end
        end
      end
    else (Returned (signatures, None), dbb)
  end.

Definition Sign (signatureHashes : list (list Z)) (keyPaths : list string)
  (dbb : Device C) : Outcome (list Signature * option error) * Device C :=
  if negb (length signatureHashes =? length keyPaths)%nat then
    (Panicked "len of keyPaths must match len of signatureHashes", dbb)
  else if (length signatureHashes =? 0)%nat then
    (Panicked "non-empty list of signature hashes and keypaths expected", dbb)
  else
    signLoop (Datatypes.S (length signatureHashes)) signatureHashes keyPaths
             0 [] dbb.

End Signing.

(** *** Device information, login and the other commands *)

(** [DeviceInfo], with the reply key of each field (its [json] tag). *)
Record DeviceInfo : Type := {
  Version : string;
  Serial : string;
  ID : string;
  TFA : string;
  Bootlock : bool;
  Name : string;
  SDCard : bool;
  Lock : bool;
  U2F : bool;
  U2FHijack : bool;
  Seeded : bool
}.

(** A field of the reply under a type assertion, or the error of the field. *)
Definition field {A : Type} (assert : Json.Value -> option A) (m : Map)
  (key msg : string) : A + error :=
  match assert (index m key) with
  | Some a => inl a
  | None => inr (New msg)
  end.

#[local] Notation "'let*' x ':=' e 'in' k" :=
  (match e with inl x => k | inr err => inr err end)
  (at level 10, x name, e at level 100, k at level 200, only parsing).

(** The checks of [deviceInfo] on the [device] object of the reply, in the
    order of the source. *)
Definition parseDeviceInfo (device : Map) : DeviceInfo + error :=
  let* serial := field asString device "serial" "no serial" in
  let* id := field asString device "id" "no id" in
  let* tfa := field asString device "TFA" "no TFA" in
  let* bootlock := field asBool device "bootlock" "no bootlock" in
  let* name := field asString device "name" "device name" in
  let* sdcard := field asBool device "sdcard" "SD card" in
  let* lock := field asBool device "lock" "lock" in
  let* u2f := field asBool device "U2F" "U2F" in
  let* u2fHijack := field asBool device "U2F_hijack" "U2F_hijack" in
  let* version := field asString device "version" "version" in
  let* seeded := field asBool device "seeded" "version" in
  inl {| Version := version; Serial := serial; ID := id; TFA := tfa;
         Bootlock := bootlock; Name := name; SDCard := sdcard; Lock := lock;
         U2F := u2f; U2FHijack := u2fHijack; Seeded := seeded |}.

(** The [device] object a [DeviceInfo] is read from, by the [json] tags of
    the struct. *)
Definition deviceInfoFields (info : DeviceInfo) : Map :=
  [("version", VString (Version info)); ("serial", VString (Serial info));
   ("id", VString (ID info)); ("TFA", VString (TFA info));
   ("bootlock", VBool (Bootlock info)); ("name", VString (Name info));
   ("sdcard", VBool (SDCard info)); ("lock", VBool (Lock info));
   ("U2F", VBool (U2F info)); ("U2F_hijack", VBool (U2FHijack info));
   ("seeded", VBool (Seeded info))].

(** [regexp.MustCompile(`^[0-9a-zA-Z-_ ]{1,31}$`).MatchString]. *)
Definition inRange (lo hi : Z) (c : ascii) : bool :=
  let n := Z.of_N (N_of_ascii c) in (lo <=? n) && (n <=? hi).
Definition isDigit (c : ascii) : bool := inRange 48 57 c.
Definition nameChar (c : ascii) : bool :=
  isDigit c || inRange 97 122 c || inRange 65 90 c
  || Ascii.eqb c "-" || Ascii.eqb c "_" || Ascii.eqb c " ".
Definition validName (name : string) : bool :=
  (1 <=? String.length name)%nat && (String.length name <=? 31)%nat
  && forallb nameChar (list_ascii_of_string name).

(** [regexp.MustCompile(`(\d+) attempts remain before`).FindStringSubmatch],
    reduced to its group: the leftmost run of digits that the text
    [" attempts remain before"] follows. *)
Fixpoint spanDigits (s : string) : string * string :=
  match s with
  | EmptyString => (EmptyString, EmptyString)
  | String c rest =>
    if isDigit c then
      let '(digits, rest) := spanDigits rest in (String c digits, rest)
    else (EmptyString, s)
  end.

Fixpoint findAttempts (s : string) : option string :=
  match s with
  | EmptyString => None
  | String c rest =>
    let '(digits, after) := spanDigits s in
    if negb (String.eqb digits "") && String.prefix " attempts remain before" after
    then Some digits
    else findAttempts rest
  end.

(** [strings.Contains]. *)
Fixpoint Contains (s substr : string) : bool :=
  String.prefix substr s
  || match s with
     | EmptyString => false
     | String _ rest => Contains rest substr
     end.

Section Commands.

(** [errors.go] and the clock are not among the sources: the text of a
    device error ([Error()]), the error codes and the formatted time
    [time.Now().Format("2006-01-02-15-04-05")] enter as parameters, as do
    the external [pbkdf2] and [sha512]. *)
Variable ErrorText : string -> Z -> string.
Variables ErrTouchAbort ErrTouchTimeout ErrInitializing : Z.
Variable timestamp : string.
Variable Hash : Type.
Variable sha512_New : Hash.
Variable pbkdf2_Key : list Z -> list Z -> Z -> Z -> Hash -> list Z.

Context {C : Type} (comm : CommunicationInterface C).

Definition deviceInfo (pw : string) (dbb : Device C)
  : (DeviceInfo + error) * Device C :=
  match sendKV comm "device" "info" pw dbb with
  | ((_, Some err), dbb) => (inr err, dbb)
  | ((reply, None), dbb) =>
    match asMap (index reply "device") with
    | None => (inr (New "unexpected reply"), dbb)
    | Some device => (parseDeviceInfo device, dbb)
    end
  end.

(** The method [DeviceInfo]. *)
Definition getDeviceInfo (dbb : Device C) : (DeviceInfo + error) * Device C :=
  deviceInfo (password dbb) dbb.

Definition Ping (dbb : Device C) : (bool * option error) * Device C :=
  match sendPlain comm "ping" "" dbb with
  | ((_, Some err), dbb) => ((false, Some err), dbb)
  | ((reply, None), dbb) =>
      ((isString (index reply "ping") "password", None), dbb)
  end.

Definition LockBootloader (dbb : Device C) : option error * Device C :=
  match sendKV comm "bootloader" "lock" (password dbb) dbb with
  | ((_, Some err), dbb) => (Some (WithMessage err "Failed to lock bootloader"), dbb)
  | ((reply, None), dbb) =>
    if negb (isString (index reply "bootloader") "lock") then
      (Some (New "Unexpected reply: field 'bootloader' is missing"), dbb)
    else (None, dbb)
  end.

Definition UnlockBootloader (dbb : Device C) : option error * Device C :=
  match sendKV comm "bootloader" "unlock" (password dbb) dbb with
  | ((_, Some err), dbb) =>
      (Some (WithMessage err "Failed to unlock bootloader"), dbb)
  | ((reply, None), dbb) =>
    if negb (isString (index reply "bootloader") "unlock") then
      (Some (New "unexpected reply"), dbb)
    else (None, dbb)
  end.

(** [Login]: whether the next attempt needs a long touch, the remaining
    attempts, the error. *)
Definition Login (pw : string) (dbb : Device C)
  : (bool * string * option error) * Device C :=
  match deviceInfo pw dbb with
  | (inr err, dbb) =>
    let '(needsLongTouch, remainingAttempts) :=
      match Cause err with
      | Errp.Device msg code =>
        (Contains (ErrorText msg code) "next",
         match findAttempts (ErrorText msg code) with
         | Some group => group
         | None => EmptyString
         end)
      | _ => (false, EmptyString)
      end in
    ((needsLongTouch, remainingAttempts, Some err), dbb)
  | (inl info, dbb) =>
    let dbb := withPassword dbb pw in
    let dbb := withSeeded dbb (Seeded info) in
    if negb (Bootlock info) then
      match LockBootloader dbb with
      | (Some err, dbb) => ((false, EmptyString, Some err), dbb)
      | (None, dbb) => ((false, EmptyString, None), dbb)
      end
    else ((false, EmptyString, None), dbb)
  end.

Definition validSource (source : string) : bool :=
  String.eqb source "create" || String.eqb source "backup"
  || String.eqb source "U2F_create" || String.eqb source "U2F_load".

Definition seed (devicePassword backupPassword source filename : string)
  (dbb : Device C) : Outcome (option error) * Device C :=
  if negb (validSource source) then
    (Panicked "source must be 'create', 'backup', 'U2F_create' or 'U2F_load'",
     dbb)
  else
    match stretchKey Hash sha512_New pbkdf2_Key backupPassword with
    | Panicked msg => (Panicked msg, dbb)
    | OutOfFuel => (OutOfFuel, dbb)
    | Returned key =>
      match send comm
              (VMap [("seed", VMap [("source", VString source);
                                    ("key", VString key);
                                    ("filename", VString filename)])])
              devicePassword dbb with
      | ((_, Some err), dbb) =>
          (Returned (Some (WithMessage err "Failed to create or backup wallet (seed)")),
           dbb)
      | ((reply, None), dbb) =>
        if negb (isString (index reply "seed") "success") then
          (Returned (Some (New "Unexpected result")), dbb)
        else (Returned None, dbb)
      end
    end.

Definition backupFilename (backupName : string) : string :=
  String.append backupName
    (String.append "-" (String.append timestamp ".pdf")).

Definition SetName (name : string) (dbb : Device C) : option error * Device C :=
  if negb (validName name) then (Some (New "Invalid device name"), dbb)
  else
    match send comm (VMap [("name", VString name)]) (password dbb) dbb with
    | ((_, Some err), dbb) => (Some (WithMessage err "Failed to set name"), dbb)
    | ((reply, None), dbb) =>
      match asString (index reply "name") with
      | None => (Some (New "unexpected result"), dbb)
      | Some newName =>
        if (String.length newName =? 0)%nat || negb (String.eqb newName name)
        then (Some (New "unexpected result"), dbb)
        else (None, dbb)
      end
    end.

Definition CreateWallet (walletName : string) (dbb : Device C)
  : Outcome (option error) * Device C :=
  if negb (validName walletName) then
    (Returned (Some (New "invalid wallet name")), dbb)
  else
    match seed (password dbb) (password dbb) "create"
               (backupFilename walletName) dbb with
    | (Returned (Some err), dbb) =>
        (Returned (Some (WithMessage err "Failed to create wallet")), dbb)
    | (Returned None, dbb) => (Returned None, withSeeded dbb true)
    | other => other
    end.

Definition RestoreBackup (backupPassword filename : string) (dbb : Device C)
  : Outcome (bool * option error) * Device C :=
  match seed (password dbb) backupPassword "backup" filename dbb with
  | (Panicked msg, dbb) => (Panicked msg, dbb)
  | (OutOfFuel, dbb) => (OutOfFuel, dbb)
  | (Returned err, dbb) =>
    if IsErrorAbort ErrTouchAbort ErrTouchTimeout err then
      (Returned (false, None), dbb)
    else
      match err with
      | Some err => (Returned (false, Some err), dbb)
      | None => (Returned (true, None), withSeeded dbb true)
      end
  end.

Definition Random (typ : string) (dbb : Device C)
  : Outcome (string * option error) * Device C :=
  if negb (String.eqb typ "true") && negb (String.eqb typ "pseudo") then
    (Panicked "needs to be true or pseudo", dbb)
  else
    match sendKV comm "random" typ (password dbb) dbb with
    | ((_, Some err), dbb) =>
        (Returned (EmptyString, Some (WithMessage err "Failed to generate random")),
         dbb)
    | ((reply, None), dbb) =>
      match asString (index reply "random") with
      | None => (Returned (EmptyString, Some (New "unexpected reply")), dbb)
      | Some rand =>
        if negb (String.length rand =? 32)%nat then
          (Returned (EmptyString, Some (New "unexpected length, expected 32")),
           dbb)
        else (Returned (rand, None), dbb)
      end
    end.

(** The loop of [BackupList], [for _, filename := range filenames]. *)
Fixpoint filenameStrings (filenames : list Json.Value) (acc : list string)
  : list string + error :=
  match filenames with
  | [] => inl acc
  | filename :: filenames =>
    match asString filename with
    | None => inr (New "unexpected reply")
    | Some filenameString => filenameStrings filenames (acc ++ [filenameString])
    end
  end.

Definition BackupList (dbb : Device C)
  : (list string * option error) * Device C :=
  match sendKV comm "backup" "list" (password dbb) dbb with
  | ((_, Some err), dbb) =>
      (([], Some (WithMessage err "Failed to retrieve list of backups")), dbb)
  | ((reply, None), dbb) =>
    match asArray (index reply "backup") with
    | None => (([], Some (New "unexpected reply")), dbb)
    | Some filenames =>
      match filenameStrings filenames [] with
      | inr err => (([], Some err), dbb)
      | inl names => ((names, None), dbb)
      end
    end
  end.

(** The readiness loop of [NewDevice], [for i := 0; i < 20; i++], run for
    the attempts that are left. *)
Fixpoint pingLoop (attempts : nat) (initialized : bool) (dbb : Device C)
  : (bool * option error) * Device C :=
  match attempts with
  | O => ((initialized, None), dbb)
  | Datatypes.S attempts =>
    match Ping dbb with
    | ((initialized, Some err), dbb) =>
      match Cause err with
      | Errp.Device _ code =>
        if code =? ErrInitializing then pingLoop attempts initialized dbb
        else ((initialized, Some err), dbb)
      | _ => ((initialized, Some err), dbb)
      end
    | ((initialized, None), dbb) => ((initialized, None), dbb)
    end
  end.

(** [util/semver] and [bootloader.go] are not among the sources: the
    version type, its range test and the bootloader bounds enter as
    parameters. *)
Variable SemVer : Type.
Variable NewSemVer : Z -> Z -> Z -> SemVer.
Variable Between : SemVer -> SemVer -> SemVer -> bool.
Variables lowestSupportedBootloaderVersion
          lowestNonSupportedBootloaderVersion : SemVer.

Definition lowestSupportedFirmwareVersion : SemVer := NewSemVer 2 2 2.
Definition lowestNonSupportedFirmwareVersion : SemVer := NewSemVer 4 0 0.

(** [NewDevice]: the session, or the error, and the communication as the
    call leaves it. *)
Definition NewDevice (bootloader : bool) (version : SemVer) (communication : C)
  : (Device C + error) * C :=
  if bootloader
     && negb (Between version lowestSupportedBootloaderVersion
                      lowestNonSupportedBootloaderVersion) then
    (inr (New "The bootloader version is not supported."), communication)
  else if negb bootloader
          && negb (Between version lowestSupportedFirmwareVersion
                           lowestNonSupportedFirmwareVersion) then
    (inr (New "The firmware version is not supported."), communication)
  else
    let device := {| bootloaderStatus := if bootloader then Some tt else None;
                     initialized := false; password := EmptyString;
                     seeded := false; communication := communication |} in
    if negb bootloader then
      match pingLoop 20 false device with
      | ((_, Some err), device) => (inr err, Bitbox.communication device)
      | ((initialized, None), device) =>
          (inl (withInitialized device initialized),
           Bitbox.communication device)
      end
    else (inl device, communication).

End Commands.

End Bitbox.

(** ** Transaction signer ([coins/btc/sign.go]) *)

Module Btc.

(** The [wire] types of a transaction. *)
Record OutPoint : Type := { Hash : list Z; Index : Z }.
Record TxIn : Type := {
  PreviousOutPoint : OutPoint;
  SignatureScript : list Z;
  Witness : list (list Z);
  Sequence : Z
}.
Record TxOut : Type := { Value : Z; PkScript : list Z }.
Record MsgTx : Type := {
  Version : Z;
  TxIns : list TxIn;
  TxOuts : list TxOut;
  LockTime : Z
}.

(** [txscript.SigHashAll]. *)
Definition SigHashAll : Z := 1.

Section Signer.

(** [addresses.Address] lives in [addresses/address.go], which is not among
    the sources: the type and the three members the signer uses enter as
    parameters. *)
Variable Address : Type.
Variable SigHashData : Address -> bool * list Z.
Variable InputData : Address -> Bitbox.Signature -> list Z * list (list Z).
Variable KeyPath : Address -> string.

(** [transactions.TxOut]: a spent output with its owning address. *)
Record SpentOutput : Type := {
  spentValue : Z;
  spentPkScript : list Z;
  spentAddress : Address
}.

(** [map[wire.OutPoint]*transactions.TxOut], only ever read here. *)
Definition PreviousOutputs : Type := OutPoint -> option SpentOutput.

(** [txscript] and [txsort] are external libraries. *)
Variable TxSigHashes : Type.
Variable NewTxSigHashes : MsgTx -> TxSigHashes.
Variable CalcWitnessSigHash :
  list Z -> TxSigHashes -> Z -> MsgTx -> Z -> Z -> list Z + error.
Variable CalcSignatureHash : list Z -> Z -> MsgTx -> Z -> list Z + error.
Variable IsSorted : MsgTx -> bool.
Variable ScriptFlags : Type.
Variable StandardVerifyFlags : ScriptFlags.
Variable Engine : Type.
Variable NewEngine :
  list Z -> MsgTx -> Z -> ScriptFlags -> TxSigHashes -> Z -> Engine + error.
Variable Execute : Engine -> option error.

(** [KeyStoreWithoutKeyDerivation], over the state [K] of the key store. *)
Variable K : Type.
Variable keyStoreSign :
  list (list Z) -> list string -> K
  -> Outcome (list Bitbox.Signature * option error) * K.

(** The loop of [txValidityCheck], [for index, txIn := range transaction.TxIn]. *)
Fixpoint verifyInputs (transaction : MsgTx) (previousOutputs : PreviousOutputs)
  (sigHashes : TxSigHashes) (txIns : list TxIn) (index : Z) : option error :=
  match txIns with
  | [] => None
  | txIn :: txIns =>
    match previousOutputs (PreviousOutPoint txIn) with
    | None =>
        Some (New "output/input mismatch; there needs to be exactly one output being spent per input")
    | Some spentOutput =>
      match NewEngine (spentPkScript spentOutput) transaction index
                      StandardVerifyFlags sigHashes (spentValue spentOutput) with
      | inr err => Some (WithStack err)
      | inl engine =>
        match Execute engine with
        | Some err => Some (WithStack err)
        | None =>
            verifyInputs transaction previousOutputs sigHashes txIns (index + 1)
        end
      end
    end
  end.

Definition txValidityCheck (transaction : MsgTx)
  (previousOutputs : PreviousOutputs) (sigHashes : TxSigHashes) : option error :=
  if negb (IsSorted transaction) then Some (New "tx not bip69 conformant")
  else verifyInputs transaction previousOutputs sigHashes (TxIns transaction) 0.

(** Input [index] of [transaction] passes the script engine against the
    output it spends. *)
Definition inputVerifies (transaction : MsgTx)
  (previousOutputs : PreviousOutputs) (sigHashes : TxSigHashes)
  (index : Z) (txIn : TxIn) : Prop :=
  exists spentOutput engine,
    previousOutputs (PreviousOutPoint txIn) = Some spentOutput
    /\ NewEngine (spentPkScript spentOutput) transaction index
                 StandardVerifyFlags sigHashes (spentValue spentOutput)
       = inl engine
    /\ Execute engine = None.

(** The first loop of [SignTransaction]: one signature hash and key path per
    input. *)
Fixpoint hashInputs (transaction : MsgTx) (previousOutputs : PreviousOutputs)
  (sigHashes : TxSigHashes) (txIns : list TxIn) (index : Z)
  (signatureHashes : list (list Z)) (keyPaths : list string)
  : Outcome ((list (list Z) * list string) + error) :=
  match txIns with
  | [] => Returned (inl (signatureHashes, keyPaths))
  | txIn :: txIns =>
    match previousOutputs (PreviousOutPoint txIn) with
    | None =>
        Panicked "output/input mismatch; there needs to be exactly one output being spent ber input"
    | Some spentOutput =>
      let address := spentAddress spentOutput in
      let '(isSegwit, subScript) := SigHashData address in
      let hashed :=
        if isSegwit then
          match CalcWitnessSigHash subScript sigHashes SigHashAll transaction
                                   index (spentValue spentOutput) with
          | inr err =>
              inr (WithStack (WithMessage err "Failed to calculate SegWit signature hash"))
          | inl signatureHash => inl signatureHash
          end
        else
          match CalcSignatureHash subScript SigHashAll transaction index with
          | inr err =>
              inr (WithStack (WithMessage err "Failed to calculate legacy signature hash"))
          | inl signatureHash => inl signatureHash
          end in
      match hashed with
      | inr err => Returned (inr err)
      | inl signatureHash =>
          hashInputs transaction previousOutputs sigHashes txIns (index + 1)
                     (signatureHashes ++ [signatureHash])
                     (keyPaths ++ [KeyPath address])
      end
    end
  end.

(** The second loop of [SignTransaction]: fill in script and witness of each
    input from its signature. *)
Fixpoint fillInputs (previousOutputs : PreviousOutputs) (txIns : list TxIn)
  (signatures : list Bitbox.Signature) : Outcome (list TxIn) :=
  match txIns with
  | [] => Returned []
  | input :: txIns =>
    match previousOutputs (PreviousOutPoint input), signatures with
    | None, _ => Panicked "invalid memory address or nil pointer dereference"
    | _, [] => Panicked "index out of range"
    | Some spentOutput, signature :: signatures =>
      let '(script, witness) := InputData (spentAddress spentOutput) signature in
      match fillInputs previousOutputs txIns signatures with
      | Returned txIns =>
          Returned ({| PreviousOutPoint := PreviousOutPoint input;
                       SignatureScript := script;
                       Witness := witness;
                       Sequence := Sequence input |} :: txIns)
      | other => other
      end
    end
  end.

Definition withTxIns (transaction : MsgTx) (txIns : list TxIn) : MsgTx :=
  {| Version := Version transaction; TxIns := txIns;
     TxOuts := TxOuts transaction; LockTime := LockTime transaction |}.

(** [SignTransaction]: the outcome, the transaction as the call leaves it,
    and the key store. *)
Definition SignTransaction (keyStore : K) (transaction : MsgTx)
  (previousOutputs : PreviousOutputs) : Outcome (option error) * MsgTx * K :=
  let sigHashes := NewTxSigHashes transaction in
  match hashInputs transaction previousOutputs sigHashes (TxIns transaction)
                   0 [] [] with
  | Panicked msg => (Panicked msg, transaction, keyStore)
  | OutOfFuel => (OutOfFuel, transaction, keyStore)
  | Returned (inr err) => (Returned (Some err), transaction, keyStore)
  | Returned (inl (signatureHashes, keyPaths)) =>
    match keyStoreSign signatureHashes keyPaths keyStore with
    | (Panicked msg, keyStore) => (Panicked msg, transaction, keyStore)
    | (OutOfFuel, keyStore) => (OutOfFuel, transaction, keyStore)
    | (Returned (_, Some err), keyStore) =>
        (Returned (Some (WithMessage err "Failed to sign signature hash")),
         transaction, keyStore)
    | (Returned (signatures, None), keyStore) =>
      if negb (length signatures =? length (TxIns transaction))%nat then
        (Panicked "number of signatures doesn't match number of inputs",
         transaction, keyStore)
      else
        match fillInputs previousOutputs (TxIns transaction) signatures with
        | Panicked msg => (Panicked msg, transaction, keyStore)
        | OutOfFuel => (OutOfFuel, transaction, keyStore)
        | Returned txIns =>
          let transaction := withTxIns transaction txIns in
          (* Sanity check: see if the created transaction is valid. *)
          match txValidityCheck transaction previousOutputs sigHashes with
          | Some err =>
              (Panicked "Failed to pass transaction validity check",
               transaction, keyStore)
          | None => (Returned None, transaction, keyStore)
          end
        end
    end
  end.

End Signer.

End Btc.

(** ** Address chain ([coins/btc/addresses/addresschain.go]) *)

Module Addresses.

(** [%d] of [fmt.Sprintf]. *)
Definition itoa (z : Z) : string := NilZero.string_of_int (Z.to_int z).

Section Chain.

(** [hdkeychain], [chaincfg], [btcec] are external and [address.go] is not
    among the sources: the key, network, public key and address types, child
    derivation, address construction and the used flag enter as
    parameters. *)
Variables ExtendedKey Params PublicKey AddressType Address : Type.
Variable IsPrivate : ExtendedKey -> bool.
Variable IsForNet : ExtendedKey -> Params -> bool.
Variable Child : ExtendedKey -> Z -> ExtendedKey + error.
Variable ECPubKey : ExtendedKey -> PublicKey + error.
Variable NewAddress : PublicKey -> Params -> string -> AddressType -> Address.
Variable isUsed : Address -> bool.
Variable AddressString : Address -> string.

Record AddressChain : Type := {
  xpub : ExtendedKey;
  net : Params;
  gapLimit : Z;
  chainIndex : Z;
  addressType : AddressType;
  addresses : list Address
}.

Definition NewAddressChain (xpub : ExtendedKey) (net : Params) (gapLimit : Z)
  (chainIndex : Z) (addressType : AddressType) : Outcome AddressChain :=
  if IsPrivate xpub then
    Panicked "Extended key is private! Only public keys are accepted"
  else if negb (IsForNet xpub net) then
    Panicked "xpub does not match provided net"
  else
    match Child xpub chainIndex with
    | inr _ => Panicked "child derivation failed"
    | inl chainXPub =>
        Returned {| xpub := chainXPub; net := net; gapLimit := gapLimit;
                    chainIndex := chainIndex; addressType := addressType;
                    addresses := [] |}
    end.

(** The loop of [unusedTailCount], from the last address backwards. *)
Fixpoint unusedRun (reversed : list Address) : nat :=
  match reversed with
  | [] => O
  | address :: reversed =>
      if isUsed address then O else S (unusedRun reversed)
  end.

Definition unusedTailCount (chain : AddressChain) : Z :=
  Z.of_nat (unusedRun (rev (addresses chain))).

Definition GetUnused (chain : AddressChain) : Outcome Address :=
  if negb (unusedTailCount chain =? gapLimit chain) then
    Panicked "concurrency error; addresses not synced correctly"
  else
    match nth_error (addresses chain)
            (Z.to_nat (Z.of_nat (length (addresses chain)) - gapLimit chain)) with
    | Some address => Returned address
    | None => Panicked "index out of range"
    end.

Definition getPubKey (chain : AddressChain) (index : Z) : Outcome PublicKey :=
  match Child (xpub chain) index with
  | inr _ => Panicked "Failed to get XPub child"
  | inl xpub =>
    match ECPubKey xpub with
    | inr _ => Panicked "Failed to get EC pubkey"
    | inl publicKey => Returned publicKey
    end
  end.

Definition keyPath (chain : AddressChain) (index : Z) : string :=
  String.append (itoa (chainIndex chain)) (String.append "/" (itoa index)).

(** [addAddress]: the new address and the chain with it appended. *)
Definition addAddress (chain : AddressChain) : Outcome (Address * AddressChain) :=
  let index := Z.of_nat (length (addresses chain)) in
  match getPubKey chain (index mod 2 ^ 32) with
  | Panicked msg => Panicked msg
  | OutOfFuel => OutOfFuel
  | Returned publicKey =>
    let addressWithPK :=
      NewAddress publicKey (net chain) (keyPath chain index) (addressType chain) in
    Returned (addressWithPK,
              {| xpub := xpub chain; net := net chain; gapLimit := gapLimit chain;
                 chainIndex := chainIndex chain; addressType := addressType chain;
                 addresses := addresses chain ++ [addressWithPK] |})
  end.

Definition Contains (chain : AddressChain) (checkAddress : Address) : bool :=
  existsb (fun address => String.eqb (AddressString checkAddress)
                                     (AddressString address))
          (addresses chain).

(** The loop of [EnsureAddresses], for the iterations that are left. *)
Fixpoint addAddresses (iterations : nat) (chain : AddressChain)
  (addedAddresses : list Address) : Outcome (list Address * AddressChain) :=
  match iterations with
  | O => Returned (addedAddresses, chain)
  | S iterations =>
    match addAddress chain with
    | Panicked msg => Panicked msg
    | OutOfFuel => OutOfFuel
    | Returned (address, chain) =>
        addAddresses iterations chain (addedAddresses ++ [address])
    end
  end.

Definition EnsureAddresses (chain : AddressChain)
  : Outcome (list Address * AddressChain) :=
  let unusedAddressCount := unusedTailCount chain in
  addAddresses (Z.to_nat (gapLimit chain - unusedAddressCount)) chain [].

(** The address [addAddress] builds at a position, when its key derives. *)
Definition derived (chain : AddressChain) (position : nat) : option Address :=
  match getPubKey chain (Z.of_nat position mod 2 ^ 32) with
  | Returned publicKey =>
      Some (NewAddress publicKey (net chain) (keyPath chain (Z.of_nat position))
                       (addressType chain))
  | _ => None
  end.

(** Every address of the chain is the one derived at its position. *)
Definition sequential (chain : AddressChain) : Prop :=
  forall position address,
    nth_error (addresses chain) position = Some address ->
    derived chain position = Some address.

End Chain.

Arguments xpub {ExtendedKey Params AddressType Address}.
Arguments net {ExtendedKey Params AddressType Address}.
Arguments gapLimit {ExtendedKey Params AddressType Address}.
Arguments chainIndex {ExtendedKey Params AddressType Address}.
Arguments addressType {ExtendedKey Params AddressType Address}.
Arguments addresses {ExtendedKey Params AddressType Address}.

End Addresses.

(** ** Test doubles for the communication interface *)

Module Mock.

Import Bitbox.

(** One request as the device sees it. *)
Record Call : Type := { encrypted : bool; message : Json.Value; key : string }.

(** A deterministic device: its reply is a function of the requests seen so
    far and of the current one. *)
Definition Respond : Type := list Call -> Call -> Map * option error.

(** The communication that records every request and answers by [respond]. *)
Definition recorder (respond : Respond) : CommunicationInterface (list Call) :=
  {| SendPlain := fun msg calls =>
       let call := {| encrypted := false; message := msg; key := "" |} in
       (respond calls call, calls ++ [call]);
     SendEncrypt := fun msg pw calls =>
       let call := {| encrypted := true; message := msg; key := pw |} in
       (respond calls call, calls ++ [call]) |}.

(** A device that plays back a fixed list of replies. *)
Definition scripted (replies : list (Map * option error)) : Respond :=
  fun calls _ => nth (length calls) replies ([], Some (New "no reply scripted")).

(** A session on a fresh, unprobed device. *)
Definition fresh {C : Type} (c : C) : Device C :=
  {| bootloaderStatus := None; initialized := false; password := "";
     seeded := false; communication := c |}.

(** A signing device that follows the protocol: every first sight of a
    command is answered by an echo, the repetition by one signature per
    entry of the command's [data], in order. *)
Definition entrySig (signer : string -> string -> string) (entry : Json.Value)
  : Json.Value :=
  match asMap entry with
  | Some fields =>
    match asString (index fields "hash"), asString (index fields "keypath") with
    | Some hash, Some keypath => VMap [("sig", VString (signer hash keypath))]
    | _, _ => VNil
    end
  | None => VNil
  end.

Definition signReply (signer : string -> string -> string) (msg : Json.Value)
  : Map :=
  match asMap msg with
  | Some fields =>
    match asMap (index fields "sign") with
    | Some sign =>
      match asArray (index sign "data") with
      | Some data => [("sign", VArray (map (entrySig signer) data))]
      | None => []
      end
    | None => []
    end
  | None => []
  end.

Definition honest (signer : string -> string -> string) : Respond :=
  fun calls call =>
    if Nat.even (length calls) then ([("echo", VString "")], None)
    else (signReply signer (message call), None).

(** The signature text of the device: R, then S, each as 32 bytes in
    big-endian order written in base 16, 128 digits in all. *)
Fixpoint bytesBE (n : nat) (v : Z) : list Z :=
  match n with
  | O => []
  | Datatypes.S n => bytesBE n (v / 256) ++ [v mod 256]
  end.
Definition sigText (r s : Z) : string :=
  String.append (EncodeToString (bytesBE 32 r)) (EncodeToString (bytesBE 32 s)).

(** A signer that computes the two numbers of a signature from the hash
    text and the key path of an entry, and answers with their text. *)
Definition hexSigner (sigR sigS : string -> string -> Z)
  : string -> string -> string :=
  fun hash keypath => sigText (sigR hash keypath) (sigS hash keypath).

(** A text read as a number in base 256, cut to 256 bits: a signer that
    tells entries apart. *)
Definition textValue (text : string) : Z :=
  fold_left (fun acc b => acc * 256 + b) (bytesOfString text) 0 mod 2 ^ 256.

(** A run of one character. *)
Definition digits (c : ascii) (n : nat) : string :=
  string_of_list_ascii (repeat c n).

(** A signature text of 128 bytes whose R part starts with a sign: not 128
    base-16 digits. *)
Definition signedSigText : string :=
  String "-"%char (String.append (digits "1" 63) (digits "2" 64)).

(** The reply of a device whose user declined the touch confirmation. *)
Definition errorReply (code : Z) : Map :=
  [("error", VMap [("message", VString "Aborted by user."); ("code", VNumber code)])].

(** The request [signBatch] sends, twice, for a batch of pairs. *)
Definition signCall (pw : string) (batch : list (list Z * string)) : Call :=
  {| encrypted := true;
     message := signCmd (map fst batch) (map snd batch);
     key := pw |}.

(** The batches of the specification: consecutive runs of 15 pairs, the last
    one possibly shorter, [ceil(n / 15)] of them. *)
Definition batchesOf (pairs : list (list Z * string))
  : list (list (list Z * string)) :=
  map (fun j => slice pairs (15 * j) (15 * j + 15))
      (seq 0 ((length pairs + 14) / 15)).

(** The request [sendKV] makes for a key and a value under a password, and
    the request [sendPlain] makes. *)
Definition kvCall (k value pw : string) : Call :=
  {| encrypted := true; message := VMap [(k, VString value)]; key := pw |}.
Definition plainCall (k value : string) : Call :=
  {| encrypted := false; message := VMap [(k, VString value)];
     key := EmptyString |}.

(** The answer of a device that is still booting. *)
Definition initializingReply (code : Z) : Map * option error :=
  ([], Some (Errp.Device "Device initializing" code)).

(** The request [XPub] sends for a path under a password. *)
Definition xpubCall (path pw : string) : Call :=
  {| encrypted := true; message := VMap [("xpub", VString path)]; key := pw |}.

(** An [hdkeychain] stand-in: a key is its text. *)
Definition textKey : string -> string + error := fun s => inl s.

(** A transaction with one input and one output, and a signer whose
    external parts all succeed, over a key store that counts its calls. *)
Definition oneInput : Btc.TxIn :=
  {| Btc.PreviousOutPoint := {| Btc.Hash := [1]; Btc.Index := 0 |};
     Btc.SignatureScript := []; Btc.Witness := []; Btc.Sequence := 0xffffffff |}.
Definition oneInputTx : Btc.MsgTx :=
  {| Btc.Version := 1; Btc.TxIns := [oneInput];
     Btc.TxOuts := [{| Btc.Value := 1000; Btc.PkScript := [0x51] |}];
     Btc.LockTime := 0 |}.
Definition known : Btc.PreviousOutputs unit :=
  fun _ => Some {| Btc.spentValue := 1000; Btc.spentPkScript := [0x51];
                   Btc.spentAddress := tt |}.
Definition signTx
  (keyStoreSign : list (list Z) -> list string -> nat
                  -> Outcome (list Signature * option error) * nat)
  (transaction : Btc.MsgTx) (previousOutputs : Btc.PreviousOutputs unit)
  : Outcome (option error) * Btc.MsgTx * nat :=
  Btc.SignTransaction unit (fun _ => (false, [])) (fun _ _ => ([1], []))
    (fun _ => "m/0") unit (fun _ => tt) (fun _ _ _ _ _ _ => inl [7])
    (fun _ _ _ _ => inl [7]) (fun _ => true) unit tt unit
    (fun _ _ _ _ _ _ => inl tt) (fun _ => None) nat keyStoreSign
    O transaction previousOutputs.
Definition obliging (hs : list (list Z)) (ks : list string) (calls : nat)
  : Outcome (list Signature * option error) * nat :=
  (Returned (map (fun _ => {| R := 1; S := 2 |}) hs, None), Datatypes.S calls).
Definition refusing (hs : list (list Z)) (ks : list string) (calls : nat)
  : Outcome (list Signature * option error) * nat :=
  (Returned ([], Some (Errp.Device "Aborted by user." 600)), Datatypes.S calls).

(** A chain over stand-ins: a key is a number, its child the index, an
    address its key path with a used flag, unused when built. *)
Definition TestAddress : Type := string * bool.
Definition TestChain : Type := Addresses.AddressChain Z unit unit TestAddress.
Definition testChild : Z -> Z -> Z + error := fun _ index => inl index.
Definition testPubKey : Z -> Z + error := fun k => inl k.
Definition testAddress : Z -> unit -> string -> unit -> TestAddress :=
  fun _ _ path _ => (path, false).
Definition testChain (gap : Z) (addrs : list TestAddress) : TestChain :=
  {| Addresses.xpub := 0; Addresses.net := tt; Addresses.gapLimit := gap;
     Addresses.chainIndex := 0; Addresses.addressType := tt;
     Addresses.addresses := addrs |}.
Definition testEnsure (chain : TestChain) :=
  Addresses.EnsureAddresses Z unit Z unit TestAddress testChild testPubKey
    testAddress snd chain.

End Mock.

(** * Properties *)

(** ** Session state *)

Section SessionFacts.

Import Bitbox.

Context {C : Type} (comm : CommunicationInterface C).

Lemma getStatus_withCommunication (dbb : Device C) (c : C) :
  getStatus (withCommunication dbb c) = getStatus dbb.
Proof. reflexivity. Qed.

(** [sendPlain] and [send] touch nothing but the communication. *)
Lemma sendPlain_frame key val (dbb : Device C) :
  exists c, snd (sendPlain comm key val dbb) = withCommunication dbb c
            /\ fst (sendPlain comm key val dbb)
               = fst (SendPlain comm (VMap [(key, VString val)]) (communication dbb)).
Proof.
  unfold sendPlain.
  destruct (SendPlain comm _ (communication dbb)) as [res c].
  exists c. split; reflexivity.
Qed.

Lemma send_frame value pw (dbb : Device C) :
  exists c, snd (send comm value pw dbb) = withCommunication dbb c
            /\ fst (send comm value pw dbb)
               = fst (SendEncrypt comm value pw (communication dbb)).
Proof.
  unfold send.
  destruct (SendEncrypt comm _ _ (communication dbb)) as [res c].
  exists c. split; reflexivity.
Qed.

End SessionFacts.

(** C6: for every combination of the session fields, [Status] is the state
    fixed by the precedence bootloader, seeded, logged in (non-empty
    password), initialized, uninitialized. *)
Theorem Status_precedence :
  forall (C : Type) (dbb : Bitbox.Device C),
    (Bitbox.bootloaderStatus dbb <> None ->
       Bitbox.getStatus dbb = Bitbox.StatusBootloader)
    /\ (Bitbox.bootloaderStatus dbb = None -> Bitbox.seeded dbb = true ->
          Bitbox.getStatus dbb = Bitbox.StatusSeeded)
    /\ (Bitbox.bootloaderStatus dbb = None -> Bitbox.seeded dbb = false ->
        Bitbox.password dbb <> "" ->
          Bitbox.getStatus dbb = Bitbox.StatusLoggedIn)
    /\ (Bitbox.bootloaderStatus dbb = None -> Bitbox.seeded dbb = false ->
        Bitbox.password dbb = "" -> Bitbox.initialized dbb = true ->
          Bitbox.getStatus dbb = Bitbox.StatusInitialized)
    /\ (Bitbox.bootloaderStatus dbb = None -> Bitbox.seeded dbb = false ->
        Bitbox.password dbb = "" -> Bitbox.initialized dbb = false ->
          Bitbox.getStatus dbb = Bitbox.StatusUninitialized).
Proof.
  intros C [boot init pw seed c]; unfold Bitbox.getStatus; simpl.
  repeat split.
  - destruct boot; [reflexivity | congruence].
  - intros -> ->. reflexivity.
  - intros -> -> Hpw. apply String.eqb_neq in Hpw. rewrite Hpw. reflexivity.
  - intros -> -> -> ->. reflexivity.
  - intros -> -> -> ->. reflexivity.
Qed.

(** C5, as the code has it: a successful [SetPassword] with a non-empty
    password on an Uninitialized session leaves [Status] at LoggedIn; the
    password is stored and the [initialized] flag stays false. *)
Theorem SetPassword_logs_in :
  forall (C : Type) (comm : Bitbox.CommunicationInterface C) (pw : string)
         (dbb dbb' : Bitbox.Device C),
    Bitbox.getStatus dbb = Bitbox.StatusUninitialized ->
    pw <> "" ->
    Bitbox.SetPassword comm pw dbb = (None, dbb') ->
    Bitbox.getStatus dbb' = Bitbox.StatusLoggedIn
    /\ Bitbox.password dbb' = pw
    /\ Bitbox.initialized dbb' = false.
Proof.
  intros C comm pw dbb dbb' Hst Hpw Hset.
  unfold Bitbox.SetPassword in Hset.
  destruct (sendPlain_frame comm "password" pw dbb) as [c [Hd _]].
  destruct (Bitbox.sendPlain comm "password" pw dbb) as [[reply err] d].
  simpl in Hd. subst d.
  destruct err as [err|]; [discriminate|].
  destruct (negb _); [discriminate|].
  injection Hset as <-.
  destruct dbb as [boot init pw0 seed c0].
  unfold Bitbox.getStatus in *; simpl in *.
  destruct boot; [discriminate|].
  destruct seed; [discriminate|].
  destruct (String.eqb pw0 ""); simpl in Hst; [|discriminate].
  destruct init; [discriminate|].
  apply String.eqb_neq in Hpw. rewrite Hpw. auto.
Qed.

Lemma SetPassword_logs_in_witness :
  let comm := Mock.recorder (Mock.scripted [([("password", VString "success")], None)]) in
  Bitbox.getStatus (snd (Bitbox.SetPassword comm "pw" (Mock.fresh [])))
  = Bitbox.StatusLoggedIn.
Proof.
  intro comm.
  refine (proj1 (SetPassword_logs_in _ comm "pw" (Mock.fresh []) _ _ _ _)).
  - reflexivity.
  - discriminate.
  - reflexivity.
Defined.

(** C5, as stated, fails: on a device that accepts the password, the
    session is Uninitialized before [SetPassword] and LoggedIn, not
    Initialized, after it. *)
Lemma SetPassword_not_Initialized :
  let comm := Mock.recorder (Mock.scripted [([("password", VString "success")], None)]) in
  let dbb := Mock.fresh [] in
  Bitbox.getStatus dbb = Bitbox.StatusUninitialized
  /\ fst (Bitbox.SetPassword comm "pw" dbb) = None
  /\ Bitbox.getStatus (snd (Bitbox.SetPassword comm "pw" dbb))
     <> Bitbox.StatusInitialized.
Proof.
  repeat split. vm_compute. discriminate.
Qed.

(** A device error keeps being recognised under the wrappers the
    communication layer adds. *)
Lemma IsErrorAbort_device (abort timeout : Z) (err : error) msg code :
  Cause err = Errp.Device msg code ->
  code = abort \/ code = timeout ->
  Bitbox.IsErrorAbort abort timeout (Some err) = true.
Proof.
  intros Hc Hcode. unfold Bitbox.IsErrorAbort. rewrite Hc.
  destruct Hcode as [-> | ->]; rewrite Z.eqb_refl;
    [reflexivity | apply orb_true_r].
Qed.

(** C7: when the reply to the reset command is a device error with the
    user-abort or the touch-timeout code, [Reset] returns [(false, nil)];
    when the device confirms the reset, [Reset] returns [(true, nil)] with the
    password cleared and the seeded and initialized flags false, so that the
    session of a device outside bootloader mode is Uninitialized. *)
Theorem Reset_outcomes :
  forall (ErrTouchAbort ErrTouchTimeout : Z)
         (C : Type) (comm : Bitbox.CommunicationInterface C)
         (dbb : Bitbox.Device C) (reply : Map) (err : option error) (c : C),
    Bitbox.SendEncrypt comm (VMap [("reset", VString "__ERASE__")])
      (Bitbox.password dbb) (Bitbox.communication dbb) = ((reply, err), c) ->
    let result := Bitbox.Reset ErrTouchAbort ErrTouchTimeout comm dbb in
    (forall e msg code,
        err = Some e -> Cause e = Errp.Device msg code ->
        code = ErrTouchAbort \/ code = ErrTouchTimeout ->
        fst result = (false, None))
    /\ (err = None -> isString (index reply "reset") "success" = true ->
        fst result = (true, None)
        /\ Bitbox.password (snd result) = ""
        /\ Bitbox.seeded (snd result) = false
        /\ Bitbox.initialized (snd result) = false
        /\ (Bitbox.bootloaderStatus dbb = None ->
            Bitbox.getStatus (snd result) = Bitbox.StatusUninitialized)).
Proof.
  intros abort timeout C comm dbb reply err c Hsend result.
  subst result. unfold Bitbox.Reset, Bitbox.sendKV, Bitbox.send.
  rewrite Hsend. split.
  - intros e msg code -> Hc Hcode.
    rewrite (IsErrorAbort_device abort timeout e msg code Hc Hcode).
    reflexivity.
  - intros -> Hok. simpl. rewrite Hok. simpl.
    repeat split.
    intros Hboot. unfold Bitbox.getStatus. simpl. rewrite Hboot. reflexivity.
Qed.

Lemma Reset_outcomes_witness :
  let aborted :=
    Mock.recorder (Mock.scripted
      [([], option_map (fun e => WithMessage e "Failed to send cipher text")
                       (Usb.maybeDBBErr (Mock.errorReply 600)))]) in
  let erased := Mock.recorder (Mock.scripted [([("reset", VString "success")], None)]) in
  let dbb : Bitbox.Device (list Mock.Call) :=
    {| Bitbox.bootloaderStatus := None; Bitbox.initialized := true;
       Bitbox.password := "pw"; Bitbox.seeded := true;
       Bitbox.communication := [] |} in
  fst (Bitbox.Reset 600 601 aborted dbb) = (false, None)
  /\ fst (Bitbox.Reset 600 601 erased dbb) = (true, None)
  /\ Bitbox.getStatus (snd (Bitbox.Reset 600 601 erased dbb))
     = Bitbox.StatusUninitialized.
Proof.
  intros aborted erased dbb. split.
  - refine (proj1 (Reset_outcomes 600 601 _ aborted dbb _ _ _ eq_refl)
                  _ "Aborted by user." 600 eq_refl eq_refl _).
    left. reflexivity.
  - pose proof (proj2 (Reset_outcomes 600 601 _ erased dbb _ _ _ eq_refl)
                      eq_refl eq_refl) as H.
    split.
    + exact (proj1 H).
    + exact (proj2 (proj2 (proj2 (proj2 H))) eq_refl).
Defined.

(** C9: [stretchKey] never panics: for every password it returns the hex
    text of the PBKDF2 derivation (salt "Digital Bitbox", 20480 iterations,
    64 bytes, SHA-512), a function of the password alone. *)
Theorem stretchKey_total :
  forall (Hash : Type) (sha512_New : Hash)
         (pbkdf2_Key : list Z -> list Z -> Z -> Z -> Hash -> list Z)
         (key : string),
    Bitbox.stretchKey Hash sha512_New pbkdf2_Key key
    = Returned (EncodeToString
        (pbkdf2_Key (bytesOfString key) (bytesOfString "Digital Bitbox")
                    20480 64 sha512_New)).
Proof.
  intros. unfold Bitbox.stretchKey. cbv zeta.
  rewrite String.eqb_refl. reflexivity.
Qed.

(** ** Key export *)

Section XPubFacts.

Import Bitbox.

Variable ExtendedKey : Type.
Variable NewKeyFromString : string -> ExtendedKey + error.
Variable KeyString : ExtendedKey -> string.
Variable respond : Mock.Respond.

Let comm := Mock.recorder respond.

(** One read sends one request and leaves the session fields alone. *)
Lemma getXPub_records path (dbb : Device (list Mock.Call)) :
  snd (getXPub ExtendedKey NewKeyFromString comm path dbb)
  = withCommunication dbb
      (communication dbb ++ [Mock.xpubCall path (password dbb)]).
Proof.
  unfold getXPub, sendKV, send, comm. simpl.
  destruct (respond _ _) as [reply [err|]]; simpl; [reflexivity|].
  destruct (asString _); reflexivity.
Qed.

End XPubFacts.

(** C3, as the code has it: a failed first read ends [XPub] with that error
    after one request; after a successful first read the same request is sent
    a second time, and [XPub] returns the second read's error, or the
    inconsistency error with no key when the two keys serialise differently,
    or the first key when they agree.  A key is returned only after two
    successful reads that agree. *)
Theorem XPub_double_read :
  forall (ExtendedKey : Type)
         (NewKeyFromString : string -> ExtendedKey + error)
         (KeyString : ExtendedKey -> string)
         (respond : Mock.Respond) (path : string)
         (dbb : Bitbox.Device (list Mock.Call)),
    let comm := Mock.recorder respond in
    let q := Mock.xpubCall path (Bitbox.password dbb) in
    let first := Bitbox.getXPub ExtendedKey NewKeyFromString comm path dbb in
    let second :=
      Bitbox.getXPub ExtendedKey NewKeyFromString comm path (snd first) in
    let result :=
      Bitbox.XPub ExtendedKey NewKeyFromString KeyString comm path dbb in
    let sent := Bitbox.communication (snd result) in
    (forall e, fst first = inr e ->
       fst result = (None, Some e)
       /\ sent = Bitbox.communication dbb ++ [q])
    /\ (forall k1, fst first = inl k1 ->
          sent = Bitbox.communication dbb ++ [q; q]
          /\ (forall e, fst second = inr e -> fst result = (None, Some e))
          /\ (forall k2, fst second = inl k2 ->
                KeyString k1 <> KeyString k2 ->
                fst result
                = (None, Some (Bitbox.errInconsistentXPubs)))
          /\ (forall k2, fst second = inl k2 ->
                KeyString k1 = KeyString k2 ->
                fst result = (Some k1, None)))
    /\ (forall k, fst (fst result) = Some k ->
          exists k2, fst first = inl k /\ fst second = inl k2
                     /\ KeyString k = KeyString k2
                     /\ sent = Bitbox.communication dbb ++ [q; q]).
Proof.
  intros K parse str respond path dbb comm q first second result sent.
  pose proof (getXPub_records K parse respond path dbb) as H1.
  pose proof (getXPub_records K parse respond path (snd first)) as H2.
  fold comm in H1, H2. fold first in H1. fold second in H2.
  assert (Hq : Bitbox.password (snd first) = Bitbox.password dbb)
    by (rewrite H1; reflexivity).
  rewrite Hq in H2. fold q in H1, H2.
  assert (Hc2 : Bitbox.communication (snd second)
                = Bitbox.communication dbb ++ [q; q]).
  { rewrite H2. simpl. rewrite H1. simpl. rewrite <- app_assoc. reflexivity. }
  subst sent result. unfold Bitbox.XPub. fold comm. fold first.
  destruct first as [r1 d1] eqn:E1. simpl in *. fold second.
  destruct second as [r2 d2] eqn:E2. simpl in *.
  split; [|split].
  - intros e ->. simpl. rewrite H1. split; reflexivity.
  - intros k1 ->. destruct r2 as [k2|e2].
    + destruct (String.eqb (str k1) (str k2)) eqn:Es; simpl;
        [apply String.eqb_eq in Es | apply String.eqb_neq in Es];
        (split; [assumption|]); (split; [discriminate|]);
        split; intros k2' [= <-] Hk; try reflexivity; contradiction.
    + simpl. split; [assumption|]. split; [|split; discriminate].
      intros e [= <-]. reflexivity.
  - destruct r1 as [k1|e1]; [|discriminate].
    destruct r2 as [k2|e2]; [|discriminate].
    destruct (String.eqb (str k1) (str k2)) eqn:Es; simpl; [|discriminate].
    apply String.eqb_eq in Es.
    intros k [= <-]. exists k2. auto.
Qed.

(** C3, as stated, fails: when the first read is answered by an error the
    device is queried once, not twice. *)
Lemma XPub_single_query_on_error :
  let comm := Mock.recorder (Mock.scripted [([], Some (New "read failed"))]) in
  let result := Bitbox.XPub string Mock.textKey (fun k => k) comm "m/44'/0'/0'"
                  (Mock.fresh []) in
  fst result = (None, Some (New "read failed"))
  /\ Bitbox.communication (snd result) = [Mock.xpubCall "m/44'/0'/0'" ""]
  /\ length (Bitbox.communication (snd result)) <> 2%nat.
Proof.
  repeat split. vm_compute. discriminate.
Qed.

(** ** Framing *)

(** Quotient and remainder facts about a division by 59, for [lia]. *)
Ltac div59 e :=
  let H1 := fresh "Hdiv" in
  let H2 := fresh "Hmod" in
  assert (H1 := Nat.div_mod_eq e 59);
  assert (H2 := Nat.mod_upper_bound e 59 ltac:(discriminate)).

Section FramingFacts.

Import Usb.

(** On the loopback a report is always written: header, payload, filler. *)
Lemma send_loopback (header readFrom : list byte) (device : Loopback) :
  send header readFrom device
  = (None, skipn (64 - length header) readFrom,
     device ++ [header ++ firstn (64 - length header) readFrom
                ++ repeat 0xee (64 - length (header ++ firstn (64 - length header) readFrom))]).
Proof.
  unfold send, Write, usbReportSize. cbn [option_map].
  rewrite <- app_assoc. reflexivity.
Qed.

(** A payload chunk of at most [cap] bytes, filled up to [cap], followed by
    the rest with its own filler, is the whole payload with the filler of
    the last chunk. *)
Lemma chunk_then_rest (cap : nat) (rb : list byte) (f : nat) :
  (length rb <= cap -> f = 0)%nat ->
  (firstn cap rb ++ repeat 0xee (cap - length (firstn cap rb)))
    ++ skipn cap rb ++ repeat 0xee f
  = rb ++ repeat 0xee (if (length rb <=? cap)%nat then cap - length rb else f).
Proof.
  intros Hf. destruct (length rb <=? cap)%nat eqn:Hle.
  - apply Nat.leb_le in Hle. rewrite (Hf Hle).
    rewrite firstn_all2, skipn_all2 by lia.
    simpl. rewrite !app_nil_r. reflexivity.
  - apply Nat.leb_gt in Hle.
    rewrite length_firstn, Nat.min_l by lia.
    rewrite Nat.sub_diag. simpl. rewrite app_nil_r, app_assoc.
    rewrite firstn_skipn. reflexivity.
Qed.

Lemma length_cont_report (hdr : list byte) (rb : list byte) :
  length hdr = 5%nat ->
  length (hdr ++ firstn 59 rb
          ++ repeat 0xee (64 - length (hdr ++ firstn 59 rb))) = 64%nat.
Proof.
  intros Hh. rewrite !length_app, repeat_length, Hh, length_firstn.
  lia.
Qed.

(** The continuation loop writes [ceil(len/59)] reports that carry the rest
    of the message and its filler, and [readFrame]'s loop reads exactly
    those reports back whenever the bytes it still expects are the bytes
    left to send. *)
Lemma sendCont_readCont (fuel : nat) :
  forall (seq : Z) (rb : list byte) (device : Loopback),
    (length rb < fuel)%nat ->
    let fill := (59 * ((length rb + 58) / 59) - length rb)%nat in
    exists conts,
      sendCont fuel seq rb device = (Returned None, device ++ conts)
      /\ length conts = ((length rb + 58) / 59)%nat
      /\ flat_map (skipn 5) conts = rb ++ repeat 0xee fill
      /\ forall idx dataLen data,
           Z.of_nat (length rb) = dataLen - idx \/ (rb = [] /\ dataLen <= idx) ->
           readCont conts idx dataLen data
           = ((data ++ rb ++ repeat 0xee fill, None), []).
Proof.
  induction fuel as [|fuel IH]; intros seq rb device Hfuel fill; [lia|].
  cbn [sendCont].
  destruct rb as [|b rb'].
  - assert (Hf : fill = 0%nat) by reflexivity.
    rewrite Hf. exists []. cbn [sendCont length Nat.ltb Nat.leb repeat flat_map].
    rewrite !app_nil_r. repeat split.
    intros idx dataLen data Hinv.
    assert (Hge : (idx <? dataLen) = false) by (apply Z.ltb_ge; cbn in Hinv; lia).
    cbn [readCont]. rewrite Hge, app_nil_r. reflexivity.
  - set (rb := b :: rb') in *.
    assert (Hlen : (0 < length rb)%nat) by (subst rb; cbn; lia).
    replace (0 <? length rb)%nat with true by (symmetry; apply Nat.ltb_lt; exact Hlen).
    rewrite send_loopback.
    set (hdr := writeUint32 (uint32 hwwCID) ++ writeUint8 (uint8 seq)).
    assert (Hhdr : length hdr = 5%nat) by reflexivity.
    rewrite Hhdr. change (64 - 5)%nat with 59%nat.
    set (report := hdr ++ firstn 59 rb
                   ++ repeat 0xee (64 - length (hdr ++ firstn 59 rb))).
    assert (Hrep : length report = 64%nat) by (apply length_cont_report; exact Hhdr).
    assert (Hskip : skipn 5 report
                    = firstn 59 rb ++ repeat 0xee (59 - length (firstn 59 rb))).
    { subst report. rewrite skipn_app, Hhdr. 
      rewrite (skipn_all2 hdr) by lia. rewrite Nat.sub_diag. cbn [skipn app].
      rewrite length_app, Hhdr. reflexivity. }
    assert (Hrest : (length (skipn 59 rb) < fuel)%nat)
      by (rewrite length_skipn; lia).
    destruct (IH (seq + 1) (skipn 59 rb) (device ++ [report]) Hrest)
      as [conts [Hsend [Hcount [Hpay Hread]]]].
    set (fill' := (59 * ((length (skipn 59 rb) + 58) / 59)
                   - length (skipn 59 rb))%nat) in *.
    assert (Hfill0 : (length rb <= 59 -> fill' = 0)%nat).
    { intros Hle. subst fill'. rewrite length_skipn.
      replace (length rb - 59)%nat with 0%nat by lia. reflexivity. }
    assert (Hfill : (if (length rb <=? 59)%nat then 59 - length rb else fill')%nat
                    = fill).
    { subst fill fill'. rewrite length_skipn.
      destruct (length rb <=? 59)%nat eqn:Hle.
      - apply Nat.leb_le in Hle. div59 (length rb + 58)%nat. lia.
      - apply Nat.leb_gt in Hle.
        replace (length rb + 58)%nat with ((length rb - 59 + 58) + 1 * 59)%nat by lia.
        rewrite Nat.div_add by discriminate.
        div59 (length rb - 59 + 58)%nat. lia. }
    assert (Hjoin : skipn 5 report ++ skipn 59 rb ++ repeat 0xee fill'
                    = rb ++ repeat 0xee fill).
    { rewrite Hskip, <- Hfill. apply chunk_then_rest. exact Hfill0. }
    exists (report :: conts). repeat split.
    + rewrite Hsend, <- app_assoc. reflexivity.
    + cbn [length]. rewrite Hcount, length_skipn.
      destruct (Nat.le_gt_cases (length rb) 59) as [Hle|Hgt].
      * replace (length rb - 59)%nat with 0%nat by lia.
        div59 (length rb + 58)%nat. change ((0 + 58) / 59)%nat with 0%nat. lia.
      * replace (length rb + 58)%nat with ((length rb - 59 + 58) + 1 * 59)%nat by lia.
        rewrite Nat.div_add by discriminate. lia.
    + cbn [flat_map]. rewrite Hpay. exact Hjoin.
    + intros idx dataLen data Hinv.
      assert (Hlt : (idx <? dataLen) = true).
      { apply Z.ltb_lt. destruct Hinv as [Hinv|[Hnil _]]; [lia|]. 
        subst rb. discriminate. }
      cbn [readCont]. rewrite Hlt.
      unfold usbReportSize.
      rewrite (firstn_all2 report) by lia. rewrite Hrep.
      change (64 <? 5)%nat with false. cbv iota.
      rewrite (Hread (idx + (Z.of_nat 64 - 5)) dataLen (data ++ skipn 5 report)).
      * rewrite <- app_assoc, Hjoin. reflexivity.
      * rewrite length_skipn.
        destruct (Nat.le_gt_cases (length rb) 59) as [Hle|Hgt].
        -- right. split; [apply skipn_all2; lia|].
           destruct Hinv as [Hinv|[Hnil _]]; [lia|subst rb; discriminate].
        -- left. destruct Hinv as [Hinv|[Hnil _]]; [lia|subst rb; discriminate].
Qed.

(** The two length bytes of the init header decode to the low 16 bits. *)
Lemma length_field_low16 (n : Z) :
  0 <= n ->
  let v := uint16 (Z.land n 0xFFFF) in
  uint8 (Z.shiftr v 8) * 256 + uint8 v = n mod 2 ^ 16.
Proof.
  intros Hn v. subst v. unfold uint16, uint8.
  change 0xFFFF with (Z.ones 16). rewrite Z.land_ones by lia.
  rewrite Z.mod_mod by lia. rewrite Z.shiftr_div_pow2 by lia.
  pose proof (Z.mod_pos_bound n (2 ^ 16) ltac:(lia)) as Hb.
  set (m := n mod 2 ^ 16) in *.
  rewrite (Z.mod_small (m / 2 ^ 8)).
  - pose proof (Z.div_mod m (2 ^ 8) ltac:(lia)). lia.
  - split; [apply Z.div_pos; lia | apply Z.div_lt_upper_bound; lia].
Qed.

(** What [sendFrame] leaves on the loopback for a non-empty message: the
    init report and the continuation reports, which [readFrame]'s loop
    consumes when it expects the whole message. *)
Lemma sendFrame_reports (msg : list byte) (device : Loopback) :
  msg <> [] ->
  let n := length msg in
  let first := initHeader n ++ firstn 57 msg
               ++ repeat 0xee (57 - length (firstn 57 msg)) in
  exists conts,
    sendFrame msg device = (Returned None, device ++ first :: conts)
    /\ length conts = contCount n
    /\ payload (first :: conts) = msg ++ repeat 0xee (fillCount n)
    /\ readCont conts 57 (Z.of_nat n) (skipn 7 first)
       = ((msg ++ repeat 0xee (fillCount n), None), []).
Proof.
  intros Hne n first.
  assert (Hn : (0 < n)%nat) by (subst n; destruct msg; [congruence | cbn; lia]).
  unfold sendFrame. fold n.
  replace (Z.of_nat n =? 0) with false by (symmetry; apply Z.eqb_neq; lia).
  fold (initHeader n). rewrite send_loopback.
  assert (Hh : length (initHeader n) = 7%nat) by reflexivity.
  rewrite Hh. change (64 - 7)%nat with 57%nat.
  rewrite length_app, Hh.
  replace (64 - (7 + length (firstn 57 msg)))%nat
    with (57 - length (firstn 57 msg))%nat by lia.
  fold first.
  assert (Hrest : (length (skipn 57 msg) < S (length (skipn 57 msg)))%nat) by lia.
  destruct (sendCont_readCont _ 0 (skipn 57 msg) (device ++ [first]) Hrest)
    as [conts [Hsend [Hcount [Hpay Hread]]]].
  set (fill' := (59 * ((length (skipn 57 msg) + 58) / 59)
                 - length (skipn 57 msg))%nat) in *.
  assert (Hskip : skipn 7 first
                  = firstn 57 msg ++ repeat 0xee (57 - length (firstn 57 msg)))
    by reflexivity.
  assert (Hfill0 : (length msg <= 57 -> fill' = 0)%nat).
  { intros Hle. subst fill'. rewrite length_skipn.
    replace (length msg - 57)%nat with 0%nat by lia. reflexivity. }
  assert (Hfill : (if (length msg <=? 57)%nat then 57 - length msg else fill')%nat
                  = fillCount n).
  { subst fill'. unfold fillCount, contCount. fold n. rewrite length_skipn. fold n.
    destruct (n <=? 57)%nat eqn:Hle.
    - apply Nat.leb_le in Hle.
      replace (n - 57)%nat with 0%nat by lia.
      change ((0 + 58) / 59)%nat with 0%nat. lia.
    - apply Nat.leb_gt in Hle. div59 (n - 57 + 58)%nat. lia. }
  assert (Hjoin : skipn 7 first ++ skipn 57 msg ++ repeat 0xee fill'
                  = msg ++ repeat 0xee (fillCount n)).
  { rewrite Hskip, <- Hfill. apply chunk_then_rest. exact Hfill0. }
  exists conts. repeat split.
  - rewrite Hsend, <- app_assoc. reflexivity.
  - rewrite Hcount, length_skipn. reflexivity.
  - unfold payload. rewrite Hpay. exact Hjoin.
  - rewrite Hread.
    + rewrite Hjoin. reflexivity.
    + rewrite length_skipn. fold n.
      destruct (Nat.le_gt_cases n 57) as [Hle|Hgt].
      * right. split; [apply skipn_all2; fold n; lia | lia].
      * left. lia.
Qed.

End FramingFacts.

Lemma initHeader_bytes (n : nat) :
  let v := Usb.uint16 (Z.land (Z.of_nat n) 0xFFFF) in
  Usb.initHeader n
  = [0xff; 0; 0; 0; Usb.hwwCMD; Usb.uint8 (Z.shiftr v 8); Usb.uint8 v].
Proof. reflexivity. Qed.

(** C1, as the code has it: for a message of 1 to 65535 bytes, [readFrame]
    after [sendFrame] on the loopback succeeds, drains the transport and
    returns the message followed by the [0xee] filler of its last report;
    it returns exactly the message when the message ends on a report
    boundary (length 57 + 59 k). *)
Theorem frame_roundtrip_filled :
  forall msg : list Usb.byte,
    1 <= Z.of_nat (length msg) <= 65535 ->
    exists device,
      Usb.sendFrame msg [] = (Returned None, device)
      /\ Usb.readFrame device
         = ((msg ++ repeat 0xee (Usb.fillCount (length msg)), None), [])
      /\ (Usb.fillCount (length msg) = 0%nat ->
          Usb.readFrame device = ((msg, None), [])).
Proof.
  intros msg [Hlo Hhi].
  assert (Hne : msg <> []) by (destruct msg; [cbn in Hlo; lia | congruence]).
  destruct (sendFrame_reports msg [] Hne) as [conts [Hsend [_ [_ Hread]]]].
  cbn zeta in Hsend, Hread.
  set (n := length msg) in *.
  set (first := Usb.initHeader n ++ firstn 57 msg
                ++ repeat 0xee (57 - length (firstn 57 msg))) in *.
  assert (Hlen : length first = 64%nat).
  { subst first. rewrite !length_app, repeat_length, length_firstn.
    change (length (Usb.initHeader n)) with 7%nat. lia. }
  assert (Hdecl : nth 5 first 0 * 256 + nth 6 first 0 = Z.of_nat n).
  { subst first. rewrite initHeader_bytes. cbn [app nth].
    rewrite length_field_low16 by lia. apply Z.mod_small. lia. }
  assert (Hround : Usb.readFrame (first :: conts)
                   = ((msg ++ repeat 0xee (Usb.fillCount n), None), [])).
  { unfold Usb.readFrame, Usb.Read, Usb.usbReportSize.
    rewrite (firstn_all2 first) by lia. rewrite Hlen, Hdecl.
    change (64 <? 7)%nat with false. cbv iota.
    replace (nth 0 first 0) with 0xff by (subst first; reflexivity).
    replace (nth 1 first 0) with 0 by (subst first; reflexivity).
    replace (nth 2 first 0) with 0 by (subst first; reflexivity).
    replace (nth 3 first 0) with 0 by (subst first; reflexivity).
    replace (nth 4 first 0) with Usb.hwwCMD by (subst first; reflexivity).
    exact Hread. }
  exists (first :: conts). split; [exact Hsend|]. split; [exact Hround|].
  intros Hfill. rewrite Hround, Hfill. cbn [repeat]. rewrite app_nil_r.
  reflexivity.
Qed.

Lemma frame_roundtrip_filled_witness :
  exists device,
    Usb.sendFrame [104; 105] [] = (Returned None, device)
    /\ Usb.readFrame device = (([104; 105] ++ repeat 0xee 55, None), []).
Proof.
  destruct (frame_roundtrip_filled [104; 105]) as [device [Hs [Hr _]]].
  - cbn. lia.
  - exists device. split; [exact Hs | exact Hr].
Defined.

(** C1, as stated, fails: nothing is written for the empty message, so the
    read ends in [io.EOF]; and a one-byte message comes back as 57 bytes. *)
Lemma frame_roundtrip_not_exact :
  fst (Usb.readFrame (snd (Usb.sendFrame [] []))) = ([], Some (WithStack EOF))
  /\ fst (Usb.readFrame (snd (Usb.sendFrame [97] [])))
     = (97 :: repeat 0xee 56, None)
  /\ fst (fst (Usb.readFrame (snd (Usb.sendFrame [97] [])))) <> [97].
Proof.
  split; [reflexivity|]. split; [reflexivity|]. vm_compute. discriminate.
Qed.

(** C10: for a non-empty message [sendFrame] succeeds and writes the whole
    payload; the init report carries [len mod 2^16] big-endian in bytes 5 and
    6, so for a message longer than 65535 bytes the declared length differs
    from the number of payload bytes sent. *)
Theorem sendFrame_length_field_wraps :
  forall (msg : list Usb.byte) (device : Usb.Loopback),
    (0 < length msg)%nat ->
    let len := Z.of_nat (length msg) in
    exists first conts,
      Usb.sendFrame msg device = (Returned None, device ++ first :: conts)
      /\ firstn 7 first
         = [0xff; 0; 0; 0; Usb.hwwCMD;
            (len mod 2 ^ 16) / 256; (len mod 2 ^ 16) mod 256]
      /\ Usb.declaredLen first = len mod 2 ^ 16
      /\ Usb.payload (first :: conts)
         = msg ++ repeat 0xee (Usb.fillCount (length msg))
      /\ (65535 < len -> Usb.declaredLen first <> len).
Proof.
  intros msg device Hpos len.
  assert (Hne : msg <> []) by (destruct msg; [cbn in Hpos; lia | congruence]).
  destruct (sendFrame_reports msg device Hne) as [conts [Hsend [_ [Hpay _]]]].
  cbn zeta in Hsend, Hpay.
  set (first := Usb.initHeader (length msg) ++ firstn 57 msg
                ++ repeat 0xee (57 - length (firstn 57 msg))) in *.
  assert (Hdecl : Usb.declaredLen first = len mod 2 ^ 16).
  { unfold Usb.declaredLen. subst first. rewrite initHeader_bytes.
    cbn [app nth]. apply length_field_low16. lia. }
  pose proof (Z.mod_pos_bound len (2 ^ 16) ltac:(lia)) as Hb.
  exists first, conts. repeat split; try assumption.
  - subst first. rewrite initHeader_bytes. cbn [app firstn].
    unfold Usb.uint16, Usb.uint8. fold len.
    change 0xFFFF with (Z.ones 16). rewrite Z.land_ones by lia.
    rewrite Z.mod_mod by lia. rewrite Z.shiftr_div_pow2 by lia.
    set (m := len mod 2 ^ 16) in *.
    rewrite (Z.mod_small (m / 2 ^ 8));
      [reflexivity
      | split; [apply Z.div_pos; lia | apply Z.div_lt_upper_bound; lia]].
  - intros Hbig. rewrite Hdecl. lia.
Qed.

Lemma sendFrame_length_field_wraps_witness :
  let msg := repeat 7 (Z.to_nat 65536) in
  exists first conts,
    Usb.sendFrame msg [] = (Returned None, first :: conts)
    /\ Usb.declaredLen first = 0
    /\ Usb.payload (first :: conts)
       = msg ++ repeat 0xee (Usb.fillCount (length msg)).
Proof.
  intro msg.
  destruct (sendFrame_length_field_wraps msg [])
    as [first [conts [Hs [_ [Hd [Hp _]]]]]].
  - subst msg. rewrite repeat_length. lia.
  - exists first, conts. split; [exact Hs|]. split; [|exact Hp].
    rewrite Hd. subst msg. rewrite repeat_length. reflexivity.
Defined.

(** ** Batched signing *)

Ltac div15 e :=
  let H1 := fresh "Hdiv" in
  let H2 := fresh "Hmod" in
  assert (H1 := Nat.div_mod_eq e 15);
  assert (H2 := Nat.mod_upper_bound e 15 ltac:(discriminate)).

Lemma combine_skipn {A B : Type} (n : nat) :
  forall (l : list A) (l' : list B),
    combine (skipn n l) (skipn n l') = skipn n (combine l l').
Proof.
  induction n as [|n IH]; intros l l'; [reflexivity|].
  destruct l as [|a l]; [reflexivity|].
  destruct l' as [|b l']; [cbn; apply combine_nil|].
  cbn. apply IH.
Qed.

Lemma combine_map_fst_snd {A B : Type} (l : list (A * B)) :
  combine (map fst l) (map snd l) = l.
Proof.
  induction l as [|[a b] l IH]; [reflexivity|]. cbn. rewrite IH. reflexivity.
Qed.

(** The slice the loop of [Sign] cuts at offset [i] is the next run of at
    most 15 elements. *)
Lemma slice_batch {A : Type} (l : list A) (i : nat) :
  (i < length l)%nat ->
  let upper := (i + Bitbox.signatureBatchSize)%nat in
  let upper := if (length l <? upper)%nat then length l else upper in
  slice l i upper = firstn 15 (skipn i l).
Proof.
  intros Hi. unfold Bitbox.signatureBatchSize, slice. cbv zeta.
  destruct (length l <? i + 15)%nat eqn:Hlt.
  - apply Nat.ltb_lt in Hlt.
    rewrite !firstn_all2 by (rewrite length_skipn; lia). reflexivity.
  - replace (i + 15 - i)%nat with 15%nat by lia. reflexivity.
Qed.

Section SignFacts.

Import Bitbox.

Variable signer : string -> string -> string.
Variable sigval : string -> string -> Signature.
Hypothesis signer_wellformed :
  forall h k, parseSig (VMap [("sig", VString (signer h k))]) = inl (sigval h k).

Let comm := Mock.recorder (Mock.honest signer).
Let sv (p : list Z * string) : Signature := sigval (EncodeToString (fst p)) (snd p).
Let entry (p : list Z * string) : Json.Value := signEntry (fst p) (snd p).

Lemma entrySig_signEntry (p : list Z * string) :
  Mock.entrySig signer (entry p)
  = VMap [("sig", VString (signer (EncodeToString (fst p)) (snd p)))].
Proof. reflexivity. Qed.

Lemma appendSigs_honest (batch : list (list Z * string)) :
  forall acc,
    appendSigs (map (Mock.entrySig signer) (map entry batch)) acc
    = inl (acc ++ map sv batch).
Proof.
  induction batch as [|p batch IH]; intros acc.
  - cbn. rewrite app_nil_r. reflexivity.
  - cbn [map appendSigs]. rewrite entrySig_signEntry, signer_wellformed.
    rewrite IH, <- app_assoc. reflexivity.
Qed.

Lemma even_two_more {A : Type} (l : list A) (a b : A) :
  Nat.even (length (l ++ [a; b])) = Nat.even (length l).
Proof.
  rewrite length_app. cbn [length]. rewrite Nat.add_comm. reflexivity.
Qed.

Lemma even_one_more {A : Type} (l : list A) (a : A) :
  Nat.even (length l) = true -> Nat.even (length (l ++ [a])) = false.
Proof.
  intros H. rewrite length_app. cbn [length]. rewrite Nat.add_comm.
  cbn [Nat.add]. rewrite Nat.even_succ, <- Nat.negb_even, H. reflexivity.
Qed.

(** One batch on the protocol-following device: the command goes out twice
    and the second reply carries one signature per pair. *)
Lemma signBatch_honest (hs : list (list Z)) (ks : list string)
  (dbb : Device (list Mock.Call)) :
  length hs = length ks ->
  (length hs <= 15)%nat ->
  Nat.even (length (communication dbb)) = true ->
  let call := Mock.signCall (password dbb) (combine hs ks) in
  signBatch comm hs ks dbb
  = (Returned ([("sign", VArray (map (Mock.entrySig signer)
                                     (map entry (combine hs ks))))], None),
     withCommunication dbb (communication dbb ++ [call; call])).
Proof.
  intros Hlen Hmax Heven call.
  assert (Hcmd : signCmd (map fst (combine hs ks)) (map snd (combine hs ks))
                 = signCmd hs ks).
  { unfold signCmd. rewrite combine_map_fst_snd. reflexivity. }
  unfold signBatch.
  replace (length hs =? length ks)%nat with true
    by (symmetry; apply Nat.eqb_eq; exact Hlen).
  replace (signatureBatchSize <? length hs)%nat with false
    by (symmetry; apply Nat.ltb_ge; exact Hmax).
  cbn [negb]. unfold send, comm, Mock.recorder. cbn [SendEncrypt].
  unfold Mock.honest at 1. rewrite Heven.
  cbn [communication withCommunication password].
  unfold Mock.honest at 1. rewrite (even_one_more _ _ Heven).
  cbn [Mock.message]. rewrite <- app_assoc. cbn [app].
  subst call. unfold Mock.signCall. rewrite Hcmd.
  reflexivity.
Qed.

Variable hashes : list (list Z).
Variable keyPaths : list string.
Hypothesis same_length : length hashes = length keyPaths.

Let pairs := combine hashes keyPaths.
Let n := length hashes.
Let nb := ((n + 14) / 15)%nat.
Let batch (j : nat) := slice pairs (15 * j) (15 * j + 15).
Let calls (pw : string) (b : list (list Z * string)) :=
  [Mock.signCall pw b; Mock.signCall pw b].

Lemma length_pairs : length pairs = n.
Proof.
  subst pairs n. rewrite length_combine, <- same_length. apply Nat.min_id.
Qed.

Lemma batch_run (j : nat) : batch j = firstn 15 (skipn (15 * j) pairs).
Proof.
  subst batch. unfold slice. cbv beta.
  replace (15 * j + 15 - 15 * j)%nat with 15%nat by lia. reflexivity.
Qed.

(** The loop of [Sign] from batch [j] on: it appends the signatures of the
    remaining pairs and sends each remaining batch twice. *)
Lemma signLoop_honest (fuel : nat) :
  forall (j : nat) (acc : list Signature) (dbb : Device (list Mock.Call)),
    (nb - j < fuel)%nat ->
    (j <= nb)%nat ->
    Nat.even (length (communication dbb)) = true ->
    signLoop comm fuel hashes keyPaths (15 * j) acc dbb
    = (Returned (acc ++ map sv (skipn (15 * j) pairs), None),
       withCommunication dbb
         (communication dbb
          ++ flat_map (calls (password dbb)) (map batch (seq j (nb - j))))).
Proof.
  induction fuel as [|fuel IH]; intros j acc dbb Hfuel Hj Heven; [lia|].
  cbn [signLoop]. fold n.
  div15 (n + 14)%nat. fold nb in Hdiv.
  destruct (15 * j <? n)%nat eqn:Hlt.
  - apply Nat.ltb_lt in Hlt.
    assert (Hjlt : (j < nb)%nat) by lia.
    pose proof (slice_batch hashes (15 * j) Hlt) as Hh.
    pose proof (slice_batch keyPaths (15 * j)) as Hk.
    rewrite <- same_length in Hk. specialize (Hk Hlt).
    cbv zeta in Hh, Hk. fold n in Hh, Hk. rewrite Hh, Hk.
    assert (Hb : combine (firstn 15 (skipn (15 * j) hashes))
                         (firstn 15 (skipn (15 * j) keyPaths)) = batch j).
    { rewrite <- combine_firstn, combine_skipn, batch_run. reflexivity. }
    rewrite signBatch_honest; rewrite ?Hb.
    + cbn [index String.eqb Ascii.eqb Bool.eqb asArray].
      rewrite appendSigs_honest.
      replace (15 * j + signatureBatchSize)%nat with (15 * Datatypes.S j)%nat
        by (unfold signatureBatchSize; lia).
      rewrite IH.
      * cbn [communication withCommunication password].
        assert (Hsigs : (acc ++ map sv (batch j))
                        ++ map sv (skipn (15 * Datatypes.S j) pairs)
                        = acc ++ map sv (skipn (15 * j) pairs)).
        { rewrite <- app_assoc, <- map_app, batch_run.
          replace (15 * Datatypes.S j)%nat with (15 + 15 * j)%nat by lia.
          rewrite <- skipn_skipn, firstn_skipn. reflexivity. }
        assert (Hseq : seq j (nb - j)
                       = j :: seq (Datatypes.S j) (nb - Datatypes.S j)).
        { replace (nb - j)%nat with (Datatypes.S (nb - Datatypes.S j)) by lia.
          reflexivity. }
        rewrite Hsigs, Hseq, <- app_assoc. reflexivity.
      * lia.
      * lia.
      * cbn [communication withCommunication]. rewrite even_two_more.
        exact Heven.
    + rewrite !length_firstn, !length_skipn. rewrite <- same_length.
      reflexivity.
    + rewrite length_firstn. lia.
    + exact Heven.
  - apply Nat.ltb_ge in Hlt.
    assert (Hjeq : j = nb) by lia.
    rewrite skipn_all2 by (rewrite length_pairs; exact Hlt).
    replace (nb - j)%nat with 0%nat by lia.
    cbn [seq map flat_map]. rewrite !app_nil_r.
    destruct dbb; reflexivity.
Qed.

(** The batches of the specification partition the pairs. *)
Lemma concat_batches (k : nat) :
  forall j, (j + k = nb)%nat ->
    concat (map batch (seq j k)) = skipn (15 * j) pairs.
Proof.
  div15 (n + 14)%nat. fold nb in Hdiv.
  induction k as [|k IH]; intros j Hjk.
  - cbn. symmetry. apply skipn_all2. rewrite length_pairs. lia.
  - cbn [seq map concat]. rewrite IH by lia. rewrite batch_run.
    replace (15 * Datatypes.S j)%nat with (15 + 15 * j)%nat by lia.
    rewrite <- skipn_skipn. apply firstn_skipn.
Qed.

Lemma batches_sizes :
  Forall (fun b => (1 <= length b <= 15)%nat) (map batch (seq 0 nb)).
Proof.
  div15 (n + 14)%nat. fold nb in Hdiv.
  apply Forall_forall. intros b Hb.
  apply in_map_iff in Hb. destruct Hb as [j [<- Hj]].
  apply in_seq in Hj. rewrite batch_run, length_firstn, length_skipn.
  rewrite length_pairs. lia.
Qed.

End SignFacts.

(** ** Signature texts *)

(** What the device writes with [hex.EncodeToString] is what [Sign] reads
    back with [SetString]: the two base-16 codecs are inverse on texts of
    whole bytes. *)
Lemma digitVal_hexChar (d : Z) : 0 <= d < 16 -> digitVal (hexChar d) = Some d.
Proof.
  intros H.
  assert (Hd : d = 0 \/ d = 1 \/ d = 2 \/ d = 3 \/ d = 4 \/ d = 5 \/ d = 6
               \/ d = 7 \/ d = 8 \/ d = 9 \/ d = 10 \/ d = 11 \/ d = 12
               \/ d = 13 \/ d = 14 \/ d = 15) by lia.
  repeat (destruct Hd as [-> | Hd]; [reflexivity|]). subst d. reflexivity.
Qed.

Lemma nibbles (b : Z) :
  0 <= b < 256 ->
  0 <= Z.shiftr b 4 < 16 /\ 0 <= Z.land b 0x0f < 16
  /\ Z.shiftr b 4 * 16 + Z.land b 0x0f = b.
Proof.
  intros H. rewrite Z.shiftr_div_pow2 by lia.
  change 0x0f with (Z.ones 4). rewrite Z.land_ones by lia.
  change (2 ^ 4) with 16.
  pose proof (Z.div_mod b 16 ltac:(lia)).
  pose proof (Z.mod_pos_bound b 16 ltac:(lia)).
  assert (0 <= b / 16 < 16)
    by (split; [apply Z.div_pos; lia | apply Z.div_lt_upper_bound; lia]).
  lia.
Qed.

Lemma EncodeToString_app (a b : list Z) :
  EncodeToString (a ++ b) = String.append (EncodeToString a) (EncodeToString b).
Proof.
  induction a as [|x a IH]; [reflexivity|]. cbn [app EncodeToString String.append].
  rewrite IH. reflexivity.
Qed.

Lemma length_EncodeToString (bs : list Z) :
  String.length (EncodeToString bs) = (2 * length bs)%nat.
Proof.
  induction bs as [|b bs IH]; [reflexivity|].
  cbn [EncodeToString String.length length]. rewrite IH. lia.
Qed.

Lemma scanDigits_EncodeToString (bs : list Z) :
  Forall (fun b => 0 <= b < 256) bs ->
  forall acc,
    scanDigits (EncodeToString bs) acc
    = Some (fold_left (fun a b => a * 256 + b) bs acc).
Proof.
  induction 1 as [|b bs Hb _ IH]; intros acc; [reflexivity|].
  destruct (nibbles b Hb) as [Hhi [Hlo Hsum]].
  cbn [EncodeToString scanDigits fold_left].
  rewrite (digitVal_hexChar _ Hhi), (digitVal_hexChar _ Hlo), IH.
  f_equal. f_equal. lia.
Qed.

Lemma bytesBE_bytes (n : nat) :
  forall v, Forall (fun b => 0 <= b < 256) (Mock.bytesBE n v).
Proof.
  induction n as [|n IH]; intros v; [constructor|].
  cbn [Mock.bytesBE]. apply Forall_app. split; [apply IH|].
  constructor; [apply Z.mod_pos_bound; lia | constructor].
Qed.

Lemma length_bytesBE (n : nat) : forall v, length (Mock.bytesBE n v) = n.
Proof.
  induction n as [|n IH]; intros v; [reflexivity|].
  cbn [Mock.bytesBE]. rewrite length_app, IH. cbn. lia.
Qed.

Lemma bytesBE_value (n : nat) :
  forall v, 0 <= v ->
    fold_left (fun a b => a * 256 + b) (Mock.bytesBE n v) 0 = v mod 256 ^ Z.of_nat n.
Proof.
  induction n as [|n IH]; intros v Hv.
  - cbn [Mock.bytesBE fold_left]. change (256 ^ Z.of_nat 0) with 1.
    rewrite Z.mod_1_r. reflexivity.
  - cbn [Mock.bytesBE]. rewrite fold_left_app. cbn [fold_left].
    rewrite IH by (apply Z.div_pos; lia).
    rewrite Nat2Z.inj_succ, Z.pow_succ_r by lia.
    rewrite Z.rem_mul_r by lia. lia.
Qed.

Lemma SetString16_digit (c : ascii) (s : string) (d : Z) :
  digitVal c = Some d ->
  SetString16 (String c s) = scanDigits (String c s) 0.
Proof.
  intros Hd. unfold SetString16.
  destruct c as [[] [] [] [] [] [] [] []]; try discriminate Hd;
    cbv beta iota; destruct (scanDigits _ 0); reflexivity.
Qed.

Lemma SetString16_EncodeToString (bs : list Z) :
  bs <> [] ->
  Forall (fun b => 0 <= b < 256) bs ->
  SetString16 (EncodeToString bs)
  = Some (fold_left (fun a b => a * 256 + b) bs 0).
Proof.
  intros Hne Hall. rewrite <- scanDigits_EncodeToString by exact Hall.
  destruct bs as [|b bs]; [congruence|].
  cbn [EncodeToString]. apply SetString16_digit with (d := Z.shiftr b 4).
  apply digitVal_hexChar. apply nibbles. inversion Hall; assumption.
Qed.

Lemma substring_whole (s : string) : substring 0 (String.length s) s = s.
Proof. induction s as [|c s IH]; [reflexivity|]. cbn. rewrite IH. reflexivity. Qed.

Lemma substring_prefix (a b : string) :
  substring 0 (String.length a) (String.append a b) = a.
Proof.
  induction a as [|c a IH]; cbn.
  - destruct b; reflexivity.
  - rewrite IH. reflexivity.
Qed.

Lemma substring_suffix (a b : string) :
  substring (String.length a) (String.length b) (String.append a b) = b.
Proof.
  induction a as [|c a IH]; cbn; [apply substring_whole | exact IH].
Qed.

Lemma length_append (a b : string) :
  String.length (String.append a b) = (String.length a + String.length b)%nat.
Proof. induction a as [|c a IH]; cbn; [reflexivity | rewrite IH; reflexivity]. Qed.

(** A signature sent as 128 base-16 digits is read as the two numbers the
    digits spell. *)
Lemma parseSig_sigText (r s : Z) :
  0 <= r < 2 ^ 256 -> 0 <= s < 2 ^ 256 ->
  Bitbox.parseSig (VMap [("sig", VString (Mock.sigText r s))])
  = inl {| Bitbox.R := r; Bitbox.S := s |}.
Proof.
  intros Hr Hs. unfold Bitbox.parseSig, Mock.sigText.
  cbn [asMap index asString String.eqb Ascii.eqb Bool.eqb].
  set (a := EncodeToString (Mock.bytesBE 32 r)).
  set (b := EncodeToString (Mock.bytesBE 32 s)).
  assert (Ha : String.length a = 64%nat)
    by (subst a; rewrite length_EncodeToString, length_bytesBE; reflexivity).
  assert (Hb : String.length b = 64%nat)
    by (subst b; rewrite length_EncodeToString, length_bytesBE; reflexivity).
  pose proof (substring_prefix a b) as Hprefix. rewrite Ha in Hprefix.
  pose proof (substring_suffix a b) as Hsuffix. rewrite Ha, Hb in Hsuffix.
  rewrite length_append, Ha, Hb.
  change (64 + 64 =? 128)%nat with true.
  change (64 + 64 - 64)%nat with 64%nat.
  cbn [negb]. rewrite Hprefix, Hsuffix. subst a b.
  assert (Hne : forall v, Mock.bytesBE 32 v <> []).
  { intros v E. apply (f_equal (@length Z)) in E.
    rewrite length_bytesBE in E. discriminate E. }
  rewrite !SetString16_EncodeToString by (apply Hne || apply bytesBE_bytes).
  rewrite !bytesBE_value by lia.
  change (256 ^ Z.of_nat 32) with (2 ^ 256).
  rewrite !Z.mod_small by assumption. reflexivity.
Qed.

(** C2: on a device that follows the signing protocol and answers each
    entry with the signature numbers R and S it computes for it, written
    as 64 base-16 digits each, [Sign] of a non-empty list of (hash, keyPath)
    pairs of equal lengths cuts the list into consecutive batches of at most
    15 pairs, [ceil(n/15)] of them (1, 2 and 2 for 15, 16 and 30 pairs),
    sends each batch's command twice, batch after batch, and returns for
    every pair, in the order of the pairs, the signature with exactly the
    numbers the device computed for it. *)
Theorem Sign_batches :
  forall (sigR sigS : string -> string -> Z)
         (hashes : list (list Z)) (keyPaths : list string)
         (dbb : Bitbox.Device (list Mock.Call)),
    (forall h k, 0 <= sigR h k < 2 ^ 256 /\ 0 <= sigS h k < 2 ^ 256) ->
    length hashes = length keyPaths ->
    hashes <> [] ->
    Bitbox.communication dbb = [] ->
    let pairs := combine hashes keyPaths in
    let batches := Mock.batchesOf pairs in
    let result :=
      Bitbox.Sign (Mock.recorder (Mock.honest (Mock.hexSigner sigR sigS)))
                  hashes keyPaths dbb in
    fst result
    = Returned (map (fun p =>
                       {| Bitbox.R := sigR (EncodeToString (fst p)) (snd p);
                          Bitbox.S := sigS (EncodeToString (fst p)) (snd p) |})
                    pairs,
                None)
    /\ Bitbox.communication (snd result)
       = flat_map (fun b => [Mock.signCall (Bitbox.password dbb) b;
                             Mock.signCall (Bitbox.password dbb) b]) batches
    /\ concat batches = pairs
    /\ Forall (fun b => (1 <= length b <= 15)%nat) batches
    /\ length batches = ((length pairs + 14) / 15)%nat
    /\ (length pairs = 15%nat -> length batches = 1%nat)
    /\ (length pairs = 16%nat -> length batches = 2%nat)
    /\ (length pairs = 30%nat -> length batches = 2%nat).
Proof.
  intros sigR sigS hashes keyPaths dbb Hrange Hlen Hne Hcomm
         pairs batches result.
  pose (sigval := fun h k => {| Bitbox.R := sigR h k; Bitbox.S := sigS h k |}).
  assert (Hwf : forall h k,
             Bitbox.parseSig
               (VMap [("sig", VString (Mock.hexSigner sigR sigS h k))])
             = inl (sigval h k)).
  { intros h k. apply parseSig_sigText; apply Hrange. }
  pose proof (length_pairs hashes keyPaths Hlen) as Hpairs. fold pairs in Hpairs.
  assert (Hcount : length batches = ((length pairs + 14) / 15)%nat).
  { subst batches. unfold Mock.batchesOf. rewrite length_map, length_seq.
    reflexivity. }
  assert (Hres : result
            = (Returned (map (fun p => sigval (EncodeToString (fst p)) (snd p))
                             pairs, None),
               Bitbox.withCommunication dbb
                 (flat_map (fun b => [Mock.signCall (Bitbox.password dbb) b;
                                      Mock.signCall (Bitbox.password dbb) b])
                           batches))).
  { subst result. unfold Bitbox.Sign.
    replace (length hashes =? length keyPaths)%nat with true
      by (symmetry; apply Nat.eqb_eq; exact Hlen).
    replace (length hashes =? 0)%nat with false
      by (symmetry; apply Nat.eqb_neq; destruct hashes; [congruence | discriminate]).
    cbn [negb].
    change 0%nat with (15 * 0)%nat at 1.
    rewrite (signLoop_honest (Mock.hexSigner sigR sigS) sigval Hwf
               hashes keyPaths Hlen).
    - rewrite Hcomm, Nat.sub_0_r. cbn [app skipn Nat.mul].
      subst batches. unfold Mock.batchesOf. rewrite Hpairs. reflexivity.
    - div15 (length hashes + 14)%nat. lia.
    - lia.
    - rewrite Hcomm. reflexivity. }
  rewrite Hres. cbn [fst snd Bitbox.communication Bitbox.withCommunication].
  split; [reflexivity|]. split; [reflexivity|].
  split.
  { subst batches. unfold Mock.batchesOf. rewrite Hpairs.
    rewrite (concat_batches hashes keyPaths Hlen _ 0) by reflexivity.
    reflexivity. }
  split.
  { subst batches. unfold Mock.batchesOf. rewrite Hpairs.
    apply (batches_sizes hashes keyPaths Hlen). }
  split; [exact Hcount|].
  repeat split; intros Hn; rewrite Hcount, Hn; reflexivity.
Qed.

Lemma Sign_batches_witness :
  let hashes := map (fun i => [Z.of_nat i]) (seq 1 16) in
  let keyPaths :=
    map (fun i => String (ascii_of_nat (97 + i)) EmptyString) (seq 0 16) in
  let signer := Mock.hexSigner (fun h _ => Mock.textValue h)
                               (fun _ k => Mock.textValue k) in
  let result := Bitbox.Sign (Mock.recorder (Mock.honest signer))
                  hashes keyPaths (Mock.fresh []) in
  length (Mock.batchesOf (combine hashes keyPaths)) = 2%nat
  /\ length (Bitbox.communication (snd result)) = 4%nat
  /\ exists sigs,
       fst result = Returned (sigs, None)
       /\ map Bitbox.R sigs
          = [0x3031; 0x3032; 0x3033; 0x3034; 0x3035; 0x3036; 0x3037; 0x3038;
             0x3039; 0x3061; 0x3062; 0x3063; 0x3064; 0x3065; 0x3066; 0x3130]
       /\ map Bitbox.S sigs
          = [97; 98; 99; 100; 101; 102; 103; 104;
             105; 106; 107; 108; 109; 110; 111; 112].
Proof.
  intros hashes keyPaths signer result.
  destruct (Sign_batches (fun h _ => Mock.textValue h)
              (fun _ k => Mock.textValue k) hashes keyPaths (Mock.fresh []))
    as [Hsigs [Hcalls [_ [_ [_ [_ [H16 _]]]]]]].
  - intros h k. unfold Mock.textValue.
    split; apply Z.mod_pos_bound; reflexivity.
  - reflexivity.
  - discriminate.
  - reflexivity.
  - fold signer in Hsigs, Hcalls. fold result in Hsigs, Hcalls.
    split; [apply H16; reflexivity|].
    split.
    + rewrite Hcalls. reflexivity.
    + eexists. split; [exact Hsigs|]. split; vm_compute; reflexivity.
Defined.

(** ** Failure modes of [Sign] *)

Section SignFailures.

Import Bitbox.

Context {C : Type} (comm : CommunicationInterface C).

(** A signature text of another length than 128 bytes is rejected. *)
Lemma parseSig_length (text : string) :
  String.length text <> 128%nat ->
  parseSig (VMap [("sig", VString text)])
  = inr (New "Unexpected reply: field 'sig' must be 128 byte long").
Proof.
  intros Hlen. unfold parseSig. cbn [asMap index asString String.eqb Ascii.eqb Bool.eqb].
  apply Nat.eqb_neq in Hlen. rewrite Hlen. reflexivity.
Qed.

(** The loop never returns an error together with signatures. *)
Lemma signLoop_no_partial (fuel : nat) :
  forall hashes keyPaths i acc (dbb : Device C) sigs err,
    fst (signLoop comm fuel hashes keyPaths i acc dbb) = Returned (sigs, Some err) ->
    sigs = [].
Proof.
  induction fuel as [|fuel IH]; intros hashes keyPaths i acc dbb sigs err H.
  - discriminate H.
  - cbn [signLoop] in H.
    destruct (i <? length hashes)%nat; [|discriminate H].
    destruct (signBatch comm _ _ dbb) as [[[reply [e|]]|msg|] dbb'];
      cbn [fst] in H; try discriminate H.
    + injection H as <- _. reflexivity.
    + destruct (asArray (index reply "sign")) as [items|];
        [|injection H as <- _; reflexivity].
      destruct (appendSigs items acc) as [acc'|e];
        [|injection H as <- _; reflexivity].
      exact (IH _ _ _ _ _ _ _ H).
Qed.

(** [signBatch] has no loop, and the loop of [Sign] always has budget left:
    [Sign] ends in a return or a panic. *)
Lemma signBatch_ends hs ks (dbb : Device C) :
  fst (signBatch comm hs ks dbb) <> OutOfFuel.
Proof.
  unfold signBatch.
  destruct (negb _); [discriminate|].
  destruct (_ <? _)%nat; [discriminate|].
  destruct (send comm _ _ dbb) as [[r1 [e1|]] d1]; [discriminate|].
  destruct (send comm _ _ d1) as [[r2 [e2|]] d2]; discriminate.
Qed.

Lemma signLoop_ends (fuel : nat) :
  forall hashes keyPaths i acc (dbb : Device C),
    (length hashes - i < fuel)%nat ->
    fst (signLoop comm fuel hashes keyPaths i acc dbb) <> OutOfFuel.
Proof.
  induction fuel as [|fuel IH]; intros hashes keyPaths i acc dbb Hfuel; [lia|].
  cbn [signLoop].
  destruct (i <? length hashes)%nat eqn:Hlt; [|discriminate].
  apply Nat.ltb_lt in Hlt.
  pose proof (signBatch_ends
                (slice hashes i
                   (if (length hashes <? i + signatureBatchSize)%nat
                    then length hashes else (i + signatureBatchSize)%nat))
                (slice keyPaths i
                   (if (length hashes <? i + signatureBatchSize)%nat
                    then length hashes else (i + signatureBatchSize)%nat))
                dbb) as Hb.
  destruct (signBatch comm _ _ dbb) as [[[reply [e|]]|msg|] dbb'];
    cbn [fst] in *; try discriminate; [|congruence].
  destruct (asArray (index reply "sign")) as [items|]; [|discriminate].
  destruct (appendSigs items acc) as [acc'|e]; [|discriminate].
  apply IH. unfold signatureBatchSize. lia.
Qed.

Lemma Sign_ends hashes keyPaths (dbb : Device C) :
  fst (Sign comm hashes keyPaths dbb) <> OutOfFuel.
Proof.
  unfold Sign.
  destruct (negb _); [discriminate|].
  destruct (_ =? _)%nat; [discriminate|].
  apply signLoop_ends. lia.
Qed.

(** The parts of the failure contract of [Sign] that hold for every device:
    a length mismatch and an empty list end in a panic, and an error never
    comes with signatures. *)
Lemma Sign_failure_modes (hashes : list (list Z)) (keyPaths : list string)
  (dbb : Device C) :
  (length hashes <> length keyPaths ->
     exists msg, fst (Sign comm hashes keyPaths dbb) = Panicked msg)
  /\ (hashes = [] ->
        exists msg, fst (Sign comm hashes keyPaths dbb) = Panicked msg)
  /\ (forall sigs err,
        fst (Sign comm hashes keyPaths dbb) = Returned (sigs, Some err) ->
        sigs = []).
Proof.
  unfold Sign. repeat split.
  - intros Hne. apply Nat.eqb_neq in Hne. rewrite Hne. eexists. reflexivity.
  - intros ->. destruct (length (@nil (list Z)) =? length keyPaths)%nat;
      eexists; reflexivity.
  - intros sigs err.
    destruct (negb _); [discriminate|].
    destruct (length hashes =? 0)%nat; [discriminate|].
    apply signLoop_no_partial.
Qed.

End SignFailures.

(** C8 at its failing input: the device answers the signing command with a
    128-byte signature text whose first byte is a minus sign; [Sign] does not
    fail but returns a signature with a negative R. *)
Theorem Sign_accepts_signed_text :
  let reply : Map := [("sign", VArray [VMap [("sig", VString Mock.signedSigText)]])] in
  let comm := Mock.recorder
                (Mock.scripted [([("echo", VString "")], None); (reply, None)]) in
  String.length Mock.signedSigText = 128%nat
  /\ allHex Mock.signedSigText = false
  /\ fst (Bitbox.Sign comm [[0xab; 0xcd]] ["m/44'/0'/0'/0/0"] (Mock.fresh []))
     = Returned
         ([{| Bitbox.R := - 0x111111111111111111111111111111111111111111111111111111111111111;
              Bitbox.S := 0x2222222222222222222222222222222222222222222222222222222222222222 |}],
          None).
Proof.
  repeat split.
Qed.

(** ** Transaction validity check *)

Section SignerFacts.

Import Btc.

Variable Address : Type.
Variable SigHashData : Address -> bool * list Z.
Variable InputData : Address -> Bitbox.Signature -> list Z * list (list Z).
Variable KeyPath : Address -> string.
Variable TxSigHashes : Type.
Variable NewTxSigHashes : MsgTx -> TxSigHashes.
Variable CalcWitnessSigHash :
  list Z -> TxSigHashes -> Z -> MsgTx -> Z -> Z -> list Z + error.
Variable CalcSignatureHash : list Z -> Z -> MsgTx -> Z -> list Z + error.
Variable IsSorted : MsgTx -> bool.
Variable ScriptFlags : Type.
Variable StandardVerifyFlags : ScriptFlags.
Variable Engine : Type.
Variable NewEngine :
  list Z -> MsgTx -> Z -> ScriptFlags -> TxSigHashes -> Z -> Engine + error.
Variable Execute : Engine -> option error.
Variable K : Type.
Variable keyStoreSign :
  list (list Z) -> list string -> K
  -> Outcome (list Bitbox.Signature * option error) * K.

Let verifies :=
  inputVerifies Address TxSigHashes ScriptFlags StandardVerifyFlags Engine
                NewEngine Execute.
Let check :=
  txValidityCheck Address TxSigHashes IsSorted ScriptFlags StandardVerifyFlags
                  Engine NewEngine Execute.

Lemma verifyInputs_spec transaction previousOutputs sigHashes (txIns : list TxIn) :
  forall start,
    verifyInputs Address TxSigHashes ScriptFlags StandardVerifyFlags Engine
                 NewEngine Execute transaction previousOutputs sigHashes
                 txIns start = None
    <-> forall i txIn, nth_error txIns i = Some txIn ->
          verifies transaction previousOutputs sigHashes
                   (start + Z.of_nat i) txIn.
Proof.
  induction txIns as [|txIn txIns IH]; intros start; cbn [verifyInputs].
  - split; [|reflexivity]. intros _ [|i] t H; discriminate H.
  - destruct (previousOutputs (PreviousOutPoint txIn)) as [spent|] eqn:Hprev.
    + destruct (NewEngine _ _ _ _ _ _) as [engine|err] eqn:Hnew.
      * destruct (Execute engine) as [err|] eqn:Hexec.
        -- split; [discriminate|]. intros H.
           destruct (H 0%nat txIn eq_refl) as [s [e [Hs [He Hx]]]].
           rewrite Z.add_0_r in He. congruence.
        -- rewrite IH. split.
           ++ intros H [|i] t Hn.
              ** injection Hn as <-. exists spent, engine.
                 rewrite Z.add_0_r. auto.
              ** replace (start + Z.of_nat (S i)) with (start + 1 + Z.of_nat i)
                   by lia.
                 apply H. exact Hn.
           ++ intros H i t Hn.
              replace (start + 1 + Z.of_nat i) with (start + Z.of_nat (S i))
                by lia.
              apply H. exact Hn.
      * split; [discriminate|]. intros H.
        destruct (H 0%nat txIn eq_refl) as [s [e [Hs [He Hx]]]].
        rewrite Z.add_0_r in He. congruence.
    + split; [discriminate|]. intros H.
      destruct (H 0%nat txIn eq_refl) as [s [e [Hs _]]]. congruence.
Qed.

(** Filling in scripts and witnesses keeps every input at its place. *)
Lemma fillInputs_keeps_order previousOutputs (txIns : list TxIn) :
  forall signatures txIns',
    fillInputs Address InputData previousOutputs txIns signatures
    = Returned txIns' ->
    map PreviousOutPoint txIns' = map PreviousOutPoint txIns
    /\ map Sequence txIns' = map Sequence txIns.
Proof.
  induction txIns as [|input txIns IH]; intros signatures txIns' H;
    cbn [fillInputs] in H.
  - injection H as <-. split; reflexivity.
  - destruct (previousOutputs (PreviousOutPoint input)) as [spent|];
      [|discriminate H].
    destruct signatures as [|signature signatures]; [discriminate H|].
    destruct (InputData _ signature) as [script witness].
    destruct (fillInputs _ _ _ txIns signatures) as [rest| |] eqn:Hrest;
      try discriminate H.
    injection H as <-. destruct (IH _ _ Hrest) as [Ho Hs].
    cbn [map PreviousOutPoint Sequence]. rewrite Ho, Hs. split; reflexivity.
Qed.

(** C4: the final check of [SignTransaction] succeeds exactly when the
    assembled transaction is BIP69-sorted and every input passes the script
    engine against the locking script and value of the output it spends;
    signing leaves inputs and outputs in the caller's order; and the call
    returns success only if the assembled transaction passes both checks. *)
Theorem SignTransaction_validity_gate :
  forall (keyStore : K) (transaction : MsgTx)
         (previousOutputs : PreviousOutputs Address),
    let sigHashes := NewTxSigHashes transaction in
    let result :=
      SignTransaction Address SigHashData InputData KeyPath TxSigHashes
        NewTxSigHashes CalcWitnessSigHash CalcSignatureHash IsSorted
        ScriptFlags StandardVerifyFlags Engine NewEngine Execute K
        keyStoreSign keyStore transaction previousOutputs in
    let outcome := fst (fst result) in
    let signed := snd (fst result) in
    (forall tx,
        check tx previousOutputs sigHashes = None
        <-> IsSorted tx = true
            /\ forall i txIn, nth_error (TxIns tx) i = Some txIn ->
                  verifies tx previousOutputs sigHashes (Z.of_nat i) txIn)
    /\ map PreviousOutPoint (TxIns signed)
       = map PreviousOutPoint (TxIns transaction)
    /\ TxOuts signed = TxOuts transaction
    /\ (outcome = Returned None ->
        IsSorted signed = true
        /\ forall i txIn, nth_error (TxIns signed) i = Some txIn ->
              verifies signed previousOutputs sigHashes (Z.of_nat i) txIn).
Proof.
  intros keyStore transaction previousOutputs sigHashes result outcome signed.
  assert (Hcheck : forall tx,
             check tx previousOutputs sigHashes = None
             <-> IsSorted tx = true
                 /\ forall i txIn, nth_error (TxIns tx) i = Some txIn ->
                       verifies tx previousOutputs sigHashes (Z.of_nat i) txIn).
  { intros tx. unfold check, txValidityCheck.
    destruct (IsSorted tx); cbn [negb].
    - rewrite verifyInputs_spec. cbn [Z.add]. intuition.
    - split; [discriminate | intros [H _]; discriminate H]. }
  split; [exact Hcheck|].
  subst outcome signed result. unfold SignTransaction. fold sigHashes.
  destruct (hashInputs _ _ _ _ _ _ _ _ _ _ _ _ _) as [[[hs ks]|err]|msg|];
    cbn [fst snd]; try (repeat split; discriminate).
  destruct (keyStoreSign hs ks keyStore) as [[[sigs [err|]]|msg|] keyStore'];
    cbn [fst snd]; try (repeat split; discriminate).
  destruct (negb _); cbn [fst snd]; try (repeat split; discriminate).
  destruct (fillInputs _ _ _ _ sigs) as [txIns| |] eqn:Hfill;
    cbn [fst snd]; try (repeat split; discriminate).
  destruct (fillInputs_keeps_order _ _ _ _ Hfill) as [Hout _].
  fold check.
  destruct (check (withTxIns transaction txIns) previousOutputs sigHashes)
    as [err|] eqn:Hvalid; cbn [fst snd TxIns TxOuts withTxIns].
  - split; [exact Hout|]. split; [reflexivity|]. discriminate.
  - split; [exact Hout|]. split; [reflexivity|].
    intros _. apply Hcheck. exact Hvalid.
Qed.

End SignerFacts.

(** * Further properties of the framer *)

Section FramerFacts.

Import Usb.

(** A malformed first report ends [readFrame] with an error and no data,
    after that one report. *)
Theorem readFrame_rejects_malformed :
  forall (first : list byte) (rest : Loopback),
    let read := firstn usbReportSize first in
    (length read < 7)%nat
    \/ nth 0 read 0 <> 0xff \/ nth 1 read 0 <> 0 \/ nth 2 read 0 <> 0
    \/ nth 3 read 0 <> 0 \/ nth 4 read 0 <> hwwCMD ->
    exists err, readFrame (first :: rest) = (([], Some err), rest).
Proof.
  intros first rest read Hbad. unfold readFrame, Read. fold read.
  destruct (length read <? 7)%nat eqn:Hlen; [eexists; reflexivity|].
  apply Nat.ltb_ge in Hlen.
  destruct Hbad as [H|[H|[H|[H|[H|H]]]]]; try lia;
    apply Z.eqb_neq in H; rewrite H; cbn [negb orb];
    rewrite ?orb_true_r; cbn [orb]; try (eexists; reflexivity).
  destruct (negb _ || _ || _ || _); eexists; reflexivity.
Qed.

Lemma readFrame_rejects_malformed_witness :
  exists err,
    readFrame ([0xff; 0; 0; 0; 0x81; 0; 1; 97] :: [[1; 2; 3]])
    = (([], Some err), [[1; 2; 3]]).
Proof.
  apply (readFrame_rejects_malformed [0xff; 0; 0; 0; 0x81; 0; 1; 97] [[1; 2; 3]]).
  right. right. right. right. right. vm_compute. discriminate.
Defined.

(** The loop of [readFrame] runs out of reports when they cannot carry the
    bytes still expected. *)
Lemma readCont_starved (conts : Loopback) :
  forall idx dataLen data,
    Forall (fun p => (5 <= length p)%nat) conts ->
    idx + 59 * Z.of_nat (length conts) < dataLen ->
    readCont conts idx dataLen data = (([], Some (WithStack EOF)), []).
Proof.
  induction conts as [|p conts IH]; intros idx dataLen data Hall Hlt;
    cbn [readCont].
  - replace (idx <? dataLen) with true
      by (symmetry; apply Z.ltb_lt; cbn in Hlt; lia).
    reflexivity.
  - replace (idx <? dataLen) with true
      by (symmetry; apply Z.ltb_lt; cbn [length] in Hlt; lia).
    inversion Hall as [|? ? Hp Hrest]; subst.
    assert (Hread : (5 <= length (firstn usbReportSize p) <= 64)%nat).
    { rewrite length_firstn. unfold usbReportSize. lia. }
    replace (length (firstn usbReportSize p) <? 5)%nat with false
      by (symmetry; apply Nat.ltb_ge; lia).
    apply IH; [exact Hrest|]. cbn [length] in Hlt. lia.
Qed.

(** A frame whose continuation reports are missing is an error, never a
    shortened message: with a well-formed init report declaring more bytes
    than the reports at hand can carry, [readFrame] ends in [io.EOF]. *)
Theorem readFrame_truncated :
  forall (first : list byte) (conts : Loopback),
    (7 <= length first)%nat ->
    firstn 5 first = [0xff; 0; 0; 0; hwwCMD] ->
    Forall (fun p => (5 <= length p)%nat) conts ->
    57 + 59 * Z.of_nat (length conts) < declaredLen (firstn usbReportSize first) ->
    readFrame (first :: conts) = (([], Some (WithStack EOF)), []).
Proof.
  intros first conts Hlen Hhdr Hall Hdecl.
  unfold readFrame, Read.
  set (read := firstn usbReportSize first) in *.
  assert (Hread : (7 <= length read)%nat).
  { subst read. rewrite length_firstn. unfold usbReportSize. lia. }
  assert (Hpre : firstn 5 read = [0xff; 0; 0; 0; hwwCMD]).
  { subst read. unfold usbReportSize. rewrite firstn_firstn. exact Hhdr. }
  replace (length read <? 7)%nat with false by (symmetry; apply Nat.ltb_ge; lia).
  destruct read as [|b0 [|b1 [|b2 [|b3 [|b4 tl]]]]]; try discriminate Hpre.
  injection Hpre as -> -> -> -> ->. cbn [nth].
  rewrite !Z.eqb_refl. cbn [negb orb].
  apply readCont_starved; [exact Hall|]. exact Hdecl.
Qed.

Lemma readFrame_truncated_witness :
  readFrame [[0xff; 0; 0; 0; 0xc1; 0; 100] ++ repeat 7 57]
  = (([], Some (WithStack EOF)), []).
Proof.
  apply readFrame_truncated.
  - cbn. lia.
  - reflexivity.
  - constructor.
  - vm_compute. reflexivity.
Defined.

End FramerFacts.

Section FrameShape.

Import Usb.

(** The continuation reports: each exactly one report long, each opened by
    the channel identifier and its sequence number modulo 256. *)
Lemma sendCont_shape (fuel : nat) :
  forall (seq : Z) (rb : list byte) (device : Loopback),
    (length rb < fuel)%nat ->
    exists conts,
      sendCont fuel seq rb device = (Returned None, device ++ conts)
      /\ length conts = ((length rb + 58) / 59)%nat
      /\ Forall (fun p => length p = 64%nat) conts
      /\ forall k p, nth_error conts k = Some p ->
           firstn 5 p = [0xff; 0; 0; 0; (seq + Z.of_nat k) mod 2 ^ 8].
Proof.
  induction fuel as [|fuel IH]; intros seq rb device Hfuel; [lia|].
  cbn [sendCont].
  destruct rb as [|b rb'].
  - exists []. cbn [length Nat.ltb Nat.leb]. rewrite app_nil_r.
    repeat split; [constructor|]. intros [|k] p H; discriminate H.
  - set (rb := b :: rb') in *.
    assert (Hlen : (0 < length rb)%nat) by (subst rb; cbn; lia).
    replace (0 <? length rb)%nat with true by (symmetry; apply Nat.ltb_lt; exact Hlen).
    rewrite send_loopback.
    set (hdr := writeUint32 (uint32 hwwCID) ++ writeUint8 (uint8 seq)).
    assert (Hhdr : length hdr = 5%nat) by reflexivity.
    rewrite Hhdr. change (64 - 5)%nat with 59%nat.
    set (report := hdr ++ firstn 59 rb
                   ++ repeat 0xee (64 - length (hdr ++ firstn 59 rb))).
    assert (Hrep : length report = 64%nat) by (apply length_cont_report; exact Hhdr).
    assert (Hrest : (length (skipn 59 rb) < fuel)%nat)
      by (rewrite length_skipn; lia).
    destruct (IH (seq + 1) (skipn 59 rb) (device ++ [report]) Hrest)
      as [conts [Hsend [Hcount [Hall Hseq]]]].
    exists (report :: conts). repeat split.
    + rewrite Hsend, <- app_assoc. reflexivity.
    + cbn [length]. rewrite Hcount, length_skipn.
      destruct (Nat.le_gt_cases (length rb) 59) as [Hle|Hgt].
      * replace (length rb - 59)%nat with 0%nat by lia.
        div59 (length rb + 58)%nat. change ((0 + 58) / 59)%nat with 0%nat. lia.
      * replace (length rb + 58)%nat with ((length rb - 59 + 58) + 1 * 59)%nat by lia.
        rewrite Nat.div_add by discriminate. lia.
    + constructor; assumption.
    + intros [|k] p Hk; cbn [nth_error] in Hk.
      * injection Hk as <-. cbn [Z.of_nat]. rewrite Z.add_0_r.
        change (firstn 5 report) with [0xff; 0; 0; 0; uint8 (uint8 seq)].
        unfold uint8. rewrite Z.mod_mod by lia. reflexivity.
      * rewrite (Hseq k p Hk).
        replace (seq + 1 + Z.of_nat k) with (seq + Z.of_nat (S k)) by lia.
        reflexivity.
Qed.

(** What [sendFrame] does to a non-empty message, step by step. *)
Lemma sendFrame_unfold (msg : list byte) (device : Loopback) :
  msg <> [] ->
  let first := initHeader (length msg) ++ firstn 57 msg
               ++ repeat 0xee (57 - length (firstn 57 msg)) in
  sendFrame msg device
  = sendCont (S (length (skipn 57 msg))) 0 (skipn 57 msg) (device ++ [first]).
Proof.
  intros Hne first. unfold sendFrame.
  replace (Z.of_nat (length msg) =? 0) with false
    by (symmetry; apply Z.eqb_neq; destruct msg; [congruence | cbn; lia]).
  fold (initHeader (length msg)). rewrite send_loopback.
  change (length (initHeader (length msg))) with 7%nat.
  change (64 - 7)%nat with 57%nat.
  rewrite length_app.
  change (length (initHeader (length msg))) with 7%nat.
  replace (64 - (7 + length (firstn 57 msg)))%nat
    with (57 - length (firstn 57 msg))%nat by lia.
  reflexivity.
Qed.

(** Every report [sendFrame] writes is exactly 64 bytes; a message of [n]
    bytes takes one init report and [contCount n] continuation reports, the
    k-th of which opens with the channel identifier and the sequence byte
    [k mod 256]. *)
Theorem sendFrame_report_shape :
  forall (msg : list byte) (device : Loopback),
    msg <> [] ->
    exists reports,
      sendFrame msg device = (Returned None, device ++ reports)
      /\ length reports = S (contCount (length msg))
      /\ Forall (fun p => length p = 64%nat) reports
      /\ forall k p, nth_error reports (S k) = Some p ->
           firstn 5 p = [0xff; 0; 0; 0; Z.of_nat k mod 256].
Proof.
  intros msg device Hne.
  rewrite (sendFrame_unfold msg device Hne).
  set (first := initHeader (length msg) ++ firstn 57 msg
                ++ repeat 0xee (57 - length (firstn 57 msg))).
  destruct (sendCont_shape (S (length (skipn 57 msg))) 0 (skipn 57 msg)
              (device ++ [first]) ltac:(lia))
    as [conts [Hsend [Hcount [Hall Hseq]]]].
  exists (first :: conts). repeat split.
  - rewrite Hsend, <- app_assoc. reflexivity.
  - cbn [length]. rewrite Hcount, length_skipn. reflexivity.
  - constructor; [|exact Hall].
    subst first. rewrite !length_app, repeat_length, length_firstn.
    change (length (initHeader (length msg))) with 7%nat. lia.
  - intros k p Hk. cbn [nth_error] in Hk. rewrite (Hseq k p Hk).
    reflexivity.
Qed.

Lemma sendFrame_report_shape_witness :
  exists reports,
    sendFrame (repeat 1 200) [] = (Returned None, reports)
    /\ length reports = 4%nat
    /\ Forall (fun p => length p = 64%nat) reports.
Proof.
  destruct (sendFrame_report_shape (repeat 1 200) []) as [reports [Hs [Hn [Hall _]]]].
  - discriminate.
  - exists reports. split; [exact Hs|]. split; [|exact Hall].
    rewrite Hn. reflexivity.
Defined.

End FrameShape.

Section FrameSequence.

Import Usb.

(** Reports already queued do not influence what is written. *)
Lemma sendCont_appends (fuel : nat) :
  forall seq rb (device : Loopback),
    sendCont fuel seq rb device
    = (fst (sendCont fuel seq rb []), device ++ snd (sendCont fuel seq rb [])).
Proof.
  induction fuel as [|fuel IH]; intros seq rb device; cbn [sendCont].
  - cbn. rewrite app_nil_r. reflexivity.
  - destruct (0 <? length rb)%nat; [|cbn; rewrite app_nil_r; reflexivity].
    rewrite !send_loopback.
    rewrite (IH _ _ (device ++ _)), (IH _ _ ([] ++ _)).
    cbn [fst snd app]. rewrite <- app_assoc. reflexivity.
Qed.

Lemma sendFrame_appends (msg : list byte) (device : Loopback) :
  sendFrame msg device
  = (fst (sendFrame msg []), device ++ snd (sendFrame msg [])).
Proof.
  destruct msg as [|b msg].
  - cbn. rewrite app_nil_r. reflexivity.
  - rewrite !sendFrame_unfold by discriminate. cbv zeta.
    rewrite (sendCont_appends _ _ _ (device ++ _)),
            (sendCont_appends _ _ _ ([] ++ _)).
    cbn [fst snd app]. rewrite <- app_assoc. reflexivity.
Qed.

(** A read that succeeds on the reports of one frame succeeds the same way
    when more reports follow, and leaves those alone. *)
Lemma readCont_app (conts rest : Loopback) :
  forall idx dataLen data d,
    readCont conts idx dataLen data = ((d, None), []) ->
    readCont (conts ++ rest) idx dataLen data = ((d, None), rest).
Proof.
  induction conts as [|p conts IH]; intros idx dataLen data d H.
  - cbn [readCont app] in *.
    destruct (idx <? dataLen) eqn:Hlt; [discriminate H|].
    injection H as <-. destruct rest; cbn [readCont]; rewrite Hlt; reflexivity.
  - cbn [readCont app] in *.
    destruct (idx <? dataLen).
    + destruct (_ <? 5)%nat; [discriminate H|]. apply IH. exact H.
    + discriminate H.
Qed.

Lemma readFrame_app (reports rest : Loopback) (d : list byte) :
  readFrame reports = ((d, None), []) ->
  readFrame (reports ++ rest) = ((d, None), rest).
Proof.
  destruct reports as [|first conts]; [discriminate|].
  unfold readFrame, Read. cbn [app].
  destruct (_ <? 7)%nat; [discriminate|].
  destruct (negb _ || _ || _ || _); [discriminate|].
  destruct (negb _); [discriminate|].
  apply readCont_app.
Qed.

(** Reading back what [sendFrame] wrote for a message of 1 to 65535 bytes. *)
Lemma readFrame_sendFrame (msg : list byte) :
  1 <= Z.of_nat (length msg) <= 65535 ->
  fst (sendFrame msg []) = Returned None
  /\ readFrame (snd (sendFrame msg []))
     = ((msg ++ repeat 0xee (fillCount (length msg)), None), []).
Proof.
  intros [Hlo Hhi].
  assert (Hne : msg <> []) by (destruct msg; [cbn in Hlo; lia | congruence]).
  destruct (sendFrame_reports msg [] Hne) as [conts [Hsend [_ [_ Hread]]]].
  cbn zeta in Hsend, Hread. rewrite Hsend. cbn [fst snd app].
  split; [reflexivity|].
  set (n := length msg) in *.
  set (first := initHeader n ++ firstn 57 msg
                ++ repeat 0xee (57 - length (firstn 57 msg))) in *.
  assert (Hlen : length first = 64%nat).
  { subst first. rewrite !length_app, repeat_length, length_firstn.
    change (length (initHeader n)) with 7%nat. lia. }
  assert (Hdecl : nth 5 first 0 * 256 + nth 6 first 0 = Z.of_nat n).
  { subst first. rewrite initHeader_bytes. cbn [app nth].
    rewrite length_field_low16 by lia. apply Z.mod_small. lia. }
  unfold readFrame, Read, usbReportSize.
  rewrite (firstn_all2 first) by lia. rewrite Hlen, Hdecl.
  change (64 <? 7)%nat with false. cbv iota.
  replace (nth 0 first 0) with 0xff by (subst first; reflexivity).
  replace (nth 1 first 0) with 0 by (subst first; reflexivity).
  replace (nth 2 first 0) with 0 by (subst first; reflexivity).
  replace (nth 3 first 0) with 0 by (subst first; reflexivity).
  replace (nth 4 first 0) with hwwCMD by (subst first; reflexivity).
  exact Hread.
Qed.

(** Frames are self-delimiting: two messages of 1 to 65535 bytes sent one
    after the other are read back one after the other, each with the filler
    of its own last report, and the transport is drained. *)
Theorem frames_read_in_order :
  forall m1 m2 : list byte,
    1 <= Z.of_nat (length m1) <= 65535 ->
    1 <= Z.of_nat (length m2) <= 65535 ->
    let device := snd (sendFrame m2 (snd (sendFrame m1 []))) in
    let r1 := readFrame device in
    let r2 := readFrame (snd r1) in
    fst r1 = (m1 ++ repeat 0xee (fillCount (length m1)), None)
    /\ fst r2 = (m2 ++ repeat 0xee (fillCount (length m2)), None)
    /\ snd r2 = [].
Proof.
  intros m1 m2 H1 H2 device r1 r2.
  destruct (readFrame_sendFrame m1 H1) as [_ Hr1].
  destruct (readFrame_sendFrame m2 H2) as [_ Hr2].
  assert (Hd : device = snd (sendFrame m1 []) ++ snd (sendFrame m2 [])).
  { subst device. rewrite (sendFrame_appends m2). reflexivity. }
  assert (Hfirst : r1 = ((m1 ++ repeat 0xee (fillCount (length m1)), None),
                         snd (sendFrame m2 []))).
  { subst r1. rewrite Hd. apply readFrame_app. exact Hr1. }
  subst r2. rewrite Hfirst. cbn [fst snd]. rewrite Hr2.
  repeat split.
Qed.

Lemma frames_read_in_order_witness :
  let device := snd (sendFrame [2; 3] (snd (sendFrame [1] []))) in
  fst (readFrame device) = (1 :: repeat 0xee 56, None)
  /\ fst (readFrame (snd (readFrame device))) = ([2; 3] ++ repeat 0xee 55, None).
Proof.
  intro device.
  destruct (frames_read_in_order [1] [2; 3]) as [Ha [Hb _]].
  - cbn. lia.
  - cbn. lia.
  - split; [exact Ha | exact Hb].
Defined.

End FrameSequence.

(** * The bootloader channel *)

Section BootloaderFacts.

Import Usb.

Lemma Forall_take {A : Type} (P : A -> Prop) (n : nat) :
  forall l, Forall P l -> Forall P (firstn n l).
Proof.
  induction n as [|n IH]; intros l H; [constructor|].
  destruct H as [|a l Ha Hl]; [constructor|].
  cbn [firstn]. constructor; [exact Ha | exact (IH l Hl)].
Qed.

Lemma TrimRight_all_cut (t c : list byte) :
  Forall (fun b => inCutset c b = true) t -> TrimRight t c = [].
Proof.
  induction 1 as [|b t Hb _ IH]; [reflexivity|].
  cbn [TrimRight]. rewrite IH, Hb. reflexivity.
Qed.

Lemma TrimRight_app_cut (s t c : list byte) :
  Forall (fun b => inCutset c b = true) t ->
  TrimRight (s ++ t) c = TrimRight s c.
Proof.
  intros Ht. induction s as [|b s IH]; cbn [app TrimRight].
  - apply TrimRight_all_cut. exact Ht.
  - rewrite IH. reflexivity.
Qed.

(** What [TrimRight] returns is empty or ends outside the cutset. *)
Lemma TrimRight_clean (s c : list byte) :
  forall body x, TrimRight s c = body ++ [x] -> inCutset c x = false.
Proof.
  induction s as [|b s IH]; intros body x H; cbn [TrimRight] in H.
  - destruct body; discriminate H.
  - destruct (TrimRight s c) as [|y t] eqn:Ht.
    + destruct (inCutset c b) eqn:Hb; [destruct body; discriminate H|].
      destruct body as [|z body]; [injection H as <-; exact Hb|].
      destruct body; discriminate H.
    + destruct body as [|z body]; [discriminate H|].
      injection H as _ H. exact (IH body x H).
Qed.

(** The read loop gives up with [io.EOF] when the reports at hand hold
    fewer than 256 bytes. *)
Lemma readBootloader_starved (incoming : list (list byte)) :
  forall read,
    (length read + length (concat incoming) < maxReadLen)%nat ->
    readBootloader incoming read = (([], Some (WithStack EOF)), []).
Proof.
  induction incoming as [|p rest IH]; intros read Hlt; cbn [readBootloader].
  - replace (length read <? maxReadLen)%nat with true
      by (symmetry; apply Nat.ltb_lt; cbn in Hlt; lia).
    reflexivity.
  - cbn [concat] in Hlt. rewrite length_app in Hlt.
    replace (length read <? maxReadLen)%nat with true
      by (symmetry; apply Nat.ltb_lt; lia).
    apply IH. rewrite length_app, length_firstn. lia.
Qed.

(** A message of at most 4098 bytes goes out as one buffer of 4099 bytes, a
    zero byte, the message, zero filler, whatever the device answers; a
    longer message is a panic and nothing is written or read. *)
Theorem SendBootloader_request :
  forall (msg : list byte) (device : Port),
    writeFails device = None ->
    let result := SendBootloader msg device in
    ((length msg <= maxSendLen)%nat ->
       exists buf,
         outgoing (snd result) = outgoing device ++ [buf]
         /\ buf = 0 :: msg ++ repeat 0 (maxSendLen - length msg)
         /\ length buf = 4099%nat)
    /\ ((maxSendLen < length msg)%nat ->
          result = (Panicked "message too long", device)).
Proof.
  intros msg device Hw result. subst result. unfold SendBootloader.
  split; intros Hlen.
  - replace (maxSendLen <? length msg)%nat with false
      by (symmetry; apply Nat.ltb_ge; exact Hlen).
    unfold portWrite. rewrite Hw. cbn [incoming outgoing writeFails].
    destruct (readBootloader (incoming device) []) as [[read [err|]] rest];
      cbn [snd outgoing];
      (eexists; split; [reflexivity|]; split; [reflexivity|]);
      cbn [length app]; rewrite length_app, repeat_length;
      unfold maxSendLen in *; lia.
  - replace (maxSendLen <? length msg)%nat with true
      by (symmetry; apply Nat.ltb_lt; exact Hlen).
    reflexivity.
Qed.

Lemma SendBootloader_request_witness :
  let device := {| incoming := []; outgoing := []; writeFails := None |} in
  exists buf,
    outgoing (snd (SendBootloader [118] device)) = [buf]
    /\ length buf = 4099%nat.
Proof.
  intro device.
  destruct (proj1 (SendBootloader_request [118] device eq_refl)) as [buf [Ho [_ Hl]]].
  - cbn. unfold maxSendLen. lia.
  - exists buf. split; [exact Ho | exact Hl].
Defined.

(** The response is read back without its padding: when the device answers
    with one report holding a response of at most 256 bytes that is already
    trimmed, followed by NUL, tab, CR or LF bytes up to at least 256 bytes,
    [SendBootloader] returns exactly that response and leaves the later
    reports unread. *)
Theorem SendBootloader_reply :
  forall (msg reply pad : list byte) (rest written : list (list byte)),
    (length msg <= maxSendLen)%nat ->
    (length reply <= maxReadLen)%nat ->
    TrimRight reply [0; 9; 13; 10] = reply ->
    Forall (fun b => inCutset [0; 9; 13; 10] b = true) pad ->
    (maxReadLen <= length (reply ++ pad))%nat ->
    let device := {| incoming := (reply ++ pad) :: rest;
                     outgoing := written; writeFails := None |} in
    fst (SendBootloader msg device) = Returned (reply, None)
    /\ incoming (snd (SendBootloader msg device)) = rest.
Proof.
  intros msg reply pad rest written Hlen Hshort Htrim Hpad Hfull device.
  assert (Hread : readBootloader ((reply ++ pad) :: rest) []
                  = ((reply ++ firstn (maxReadLen - length reply) pad, None),
                     rest)).
  { cbn [readBootloader].
    change (length (@nil byte) <? maxReadLen)%nat with true. cbv iota.
    cbn [app]. rewrite firstn_app, (firstn_all2 reply) by exact Hshort.
    set (read := reply ++ firstn (maxReadLen - length reply) pad).
    assert (Hfull' : (maxReadLen <= length read)%nat).
    { subst read. rewrite length_app in *. rewrite length_firstn. lia. }
    destruct rest; cbn [readBootloader];
      (replace (length read <? maxReadLen)%nat with false
         by (symmetry; apply Nat.ltb_ge; exact Hfull'));
      reflexivity. }
  unfold SendBootloader.
  replace (maxSendLen <? length msg)%nat with false
    by (symmetry; apply Nat.ltb_ge; exact Hlen).
  unfold portWrite. cbn [device incoming outgoing writeFails].
  rewrite Hread. cbn [fst snd incoming].
  rewrite TrimRight_app_cut, Htrim by (apply Forall_take; exact Hpad).
  split; reflexivity.
Qed.

Lemma SendBootloader_reply_witness :
  let device := {| incoming := [[50; 46; 49] ++ repeat 0 253; [9]];
                   outgoing := []; writeFails := None |} in
  fst (SendBootloader [118] device) = Returned ([50; 46; 49], None)
  /\ incoming (snd (SendBootloader [118] device)) = [[9]].
Proof.
  apply (SendBootloader_reply [118] [50; 46; 49] (repeat 0 253) [[9]] []).
  - cbn. unfold maxSendLen. lia.
  - cbn. unfold maxReadLen. lia.
  - reflexivity.
  - apply Forall_forall. intros b Hb. apply repeat_spec in Hb. subst b.
    reflexivity.
  - rewrite length_app, repeat_length. cbn. unfold maxReadLen. lia.
Defined.

(** A successful response never ends in NUL, tab, CR or LF. *)
Theorem SendBootloader_trimmed :
  forall (msg : list byte) (device : Port) (r body : list byte) (x : byte),
    fst (SendBootloader msg device) = Returned (r, None) ->
    r = body ++ [x] ->
    inCutset [0; 9; 13; 10] x = false.
Proof.
  intros msg device r body x Hres Hr. unfold SendBootloader in Hres.
  destruct (maxSendLen <? length msg)%nat; [discriminate Hres|].
  destruct (portWrite _ device) as [[e|] d]; [discriminate Hres|].
  destruct (readBootloader (incoming d) []) as [[read [err|]] rest];
    [discriminate Hres|].
  cbn [fst] in Hres. injection Hres as Hres.
  apply (TrimRight_clean read [0; 9; 13; 10] body x). congruence.
Qed.

Lemma SendBootloader_trimmed_witness :
  inCutset [0; 9; 13; 10] 49 = false.
Proof.
  apply (SendBootloader_trimmed [118]
           {| incoming := [[50; 46; 49; 13; 10] ++ repeat 0 251];
              outgoing := []; writeFails := None |}
           [50; 46; 49] [50; 46] 49).
  - vm_compute. reflexivity.
  - reflexivity.
Defined.

(** A device that hands out fewer than 256 bytes in all makes the call fail
    with [io.EOF]; no shortened response is returned. *)
Theorem SendBootloader_short_response :
  forall (msg : list byte) (device : Port),
    (length msg <= maxSendLen)%nat ->
    writeFails device = None ->
    (length (concat (incoming device)) < maxReadLen)%nat ->
    fst (SendBootloader msg device) = Returned ([], Some (WithStack EOF)).
Proof.
  intros msg device Hlen Hw Hfew. unfold SendBootloader.
  replace (maxSendLen <? length msg)%nat with false
    by (symmetry; apply Nat.ltb_ge; exact Hlen).
  unfold portWrite. rewrite Hw. cbn [incoming outgoing writeFails].
  rewrite readBootloader_starved by (cbn [length]; lia).
  reflexivity.
Qed.

Lemma SendBootloader_short_response_witness :
  fst (SendBootloader [118]
         {| incoming := [[50; 46; 49]; [0; 0]]; outgoing := [];
            writeFails := None |})
  = Returned ([], Some (WithStack EOF)).
Proof.
  apply SendBootloader_short_response.
  - cbn. unfold maxSendLen. lia.
  - reflexivity.
  - cbn. unfold maxReadLen. lia.
Defined.

End BootloaderFacts.

(** * Censoring of logged commands *)

Section CensorFacts.

Import Usb.

(** Induction on a value that reaches into the fields of its maps. *)
Lemma Value_map_ind (P : Json.Value -> Prop) :
  (forall v, asMap v = None -> P v) ->
  (forall fields, Forall (fun kv => P (snd kv)) fields -> P (VMap fields)) ->
  forall v, P v.
Proof.
  intros Hleaf Hmap.
  fix IH 1. intros [ | b | n | s | items | fields ];
    try (apply Hleaf; reflexivity).
  apply Hmap. induction fields as [|[k v] fields IHf]; constructor.
  - apply IH.
  - exact IHf.
Qed.

Lemma hideValue_facts (v : Json.Value) :
  skeleton (hideValue v) = skeleton v
  /\ Forall (eq (VString "****")) (leaves (hideValue v))
  /\ hideValue (hideValue v) = hideValue v.
Proof.
  induction v as [v Hleaf | fields IH] using Value_map_ind.
  - destruct v; try discriminate Hleaf; repeat split; repeat constructor.
  - cbn [hideValue skeleton leaves].
    induction IH as [|[k v] fields [Hs [Hl Hi]] _ IHf];
      [repeat split; constructor|].
    destruct IHf as [Hs' [Hl' Hi']].
    cbn [map flat_map snd] in *.
    injection Hs' as Hs'. injection Hi' as Hi'.
    rewrite Hs, Hs', Hi, Hi'. repeat split.
    apply Forall_app. split; assumption.
Qed.

(** Censoring keeps the keys of every level in place, replaces every value
    outside the nested maps by the mask, and censoring again changes
    nothing. *)
Theorem hideValues_masks :
  forall cmd : Map,
    map fst (hideValues cmd) = map fst cmd
    /\ skeleton (VMap (hideValues cmd)) = skeleton (VMap cmd)
    /\ Forall (eq (VString "****")) (leaves (VMap (hideValues cmd)))
    /\ hideValues (hideValues cmd) = hideValues cmd.
Proof.
  intros cmd.
  destruct (hideValue_facts (VMap cmd)) as [Hs [Hl Hi]].
  cbn [hideValue] in Hs, Hl, Hi. fold (hideValues cmd) in Hs, Hl, Hi.
  cbn [hideValue] in Hi. fold (hideValues (hideValues cmd)) in Hi.
  injection Hi as Hi.
  repeat split; try assumption.
  unfold hideValues. rewrite map_map. apply map_ext. intros [k v]. reflexivity.
Qed.

End CensorFacts.

(** * Device information and login *)

Section InfoFacts.

Import Bitbox.

(** Decoding depends on the eleven lookups only: a [device] object that
    answers them as the fields of [info] decodes to [info], whatever else it
    holds and in whatever order. *)
Theorem parseDeviceInfo_roundtrip :
  forall (info : DeviceInfo) (device : Map),
    (forall key, In key (map fst (deviceInfoFields info)) ->
       index device key = index (deviceInfoFields info) key) ->
    parseDeviceInfo device = inl info.
Proof.
  intros info device Hsame.
  unfold parseDeviceInfo, field.
  rewrite !Hsame by (cbn; tauto).
  destruct info. reflexivity.
Qed.

Lemma parseDeviceInfo_roundtrip_witness :
  let info := {| Version := "v3.0.5"; Serial := "s"; ID := "i"; TFA := "";
                 Bootlock := true; Name := "box"; SDCard := false;
                 Lock := false; U2F := true; U2FHijack := true;
                 Seeded := true |} in
  parseDeviceInfo (("extra", VNil) :: rev (deviceInfoFields info)) = inl info.
Proof.
  intro info. apply parseDeviceInfo_roundtrip.
  intros key Hin. cbn in Hin.
  repeat (destruct Hin as [<-|Hin]; [reflexivity|]). contradiction.
Defined.

(** A [device] object that lacks one of the eleven fields is rejected. *)
Theorem parseDeviceInfo_missing_field :
  forall (device : Map) (key : string),
    In key ["serial"; "id"; "TFA"; "bootlock"; "name"; "sdcard"; "lock";
            "U2F"; "U2F_hijack"; "version"; "seeded"] ->
    index device key = VNil ->
    exists err, parseDeviceInfo device = inr err.
Proof.
  intros device key Hin Hnil.
  unfold parseDeviceInfo, field.
  repeat match goal with
         | |- context [match ?a (index device ?k) with _ => _ end] =>
             destruct (a (index device k)) eqn:?; [|eexists; reflexivity]
         end.
  cbn in Hin.
  repeat (destruct Hin as [<-|Hin];
          [rewrite Hnil in *; discriminate|]).
  contradiction.
Qed.

Lemma parseDeviceInfo_missing_field_witness :
  exists err,
    parseDeviceInfo [("serial", VString "s"); ("id", VString "i")] = inr err.
Proof.
  apply (parseDeviceInfo_missing_field _ "seeded").
  - cbn. tauto.
  - reflexivity.
Defined.

End InfoFacts.

Section LoginFacts.

Import Bitbox.

Variable ErrorText : string -> Z -> string.

Context {C : Type} (comm : CommunicationInterface C).

(** [deviceInfo] touches nothing but the communication. *)
Lemma deviceInfo_frame pw (dbb : Device C) :
  snd (deviceInfo comm pw dbb)
  = withCommunication dbb
      (snd (SendEncrypt comm (VMap [("device", VString "info")]) pw
              (communication dbb))).
Proof.
  unfold deviceInfo, sendKV, send.
  destruct (SendEncrypt comm _ pw (communication dbb)) as [[reply [err|]] c];
    cbn [snd]; [reflexivity|].
  destruct (asMap _); reflexivity.
Qed.

Lemma LockBootloader_frame (dbb : Device C) :
  snd (LockBootloader comm dbb)
  = withCommunication dbb
      (snd (SendEncrypt comm (VMap [("bootloader", VString "lock")])
              (password dbb) (communication dbb))).
Proof.
  unfold LockBootloader, sendKV, send.
  destruct (SendEncrypt comm _ _ (communication dbb)) as [[reply [err|]] c];
    cbn [snd]; [reflexivity|].
  destruct (negb _); reflexivity.
Qed.

(** Once the device has answered the information query with a well-formed
    [device] object, the session holds the password and the device's seeded
    flag, whether or not the bootloader has to be locked again and whether
    or not that succeeds; with a locked bootloader [Login] reports success.
    Outside bootloader mode and with a non-empty password the session is
    then Seeded or LoggedIn, by the device's flag. *)
Theorem Login_adopts_password :
  forall (pw : string) (dbb : Device C) (reply device : Map) (c : C)
         (info : DeviceInfo),
    SendEncrypt comm (VMap [("device", VString "info")]) pw (communication dbb)
    = ((reply, None), c) ->
    asMap (index reply "device") = Some device ->
    parseDeviceInfo device = inl info ->
    let result := Login ErrorText comm pw dbb in
    password (snd result) = pw
    /\ seeded (snd result) = Seeded info
    /\ initialized (snd result) = initialized dbb
    /\ (Bootlock info = true ->
        fst result = (false, EmptyString, None)
        /\ communication (snd result) = c)
    /\ (bootloaderStatus dbb = None -> pw <> EmptyString ->
        getStatus (snd result)
        = if Seeded info then StatusSeeded else StatusLoggedIn).
Proof.
  intros pw dbb reply device c info Hsend Hdev Hparse result.
  assert (Hinfo : deviceInfo comm pw dbb = (inl info, withCommunication dbb c)).
  { unfold deviceInfo, sendKV, send. rewrite Hsend, Hdev, Hparse. reflexivity. }
  subst result. unfold Login. rewrite Hinfo.
  set (d := withSeeded (withPassword (withCommunication dbb c) pw) (Seeded info)).
  assert (Hfields : forall d' : Device C,
             d' = d \/ d' = snd (LockBootloader comm d) ->
             password d' = pw /\ seeded d' = Seeded info
             /\ initialized d' = initialized dbb
             /\ bootloaderStatus d' = bootloaderStatus dbb).
  { intros d' [-> | ->]; [|rewrite LockBootloader_frame]; repeat split. }
  assert (Hst : forall d' : Device C,
             password d' = pw -> seeded d' = Seeded info ->
             bootloaderStatus d' = bootloaderStatus dbb ->
             bootloaderStatus dbb = None -> pw <> EmptyString ->
             getStatus d' = if Seeded info then StatusSeeded else StatusLoggedIn).
  { intros d' Hp Hs Hb Hnone Hne. unfold getStatus.
    rewrite Hb, Hnone, Hs, Hp. destruct (Seeded info); [reflexivity|].
    apply String.eqb_neq in Hne. rewrite Hne. reflexivity. }
  destruct (Bootlock info); cbn [negb].
  - destruct (Hfields d (or_introl eq_refl)) as [Hp [Hs [Hi Hb]]].
    cbn [snd fst]. repeat split; try assumption.
    intros Hnone Hne. apply Hst; assumption.
  - destruct (Hfields _ (or_intror eq_refl)) as [Hp [Hs [Hi Hb]]].
    destruct (LockBootloader comm d) as [[err|] d'] eqn:Hlock;
      cbn [snd fst] in *; repeat split; try assumption; try discriminate;
      intros Hnone Hne; apply Hst; assumption.
Qed.

(** A failed information query leaves the session as it was, apart from
    the communication, and [Login] returns the query's error untouched. *)
Theorem Login_failure_keeps_session :
  forall (pw : string) (dbb d : Device C) (err : error),
    deviceInfo comm pw dbb = (inr err, d) ->
    let result := Login ErrorText comm pw dbb in
    snd (fst result) = Some err
    /\ password (snd result) = password dbb
    /\ seeded (snd result) = seeded dbb
    /\ initialized (snd result) = initialized dbb
    /\ getStatus (snd result) = getStatus dbb.
Proof.
  intros pw dbb d err Hinfo result.
  pose proof (deviceInfo_frame pw dbb) as Hframe.
  rewrite Hinfo in Hframe. cbn [snd] in Hframe.
  subst result. unfold Login. rewrite Hinfo.
  destruct (Cause err); cbn [fst snd]; rewrite Hframe; repeat split.
Qed.

End LoginFacts.

Lemma Login_adopts_password_witness :
  let info := {| Bitbox.Version := "v3.0.5"; Bitbox.Serial := "s";
                 Bitbox.ID := "i"; Bitbox.TFA := EmptyString;
                 Bitbox.Bootlock := true; Bitbox.Name := "box";
                 Bitbox.SDCard := false; Bitbox.Lock := false;
                 Bitbox.U2F := true; Bitbox.U2FHijack := true;
                 Bitbox.Seeded := true |} in
  let comm := Mock.recorder
                (Mock.scripted [([("device", VMap (Bitbox.deviceInfoFields info))],
                                 None)]) in
  Bitbox.getStatus (snd (Bitbox.Login (fun msg _ => msg) comm "pw" (Mock.fresh [])))
  = Bitbox.StatusSeeded.
Proof.
  intros info comm.
  refine (proj2 (proj2 (proj2 (proj2
            (Login_adopts_password (fun msg _ => msg) comm "pw" (Mock.fresh [])
               _ (Bitbox.deviceInfoFields info) _ info eq_refl eq_refl eq_refl))))
            eq_refl _).
  discriminate.
Defined.

Lemma Login_failure_keeps_session_witness :
  let comm := Mock.recorder
                (Mock.scripted [([], Some (Errp.Device "wrong password" 110))]) in
  Bitbox.getStatus (snd (Bitbox.Login (fun msg _ => msg) comm "pw" (Mock.fresh [])))
  = Bitbox.StatusUninitialized.
Proof.
  intro comm.
  exact (proj2 (proj2 (proj2 (proj2
           (Login_failure_keeps_session (fun msg _ => msg) comm "pw"
              (Mock.fresh []) _ _ eq_refl))))).
Defined.

Section AttemptsFacts.

Import Bitbox.

Lemma prefix_append (s t : string) : String.prefix s (String.append s t) = true.
Proof.
  induction s as [|a s IH]; [destruct t; reflexivity|].
  cbn. destruct (ascii_dec a a); [exact IH | contradiction].
Qed.

(** A run of digits followed by something that is not a digit is split off
    whole. *)
Lemma spanDigits_run (digits rest : string) :
  forallb isDigit (list_ascii_of_string digits) = true ->
  (match rest with
   | EmptyString => True
   | String c _ => isDigit c = false
   end) ->
  spanDigits (String.append digits rest) = (digits, rest).
Proof.
  intros Hd Hrest. induction digits as [|c digits IH].
  - cbn. destruct rest as [|c rest]; [reflexivity|]. cbn. rewrite Hrest.
    reflexivity.
  - cbn in Hd. apply andb_prop in Hd. destruct Hd as [Hc Hd].
    cbn. rewrite Hc, (IH Hd). reflexivity.
Qed.

Lemma findAttempts_finds (pre digits post : string) :
  forallb (fun c => negb (isDigit c)) (list_ascii_of_string pre) = true ->
  forallb isDigit (list_ascii_of_string digits) = true ->
  digits <> EmptyString ->
  findAttempts
    (String.append pre
       (String.append digits (String.append " attempts remain before" post)))
  = Some digits.
Proof.
  intros Hpre Hd Hne.
  set (lit := " attempts remain before").
  assert (Hhere : findAttempts (String.append digits (String.append lit post))
                  = Some digits).
  { destruct digits as [|c digits]; [congruence|].
    cbn [String.append findAttempts].
    change (String c (String.append digits (String.append lit post)))
      with (String.append (String c digits) (String.append lit post)).
    rewrite spanDigits_run; [|exact Hd|reflexivity].
    replace (String.eqb (String c digits) "") with false by reflexivity.
    rewrite prefix_append. reflexivity. }
  induction pre as [|c pre IH]; [exact Hhere|].
  cbn in Hpre. apply andb_prop in Hpre. destruct Hpre as [Hc Hpre].
  apply negb_true_iff in Hc.
  cbn [String.append findAttempts spanDigits]. rewrite Hc.
  cbn [String.eqb negb andb]. apply IH. exact Hpre.
Qed.

(** When the information query fails with a device error whose text reads
    "... N attempts remain before ..." with no digit before N, [Login]
    reports N as the remaining attempts, and a long touch exactly when the
    text contains "next"; the error is passed on. *)
Theorem Login_remaining_attempts :
  forall (ErrorText : string -> Z -> string)
         (C : Type) (comm : CommunicationInterface C)
         (pw : string) (dbb d : Device C) (err : error) (msg : string)
         (code : Z) (pre digits post : string),
    deviceInfo comm pw dbb = (inr err, d) ->
    Cause err = Errp.Device msg code ->
    ErrorText msg code
    = String.append pre
        (String.append digits (String.append " attempts remain before" post)) ->
    forallb (fun c => negb (isDigit c)) (list_ascii_of_string pre) = true ->
    forallb isDigit (list_ascii_of_string digits) = true ->
    digits <> EmptyString ->
    fst (Login ErrorText comm pw dbb)
    = (Contains (ErrorText msg code) "next", digits, Some err).
Proof.
  intros ErrorText C comm pw dbb d err msg code pre digits post
         Hinfo Hcause Htext Hpre Hd Hne.
  unfold Login. rewrite Hinfo, Hcause. cbn [fst].
  rewrite Htext at 2. rewrite (findAttempts_finds pre digits post Hpre Hd Hne).
  reflexivity.
Qed.

Lemma Login_remaining_attempts_witness :
  let text := "Wrong password: 14 attempts remain before the device is reset. The next login requires holding the touch button." in
  let comm := Mock.recorder (Mock.scripted [([], Some (Errp.Device text 110))]) in
  fst (Login (fun msg _ => msg) comm "pw" (Mock.fresh []))
  = (true, "14", Some (Errp.Device text 110)).
Proof.
  intros text comm.
  exact (Login_remaining_attempts (fun msg _ => msg) _ comm "pw" (Mock.fresh [])
           _ _ text 110 "Wrong password: " "14"
           " the device is reset. The next login requires holding the touch button."
           eq_refl eq_refl eq_refl eq_refl eq_refl ltac:(discriminate)).
Defined.

End AttemptsFacts.

(** * Wallet creation, restore and backups *)

Section WalletFacts.

Import Bitbox.

Variables ErrTouchAbort ErrTouchTimeout : Z.
Variable timestamp : string.
Variable Hash : Type.
Variable sha512_New : Hash.
Variable pbkdf2_Key : list Z -> list Z -> Z -> Z -> Hash -> list Z.

Context {C : Type} (comm : CommunicationInterface C).

Let stretched (pw : string) : string :=
  EncodeToString (pbkdf2_Key (bytesOfString pw) (bytesOfString "Digital Bitbox")
                             20480 64 sha512_New).

Let seedCmd (source pw filename : string) : Json.Value :=
  VMap [("seed", VMap [("source", VString source);
                       ("key", VString (stretched pw));
                       ("filename", VString filename)])].

Lemma stretchKey_returns (pw : string) :
  stretchKey Hash sha512_New pbkdf2_Key pw = Returned (stretched pw).
Proof.
  unfold stretchKey. cbv zeta. rewrite String.eqb_refl. reflexivity.
Qed.

(** [seed] with a valid source: one encrypted request carrying the stretched
    backup password, and a result read off the reply. *)
Lemma seed_runs devicePassword backupPassword source filename (dbb : Device C) :
  validSource source = true ->
  seed Hash sha512_New pbkdf2_Key comm devicePassword backupPassword source
       filename dbb
  = match SendEncrypt comm (seedCmd source backupPassword filename)
                      devicePassword (communication dbb) with
    | ((_, Some err), c) =>
        (Returned (Some (WithMessage err "Failed to create or backup wallet (seed)")),
         withCommunication dbb c)
    | ((reply, None), c) =>
        (Returned (if isString (index reply "seed") "success" then None
                   else Some (New "Unexpected result")),
         withCommunication dbb c)
    end.
Proof.
  intros Hsrc. unfold seed, send. rewrite Hsrc, stretchKey_returns.
  cbn [negb]. fold (seedCmd source backupPassword filename).
  destruct (SendEncrypt comm _ devicePassword (communication dbb))
    as [[reply [err|]] c]; [reflexivity|].
  destruct (isString _ _); reflexivity.
Qed.

(** [CreateWallet] never panics.  It succeeds only for a valid name and then
    marks the session seeded (Seeded outside bootloader mode); when it fails
    the seeded flag is as before, and an invalid name is refused without a
    request to the device. *)
Theorem CreateWallet_outcomes :
  forall (walletName : string) (dbb : Device C),
    let result := CreateWallet timestamp Hash sha512_New pbkdf2_Key comm
                    walletName dbb in
    (exists err, fst result = Returned err)
    /\ (fst result = Returned None ->
        validName walletName = true
        /\ seeded (snd result) = true
        /\ (bootloaderStatus dbb = None ->
            getStatus (snd result) = StatusSeeded))
    /\ (forall err, fst result = Returned (Some err) ->
          seeded (snd result) = seeded dbb)
    /\ (validName walletName = false -> snd result = dbb).
Proof.
  intros walletName dbb result. subst result. unfold CreateWallet.
  destruct (validName walletName) eqn:Hvalid; cbn [negb].
  - rewrite seed_runs by reflexivity.
    destruct (SendEncrypt comm _ (password dbb) (communication dbb))
      as [[reply [err|]] c].
    + cbn [fst snd]. repeat split; try discriminate; eexists; reflexivity.
    + destruct (isString (index reply "seed") "success"); cbn [fst snd].
      * repeat split; try discriminate; try (eexists; reflexivity).
        intros Hboot. unfold getStatus. cbn. rewrite Hboot. reflexivity.
      * repeat split; try discriminate; eexists; reflexivity.
  - cbn [fst snd]. repeat split; try discriminate. eexists; reflexivity.
Qed.

(** [RestoreBackup] sends the stretched backup password under the device
    password.  A user abort or touch timeout is the outcome [(false, nil)]
    with the seeded flag untouched; a confirmed restore is [(true, nil)] with
    the session seeded; it never panics. *)
Theorem RestoreBackup_outcomes :
  forall (backupPassword filename : string) (dbb : Device C)
         (reply : Map) (err : option error) (c : C),
    SendEncrypt comm (seedCmd "backup" backupPassword filename)
      (password dbb) (communication dbb) = ((reply, err), c) ->
    let result := RestoreBackup ErrTouchAbort ErrTouchTimeout Hash sha512_New
                    pbkdf2_Key comm backupPassword filename dbb in
    (forall e msg code,
        err = Some e -> Cause e = Errp.Device msg code ->
        code = ErrTouchAbort \/ code = ErrTouchTimeout ->
        fst result = Returned (false, None)
        /\ seeded (snd result) = seeded dbb)
    /\ (err = None -> isString (index reply "seed") "success" = true ->
        fst result = Returned (true, None) /\ seeded (snd result) = true)
    /\ (exists outcome, fst result = Returned outcome).
Proof.
  intros backupPassword filename dbb reply err c Hsend result.
  subst result. unfold RestoreBackup.
  rewrite seed_runs by reflexivity. rewrite Hsend.
  split; [|split].
  - intros e msg code -> Hc Hcode.
    rewrite (IsErrorAbort_device ErrTouchAbort ErrTouchTimeout
               (WithMessage e "Failed to create or backup wallet (seed)")
               msg code Hc Hcode).
    split; reflexivity.
  - intros -> Hok. rewrite Hok. cbn [IsErrorAbort]. split; reflexivity.
  - destruct err as [e|].
    + destruct (IsErrorAbort _ _ _); eexists; reflexivity.
    + destruct (isString _ _); cbn [IsErrorAbort]; eexists; reflexivity.
Qed.

End WalletFacts.

Lemma RestoreBackup_outcomes_witness :
  let stretch := fun (p _ : list Z) (_ _ : Z) (_ : unit) => p in
  let aborted := Mock.recorder
                   (Mock.scripted [([], Some (Errp.Device "Aborted by user." 600))]) in
  let restored := Mock.recorder (Mock.scripted [([("seed", VString "success")], None)]) in
  fst (Bitbox.RestoreBackup 600 601 unit tt stretch aborted "secret" "w.pdf"
         (Mock.fresh []))
  = Returned (false, None)
  /\ fst (Bitbox.RestoreBackup 600 601 unit tt stretch restored "secret" "w.pdf"
            (Mock.fresh []))
     = Returned (true, None).
Proof.
  intros stretch aborted restored. split.
  - refine (proj1 (proj1 (RestoreBackup_outcomes 600 601 unit tt stretch aborted
                            "secret" "w.pdf" (Mock.fresh []) _ _ _ eq_refl)
                         _ "Aborted by user." 600 eq_refl eq_refl _)).
    left. reflexivity.
  - exact (proj1 (proj1 (proj2 (RestoreBackup_outcomes 600 601 unit tt stretch
                                  restored "secret" "w.pdf" (Mock.fresh [])
                                  _ _ _ eq_refl))
                        eq_refl eq_refl)).
Defined.

Section BackupListFacts.

Import Bitbox.

Context {C : Type} (comm : CommunicationInterface C).

Lemma filenameStrings_strings (names : list string) :
  forall acc, filenameStrings (map VString names) acc = inl (acc ++ names).
Proof.
  induction names as [|name names IH]; intros acc; cbn [map filenameStrings].
  - rewrite app_nil_r. reflexivity.
  - cbn [asString]. rewrite IH, <- app_assoc. reflexivity.
Qed.

Lemma filenameStrings_inv (items : list Json.Value) :
  forall acc result,
    filenameStrings items acc = inl result ->
    exists names, result = acc ++ names /\ items = map VString names.
Proof.
  induction items as [|item items IH]; intros acc result H;
    cbn [filenameStrings] in H.
  - injection H as <-. exists []. rewrite app_nil_r. split; reflexivity.
  - destruct item; try discriminate H. cbn [asString] in H.
    destruct (IH _ _ H) as [names [-> ->]].
    exists (s :: names). rewrite <- app_assoc. split; reflexivity.
Qed.

(** [BackupList] returns the file names of the reply's array, in order,
    exactly when every element of the array is a string; otherwise it is an
    error. *)
Theorem BackupList_decodes :
  forall (dbb : Device C) (reply : Map) (items : list Json.Value) (c : C),
    SendEncrypt comm (VMap [("backup", VString "list")]) (password dbb)
      (communication dbb) = ((reply, None), c) ->
    index reply "backup" = VArray items ->
    forall names,
      fst (BackupList comm dbb) = (names, None) <-> items = map VString names.
Proof.
  intros dbb reply items c Hsend Hitems names.
  unfold BackupList, sendKV, send. rewrite Hsend, Hitems. cbn [asArray].
  split.
  - destruct (filenameStrings items []) as [result|err] eqn:Hf;
      cbn [fst]; [|discriminate].
    intros [= <-]. destruct (filenameStrings_inv _ _ _ Hf) as [ns [-> ->]].
    reflexivity.
  - intros ->. rewrite filenameStrings_strings. reflexivity.
Qed.

End BackupListFacts.

Lemma BackupList_decodes_witness :
  let reply : Map := [("backup", VArray [VString "a.pdf"; VString "b.pdf"])] in
  let comm := Mock.recorder (Mock.scripted [(reply, None)]) in
  fst (Bitbox.BackupList comm (Mock.fresh [])) = (["a.pdf"; "b.pdf"], None).
Proof.
  intros reply comm.
  exact (proj2 (BackupList_decodes comm (Mock.fresh []) reply _ _ eq_refl eq_refl
                  ["a.pdf"; "b.pdf"]) eq_refl).
Defined.

(** * Device errors across the layers *)

(** An [error] object with a text message and a numeric code becomes a
    device error that keeps being recognised as a user abort or touch
    timeout, by its code alone, under the message the encrypted channel
    wraps it in. *)
Theorem device_error_recognised :
  forall (abort timeout : Z) (reply errMap : Map) (msg : string) (code : Z),
    index reply "error" = VMap errMap ->
    index errMap "message" = VString msg ->
    index errMap "code" = VNumber code ->
    Usb.maybeDBBErr reply = Some (Errp.Device msg code)
    /\ Bitbox.IsErrorAbort abort timeout
         (option_map (fun e => WithMessage e "Failed to send cipher text")
                     (Usb.maybeDBBErr reply))
       = (code =? abort) || (code =? timeout).
Proof.
  intros abort timeout reply errMap msg code He Hm Hc.
  unfold Usb.maybeDBBErr. rewrite He. cbn [asMap]. rewrite Hm, Hc.
  split; reflexivity.
Qed.

Lemma device_error_recognised_witness :
  Bitbox.IsErrorAbort 600 601
    (option_map (fun e => WithMessage e "Failed to send cipher text")
                (Usb.maybeDBBErr (Mock.errorReply 601)))
  = true.
Proof.
  exact (proj2 (device_error_recognised 600 601 (Mock.errorReply 601) _
                  "Aborted by user." 601 eq_refl eq_refl eq_refl)).
Defined.

(** * Construction of a session *)

Section NewDeviceFacts.

Import Bitbox.

Variable ErrInitializing : Z.
Variable replies : list (Map * option error).

Let comm := Mock.recorder (Mock.scripted replies).
Let ping := Mock.plainCall "ping" EmptyString.
Let answer (i : nat) := nth i replies ([], Some (New "no reply scripted")).

Lemma Ping_scripted (dbb : Device (list Mock.Call)) :
  Ping comm dbb
  = (match answer (length (communication dbb)) with
     | (_, Some err) => (false, Some err)
     | (reply, None) => (isString (index reply "ping") "password", None)
     end,
     withCommunication dbb (communication dbb ++ [ping])).
Proof.
  unfold Ping, sendPlain, comm, Mock.recorder, Mock.scripted. cbn [SendPlain].
  fold (answer (length (communication dbb))).
  destruct (answer _) as [reply [err|]]; reflexivity.
Qed.

(** While the device answers "still initializing" the loop pings again,
    until its attempts are used up. *)
Lemma pingLoop_initializing (m : nat) :
  forall (n : nat) (init : bool) (dbb : Device (list Mock.Call)),
    (forall i, (i < m)%nat ->
       answer (length (communication dbb) + i)
       = Mock.initializingReply ErrInitializing) ->
    (m <= n)%nat ->
    pingLoop ErrInitializing comm n init dbb
    = pingLoop ErrInitializing comm (n - m)
        (if (m =? 0)%nat then init else false)
        (withCommunication dbb (communication dbb ++ repeat ping m)).
Proof.
  induction m as [|m IH]; intros n init dbb Hinit Hle.
  - cbn [repeat Nat.eqb]. rewrite app_nil_r, Nat.sub_0_r.
    destruct dbb; reflexivity.
  - destruct n as [|n]; [lia|].
    cbn [pingLoop]. rewrite Ping_scripted.
    pose proof (Hinit 0%nat ltac:(lia)) as H0. rewrite Nat.add_0_r in H0.
    rewrite H0. unfold Mock.initializingReply. cbn [Cause].
    rewrite Z.eqb_refl.
    rewrite IH.
    + cbn [withCommunication communication bootloaderStatus initialized
           password seeded Nat.sub Nat.eqb repeat].
      rewrite <- app_assoc. cbn [app].
      destruct (m =? 0)%nat; reflexivity.
    + intros i Hi. cbn [communication withCommunication].
      rewrite length_app. cbn [length].
      replace (length (communication dbb) + 1 + i)%nat
        with (length (communication dbb) + Datatypes.S i)%nat by lia.
      apply Hinit. lia.
    + lia.
Qed.

Variable SemVer : Type.
Variable NewSemVer : Z -> Z -> Z -> SemVer.
Variable Between : SemVer -> SemVer -> SemVer -> bool.
Variables lowestSupportedBootloaderVersion
          lowestNonSupportedBootloaderVersion : SemVer.

Let construct (version : SemVer) :=
  NewDevice ErrInitializing comm SemVer NewSemVer Between
            lowestSupportedBootloaderVersion lowestNonSupportedBootloaderVersion
            false version [].

Let session (init : bool) (calls : list Mock.Call) : Device (list Mock.Call) :=
  {| bootloaderStatus := None; initialized := init; password := EmptyString;
     seeded := false; communication := calls |}.

(** Construction of a firmware session pings until the device is ready:
    after [k < 20] "still initializing" answers and one proper answer it has
    sent exactly [k + 1] pings, and the session is Initialized when the
    answer says a password is set and Uninitialized otherwise. *)
Theorem NewDevice_waits_until_ready :
  forall (version : SemVer) (k : nat) (reply : Map),
    Between version (NewSemVer 2 2 2) (NewSemVer 4 0 0) = true ->
    (k < 20)%nat ->
    (forall i, (i < k)%nat -> answer i = Mock.initializingReply ErrInitializing) ->
    answer k = (reply, None) ->
    let ready := isString (index reply "ping") "password" in
    construct version
    = (inl (session ready (repeat ping (Datatypes.S k))),
       repeat ping (Datatypes.S k))
    /\ getStatus (session ready (repeat ping (Datatypes.S k)))
       = if ready then StatusInitialized else StatusUninitialized.
Proof.
  intros version k reply Hver Hk Hinit Hready ready.
  split; [|destruct ready; reflexivity].
  unfold construct, NewDevice, lowestSupportedFirmwareVersion,
         lowestNonSupportedFirmwareVersion.
  rewrite Hver. cbn [negb andb].
  rewrite (pingLoop_initializing k) by (cbn [communication length Nat.add]; auto; lia).
  cbn [communication withCommunication app].
  destruct (20 - k)%nat as [|n] eqn:Hn; [lia|].
  cbn [pingLoop]. rewrite Ping_scripted.
  cbn [communication withCommunication]. rewrite repeat_length, Hready.
  cbn [withCommunication communication bootloaderStatus password seeded
       withInitialized Bitbox.initialized].
  replace (repeat ping k ++ [ping]) with (repeat ping (Datatypes.S k))
    by (rewrite <- repeat_cons; reflexivity).
  reflexivity.
Qed.

(** After twenty "still initializing" answers construction stops pinging
    and returns a session, without an error, that counts as Uninitialized. *)
Theorem NewDevice_stops_after_twenty :
  forall (version : SemVer),
    Between version (NewSemVer 2 2 2) (NewSemVer 4 0 0) = true ->
    (forall i, (i < 20)%nat -> answer i = Mock.initializingReply ErrInitializing) ->
    construct version
    = (inl (session false (repeat ping 20)), repeat ping 20)
    /\ getStatus (session false (repeat ping 20)) = StatusUninitialized.
Proof.
  intros version Hver Hinit. split; [|reflexivity].
  unfold construct, NewDevice, lowestSupportedFirmwareVersion,
         lowestNonSupportedFirmwareVersion.
  rewrite Hver. cbn [negb andb].
  rewrite (pingLoop_initializing 20) by (cbn [communication length Nat.add]; auto).
  reflexivity.
Qed.

End NewDeviceFacts.

Lemma NewDevice_waits_until_ready_witness :
  let replies := [Mock.initializingReply 503; Mock.initializingReply 503;
                  ([("ping", VString "password")], None)] in
  Bitbox.NewDevice 503 (Mock.recorder (Mock.scripted replies)) unit
    (fun _ _ _ => tt) (fun _ _ _ => true) tt tt false tt []
  = (inl {| Bitbox.bootloaderStatus := None; Bitbox.initialized := true;
            Bitbox.password := EmptyString; Bitbox.seeded := false;
            Bitbox.communication := repeat (Mock.plainCall "ping" EmptyString) 3 |},
     repeat (Mock.plainCall "ping" EmptyString) 3).
Proof.
  intro replies.
  refine (proj1 (NewDevice_waits_until_ready 503 replies unit (fun _ _ _ => tt)
                   (fun _ _ _ => true) tt tt tt 2
                   [("ping", VString "password")] eq_refl _ _ eq_refl)).
  - lia.
  - intros [|[|i]] Hi; try reflexivity. lia.
Defined.

Lemma NewDevice_stops_after_twenty_witness :
  let replies := repeat (Mock.initializingReply 503) 20 in
  fst (Bitbox.NewDevice 503 (Mock.recorder (Mock.scripted replies)) unit
         (fun _ _ _ => tt) (fun _ _ _ => true) tt tt false tt [])
  = inl {| Bitbox.bootloaderStatus := None; Bitbox.initialized := false;
           Bitbox.password := EmptyString; Bitbox.seeded := false;
           Bitbox.communication := repeat (Mock.plainCall "ping" EmptyString) 20 |}.
Proof.
  intro replies.
  rewrite (proj1 (NewDevice_stops_after_twenty 503 replies unit (fun _ _ _ => tt)
                    (fun _ _ _ => true) tt tt tt eq_refl
                    ltac:(intros i Hi; do 20 (destruct i as [|i]; [reflexivity|]); lia))).
  reflexivity.
Defined.

(** When the device reports an unlocked bootloader, [Login] sends the lock
    command right after the information query, already under the password
    just entered, and reports success exactly when the device confirms the
    lock. *)
Theorem Login_relocks_bootloader :
  forall (ErrorText : string -> Z -> string) (respond : Mock.Respond)
         (pw : string) (dbb : Bitbox.Device (list Mock.Call))
         (reply device : Map) (info : Bitbox.DeviceInfo),
    let query := Mock.kvCall "device" "info" pw in
    let lock := Mock.kvCall "bootloader" "lock" pw in
    respond (Bitbox.communication dbb) query = (reply, None) ->
    asMap (index reply "device") = Some device ->
    Bitbox.parseDeviceInfo device = inl info ->
    Bitbox.Bootlock info = false ->
    let result := Bitbox.Login ErrorText (Mock.recorder respond) pw dbb in
    let confirmation := respond (Bitbox.communication dbb ++ [query]) lock in
    Bitbox.communication (snd result)
    = Bitbox.communication dbb ++ [query; lock]
    /\ (snd (fst result) = None
        <-> snd confirmation = None
            /\ isString (index (fst confirmation) "bootloader") "lock" = true).
Proof.
  intros ErrorText respond pw dbb reply device info query lock
         Hreply Hdev Hparse Hlock result confirmation.
  subst result confirmation query lock. unfold Mock.kvCall in *.
  unfold Bitbox.Login, Bitbox.deviceInfo, Bitbox.sendKV,
    Bitbox.send, Mock.recorder. cbn [Bitbox.SendEncrypt].
  rewrite Hreply, Hdev, Hparse, Hlock. cbn [negb].
  unfold Bitbox.LockBootloader, Bitbox.sendKV, Bitbox.send.
  cbn [Bitbox.SendEncrypt Bitbox.communication Bitbox.withCommunication
       Bitbox.withPassword Bitbox.withSeeded Bitbox.password].
  destruct (respond (Bitbox.communication dbb ++ _) _) as [r [e|]].
  - simpl.
    split; [rewrite <- app_assoc; reflexivity|].
    split; [discriminate | intros [H _]; discriminate H].
  - cbn [fst snd].
    destruct (isString (index r "bootloader") "lock"); simpl.
    + split; [rewrite <- app_assoc; reflexivity|].
      split; [intros _; split; reflexivity | reflexivity].
    + split; [rewrite <- app_assoc; reflexivity|].
      split; [discriminate | intros [_ H]; discriminate H].
Qed.

Lemma Login_relocks_bootloader_witness :
  let info := {| Bitbox.Version := "v3.0.5"; Bitbox.Serial := "s";
                 Bitbox.ID := "i"; Bitbox.TFA := EmptyString;
                 Bitbox.Bootlock := false; Bitbox.Name := "box";
                 Bitbox.SDCard := false; Bitbox.Lock := false;
                 Bitbox.U2F := true; Bitbox.U2FHijack := true;
                 Bitbox.Seeded := false |} in
  let respond := Mock.scripted
                   [([("device", VMap (Bitbox.deviceInfoFields info))], None);
                    ([("bootloader", VString "lock")], None)] in
  Bitbox.communication
    (snd (Bitbox.Login (fun msg _ => msg) (Mock.recorder respond) "pw"
            (Mock.fresh [])))
  = [Mock.kvCall "device" "info" "pw"; Mock.kvCall "bootloader" "lock" "pw"].
Proof.
  intros info respond.
  exact (proj1 (Login_relocks_bootloader (fun msg _ => msg) respond "pw"
                  (Mock.fresh []) _ (Bitbox.deviceInfoFields info) info
                  eq_refl eq_refl eq_refl eq_refl)).
Defined.

(** * The requests of a successful [Sign] *)

Section SignRequests.

Import Bitbox.

Variable respond : Mock.Respond.
Variable hashes : list (list Z).
Variable keyPaths : list string.
Hypothesis same_length : length hashes = length keyPaths.

Let comm := Mock.recorder respond.
Let pairs := combine hashes keyPaths.
Let n := length hashes.
Let nb := ((n + 14) / 15)%nat.
Let batch (j : nat) := slice pairs (15 * j) (15 * j + 15).
Let calls (pw : string) (b : list (list Z * string)) :=
  [Mock.signCall pw b; Mock.signCall pw b].

(** A batch that comes back without an error has put its command on the
    wire twice. *)
Lemma signBatch_recorded (hs : list (list Z)) (ks : list string)
  (dbb d : Device (list Mock.Call)) (reply : Map) :
  signBatch comm hs ks dbb = (Returned (reply, None), d) ->
  d = withCommunication dbb
        (communication dbb ++ calls (password dbb) (combine hs ks)).
Proof.
  assert (Hcmd : signCmd (map fst (combine hs ks)) (map snd (combine hs ks))
                 = signCmd hs ks).
  { unfold signCmd. rewrite combine_map_fst_snd. reflexivity. }
  unfold signBatch.
  destruct (negb _); [discriminate|].
  destruct (_ <? _)%nat; [discriminate|].
  unfold send, comm, Mock.recorder. cbn [SendEncrypt].
  destruct (respond (communication dbb) _) as [r1 [e1|]]; [discriminate|].
  cbn [communication withCommunication password].
  destruct (respond (communication dbb ++ _) _) as [r2 [e2|]]; [discriminate|].
  intros [= _ <-]. unfold calls, Mock.signCall. rewrite Hcmd.
  cbn [withCommunication communication bootloaderStatus initialized password
       seeded]. rewrite <- app_assoc. reflexivity.
Qed.

Lemma signLoop_recorded (fuel : nat) :
  forall (j : nat) (acc sigs : list Signature) (dbb d : Device (list Mock.Call)),
    (j <= nb)%nat ->
    signLoop comm fuel hashes keyPaths (15 * j) acc dbb
    = (Returned (sigs, None), d) ->
    d = withCommunication dbb
          (communication dbb
           ++ flat_map (calls (password dbb)) (map batch (seq j (nb - j)))).
Proof.
  induction fuel as [|fuel IH]; intros j acc sigs dbb d Hj H; [discriminate H|].
  cbn [signLoop] in H. fold n in H.
  div15 (n + 14)%nat. fold nb in Hdiv.
  destruct (15 * j <? n)%nat eqn:Hlt.
  - apply Nat.ltb_lt in Hlt.
    pose proof (slice_batch hashes (15 * j) Hlt) as Hh.
    pose proof (slice_batch keyPaths (15 * j)) as Hk.
    rewrite <- same_length in Hk. specialize (Hk Hlt).
    cbv zeta in Hh, Hk. fold n in Hh, Hk. rewrite Hh, Hk in H.
    assert (Hb : combine (firstn 15 (skipn (15 * j) hashes))
                         (firstn 15 (skipn (15 * j) keyPaths)) = batch j).
    { rewrite <- combine_firstn, combine_skipn. subst batch. unfold slice.
      cbv beta. replace (15 * j + 15 - 15 * j)%nat with 15%nat by lia.
      reflexivity. }
    destruct (signBatch comm _ _ dbb) as [[[reply [e|]]|msg|] d1] eqn:Hbatch;
      try discriminate H.
    apply signBatch_recorded in Hbatch. rewrite Hb in Hbatch.
    destruct (asArray (index reply "sign")) as [items|]; [|discriminate H].
    destruct (appendSigs items acc) as [acc'|e]; [|discriminate H].
    replace (15 * j + signatureBatchSize)%nat with (15 * Datatypes.S j)%nat in H
      by (unfold signatureBatchSize; lia).
    apply IH in H; [|lia]. rewrite H, Hbatch.
    cbn [communication withCommunication password bootloaderStatus initialized
         seeded].
    replace (nb - j)%nat with (Datatypes.S (nb - Datatypes.S j)) by lia.
    cbn [seq map flat_map]. rewrite <- !app_assoc. reflexivity.
  - apply Nat.ltb_ge in Hlt. injection H as _ <-.
    replace (nb - j)%nat with 0%nat by lia.
    cbn [seq map flat_map]. rewrite app_nil_r. destruct dbb; reflexivity.
Qed.

End SignRequests.

(** Whatever the device answers, a [Sign] that returns signatures has sent
    exactly the commands of the batches of 15, each twice, batch after
    batch, and nothing else. *)
Theorem Sign_requests_on_success :
  forall (respond : Mock.Respond) (hashes : list (list Z))
         (keyPaths : list string) (dbb : Bitbox.Device (list Mock.Call))
         (sigs : list Bitbox.Signature),
    fst (Bitbox.Sign (Mock.recorder respond) hashes keyPaths dbb)
    = Returned (sigs, None) ->
    Bitbox.communication
      (snd (Bitbox.Sign (Mock.recorder respond) hashes keyPaths dbb))
    = Bitbox.communication dbb
      ++ flat_map (fun b => [Mock.signCall (Bitbox.password dbb) b;
                             Mock.signCall (Bitbox.password dbb) b])
                  (Mock.batchesOf (combine hashes keyPaths)).
Proof.
  intros respond hashes keyPaths dbb sigs H.
  unfold Bitbox.Sign in *.
  destruct (length hashes =? length keyPaths)%nat eqn:Hlen;
    [|discriminate H].
  apply Nat.eqb_eq in Hlen. cbn [negb] in *.
  destruct (length hashes =? 0)%nat; [discriminate H|].
  destruct (Bitbox.signLoop _ _ hashes keyPaths 0 [] dbb) as [o d] eqn:Hloop.
  cbn [fst snd] in *. subst o.
  change 0%nat with (15 * 0)%nat in Hloop.
  apply (signLoop_recorded respond hashes keyPaths Hlen) in Hloop; [|lia].
  rewrite Hloop. cbn [Bitbox.communication Bitbox.withCommunication].
  unfold Mock.batchesOf.
  rewrite (length_pairs hashes keyPaths Hlen), Nat.sub_0_r. reflexivity.
Qed.

Lemma Sign_requests_on_success_witness :
  let reply : Map := [("sign", VArray [])] in
  let respond := Mock.scripted [(reply, None); (reply, None)] in
  length (Bitbox.communication
            (snd (Bitbox.Sign (Mock.recorder respond) [[1]] ["m/0"]
                    (Mock.fresh []))))
  = 2%nat.
Proof.
  intros reply respond.
  rewrite (Sign_requests_on_success respond [[1]] ["m/0"] (Mock.fresh []) []
             eq_refl).
  reflexivity.
Defined.

(** * What [SignTransaction] asks for and leaves behind *)

Section SignTransactionFacts.

Import Btc.

Variable Address : Type.
Variable SigHashData : Address -> bool * list Z.
Variable InputData : Address -> Bitbox.Signature -> list Z * list (list Z).
Variable KeyPath : Address -> string.
Variable TxSigHashes : Type.
Variable NewTxSigHashes : MsgTx -> TxSigHashes.
Variable CalcWitnessSigHash :
  list Z -> TxSigHashes -> Z -> MsgTx -> Z -> Z -> list Z + error.
Variable CalcSignatureHash : list Z -> Z -> MsgTx -> Z -> list Z + error.
Variable IsSorted : MsgTx -> bool.
Variable ScriptFlags : Type.
Variable StandardVerifyFlags : ScriptFlags.
Variable Engine : Type.
Variable NewEngine :
  list Z -> MsgTx -> Z -> ScriptFlags -> TxSigHashes -> Z -> Engine + error.
Variable Execute : Engine -> option error.
Variable K : Type.
Variable keyStoreSign :
  list (list Z) -> list string -> K
  -> Outcome (list Bitbox.Signature * option error) * K.

Let hash :=
  hashInputs Address SigHashData KeyPath TxSigHashes CalcWitnessSigHash
             CalcSignatureHash.
Let sign :=
  SignTransaction Address SigHashData InputData KeyPath TxSigHashes
    NewTxSigHashes CalcWitnessSigHash CalcSignatureHash IsSorted ScriptFlags
    StandardVerifyFlags Engine NewEngine Execute K keyStoreSign.

(** The spent output of every input, when all are known. *)
Let spentBy (previousOutputs : PreviousOutputs Address) (txIns : list TxIn)
    (spents : list (SpentOutput Address)) : Prop :=
  map (fun txIn => previousOutputs (PreviousOutPoint txIn)) txIns
  = map Some spents.

(** An input with the script and witness its address builds from a
    signature. *)
Let filled (entry : TxIn * (SpentOutput Address * Bitbox.Signature)) : TxIn :=
  let '(input, (spentOutput, signature)) := entry in
  {| PreviousOutPoint := PreviousOutPoint input;
     SignatureScript := fst (InputData (spentAddress Address spentOutput) signature);
     Witness := snd (InputData (spentAddress Address spentOutput) signature);
     Sequence := Sequence input |}.

Lemma hashInputs_spec transaction previousOutputs sigHashes (txIns : list TxIn) :
  forall index hs ks hs' ks',
    hash transaction previousOutputs sigHashes txIns index hs ks
    = Returned (inl (hs', ks')) ->
    exists spents newHashes,
      spentBy previousOutputs txIns spents
      /\ hs' = hs ++ newHashes
      /\ length newHashes = length txIns
      /\ ks' = ks ++ map (fun s => KeyPath (spentAddress Address s)) spents.
Proof.
  unfold hash, spentBy.
  induction txIns as [|txIn txIns IH]; intros index hs ks hs' ks' H;
    cbn [hashInputs] in H.
  - injection H as <- <-. exists [], []. rewrite !app_nil_r. repeat split.
  - destruct (previousOutputs (PreviousOutPoint txIn)) as [spent|] eqn:Hprev;
      [|discriminate H].
    destruct (SigHashData (spentAddress Address spent)) as [isSegwit subScript].
    match type of H with
    | match ?h with _ => _ end = _ => destruct h as [signatureHash|err]
    end; [|discriminate H].
    destruct (IH _ _ _ _ _ H) as [spents [newHashes [Hs [Hh [Hl Hk]]]]].
    exists (spent :: spents), (signatureHash :: newHashes).
    cbn [map length]. rewrite Hprev, Hs, Hh, Hk, Hl, <- !app_assoc.
    repeat split.
Qed.

Lemma hashInputs_missing transaction previousOutputs sigHashes (txIns : list TxIn) :
  forall index hs ks,
    (exists input, In input txIns
                   /\ previousOutputs (PreviousOutPoint input) = None) ->
    (exists msg, hash transaction previousOutputs sigHashes txIns index hs ks
                 = Panicked msg)
    \/ (exists err, hash transaction previousOutputs sigHashes txIns index hs ks
                    = Returned (inr err)).
Proof.
  unfold hash.
  induction txIns as [|txIn txIns IH]; intros index hs ks [input [Hin Hnone]];
    [contradiction|].
  cbn [hashInputs].
  destruct (previousOutputs (PreviousOutPoint txIn)) as [spent|] eqn:Hprev;
    [|left; eexists; reflexivity].
  destruct Hin as [<-|Hin]; [congruence|].
  destruct (SigHashData (spentAddress Address spent)) as [isSegwit subScript].
  match goal with
  | |- context [match ?h with inl _ => _ | inr _ => _ end] =>
      destruct h as [signatureHash|err]
  end; [|right; eexists; reflexivity].
  apply IH. exists input. split; assumption.
Qed.

Lemma fillInputs_spec previousOutputs (txIns : list TxIn) :
  forall spents signatures,
    spentBy previousOutputs txIns spents ->
    length signatures = length txIns ->
    fillInputs Address InputData previousOutputs txIns signatures
    = Returned (map filled (combine txIns (combine spents signatures))).
Proof.
  unfold spentBy.
  induction txIns as [|input txIns IH]; intros spents signatures Hs Hl;
    cbn [fillInputs].
  - reflexivity.
  - destruct spents as [|spent spents]; [discriminate Hs|].
    cbn [map] in Hs. injection Hs as Hprev Hs.
    destruct signatures as [|signature signatures]; [discriminate Hl|].
    rewrite Hprev.
    destruct (InputData (spentAddress Address spent) signature)
      as [script witness] eqn:Hdata.
    rewrite (IH spents signatures Hs) by (cbn in Hl; lia).
    cbn [combine map filled]. rewrite Hdata. reflexivity.
Qed.

(** A successful [SignTransaction] has found the spent output of every
    input, has asked the key store once, for one hash per input with the key
    paths of the owning addresses in input order, has got one signature per
    input, and leaves each input with the script and witness its address
    builds from the signature at the same position. *)
Theorem SignTransaction_success_shape :
  forall (keyStore : K) (transaction : MsgTx)
         (previousOutputs : PreviousOutputs Address),
    let result := sign keyStore transaction previousOutputs in
    fst (fst result) = Returned None ->
    exists spents signatureHashes signatures,
      spentBy previousOutputs (TxIns transaction) spents
      /\ length signatureHashes = length (TxIns transaction)
      /\ keyStoreSign signatureHashes
           (map (fun s => KeyPath (spentAddress Address s)) spents) keyStore
         = (Returned (signatures, None), snd result)
      /\ length signatures = length (TxIns transaction)
      /\ snd (fst result)
         = withTxIns transaction
             (map filled (combine (TxIns transaction)
                                  (combine spents signatures))).
Proof.
  intros keyStore transaction previousOutputs result Hok.
  subst result. unfold sign, SignTransaction in Hok |- *.
  fold hash in Hok |- *.
  destruct (hash transaction previousOutputs (NewTxSigHashes transaction)
                 (TxIns transaction) 0 [] [])
    as [[[hs ks]|err]|msg|] eqn:Hhash; try discriminate Hok.
  destruct (hashInputs_spec _ _ _ _ _ _ _ _ _ Hhash)
    as [spents [newHashes [Hs [Hh [Hl Hk]]]]].
  cbn [app] in Hh, Hk. subst hs ks.
  destruct (keyStoreSign newHashes _ keyStore)
    as [[[sigs [err|]]|msg|] keyStore'] eqn:Hsign; try discriminate Hok.
  destruct (length sigs =? length (TxIns transaction))%nat eqn:Hcount;
    cbn [negb] in Hok |- *; [|discriminate Hok].
  apply Nat.eqb_eq in Hcount.
  rewrite (fillInputs_spec previousOutputs (TxIns transaction) spents sigs Hs Hcount)
    in Hok |- *.
  destruct (txValidityCheck _ _ _ _ _ _ _ _ _ _ _); [discriminate Hok|].
  cbn [fst snd]. exists spents, newHashes, sigs. repeat split; assumption.
Qed.

(** A transaction with an input whose previous output is unknown never
    reaches the key store: the call ends in a panic, or in the error of an
    earlier input's hash, with the transaction and the key store untouched. *)
Theorem SignTransaction_unknown_output :
  forall (keyStore : K) (transaction : MsgTx)
         (previousOutputs : PreviousOutputs Address),
    (exists input, In input (TxIns transaction)
                   /\ previousOutputs (PreviousOutPoint input) = None) ->
    let result := sign keyStore transaction previousOutputs in
    ((exists msg, fst (fst result) = Panicked msg)
     \/ (exists err, fst (fst result) = Returned (Some err)))
    /\ snd (fst result) = transaction
    /\ snd result = keyStore.
Proof.
  intros keyStore transaction previousOutputs Hmissing result.
  subst result. unfold sign, SignTransaction. fold hash.
  destruct (hashInputs_missing transaction previousOutputs
              (NewTxSigHashes transaction) (TxIns transaction) 0 [] [] Hmissing)
    as [[msg ->] | [err ->]]; cbn [fst snd].
  - split; [left; eexists; reflexivity|]. split; reflexivity.
  - split; [right; eexists; reflexivity|]. split; reflexivity.
Qed.

(** When [SignTransaction] returns an error the transaction is as the caller
    passed it; the error is that of a hash computation, with the key store
    untouched, or that of the key store, passed on with its cause intact. *)
Theorem SignTransaction_error_keeps_transaction :
  forall (keyStore : K) (transaction : MsgTx)
         (previousOutputs : PreviousOutputs Address) (err : error),
    let result := sign keyStore transaction previousOutputs in
    fst (fst result) = Returned (Some err) ->
    snd (fst result) = transaction
    /\ (snd result = keyStore
        \/ exists signatureHashes keyPaths signatures e,
             keyStoreSign signatureHashes keyPaths keyStore
             = (Returned (signatures, Some e), snd result)
             /\ Cause err = Cause e).
Proof.
  intros keyStore transaction previousOutputs err result Herr.
  subst result. unfold sign, SignTransaction in Herr |- *.
  fold hash in Herr |- *.
  destruct (hash transaction previousOutputs (NewTxSigHashes transaction)
                 (TxIns transaction) 0 [] [])
    as [[[hs ks]|e]|msg|]; try discriminate Herr.
  - destruct (keyStoreSign hs ks keyStore)
      as [[[sigs [e|]]|msg|] keyStore'] eqn:Hsign; try discriminate Herr.
    + cbn [fst snd] in Herr |- *. injection Herr as <-.
      split; [reflexivity|]. right. exists hs, ks, sigs, e.
      split; [exact Hsign | reflexivity].
    + destruct (negb _); [discriminate Herr|].
      destruct (fillInputs _ _ _ _ _); try discriminate Herr.
      destruct (txValidityCheck _ _ _ _ _ _ _ _ _ _ _); discriminate Herr.
  - cbn [fst snd]. split; [reflexivity | left; reflexivity].
Qed.

End SignTransactionFacts.

Lemma SignTransaction_success_shape_witness :
  fst (fst (Mock.signTx Mock.obliging Mock.oneInputTx Mock.known)) = Returned None
  /\ exists (signatureHashes : list (list Z))
            (signatures : list Bitbox.Signature),
       length signatureHashes = 1%nat /\ length signatures = 1%nat.
Proof.
  split; [reflexivity|].
  destruct (SignTransaction_success_shape unit (fun _ => (false, []))
              (fun _ _ => ([1], [])) (fun _ => "m/0") unit (fun _ => tt)
              (fun _ _ _ _ _ _ => inl [7]) (fun _ _ _ _ => inl [7])
              (fun _ => true) unit tt unit (fun _ _ _ _ _ _ => inl tt)
              (fun _ => None) nat Mock.obliging 0%nat Mock.oneInputTx Mock.known
              eq_refl)
    as [spents [hs [sigs [_ [Hh [_ [Hlen _]]]]]]].
  exists hs, sigs. split; [exact Hh | exact Hlen].
Defined.

Lemma SignTransaction_unknown_output_witness :
  snd (Mock.signTx Mock.obliging Mock.oneInputTx (fun _ => None)) = 0%nat
  /\ snd (fst (Mock.signTx Mock.obliging Mock.oneInputTx (fun _ => None)))
     = Mock.oneInputTx.
Proof.
  destruct (SignTransaction_unknown_output unit (fun _ => (false, []))
              (fun _ _ => ([1], [])) (fun _ => "m/0") unit (fun _ => tt)
              (fun _ _ _ _ _ _ => inl [7]) (fun _ _ _ _ => inl [7])
              (fun _ => true) unit tt unit (fun _ _ _ _ _ _ => inl tt)
              (fun _ => None) nat Mock.obliging 0%nat Mock.oneInputTx
              (fun _ => None))
    as [_ [Htx Hks]].
  - exists Mock.oneInput. split; [left; reflexivity | reflexivity].
  - split; [exact Hks | exact Htx].
Defined.

Lemma SignTransaction_error_keeps_transaction_witness :
  snd (fst (Mock.signTx Mock.refusing Mock.oneInputTx Mock.known))
  = Mock.oneInputTx.
Proof.
  exact (proj1 (SignTransaction_error_keeps_transaction unit
                  (fun _ => (false, [])) (fun _ _ => ([1], [])) (fun _ => "m/0")
                  unit (fun _ => tt) (fun _ _ _ _ _ _ => inl [7])
                  (fun _ _ _ _ => inl [7]) (fun _ => true) unit tt unit
                  (fun _ _ _ _ _ _ => inl tt) (fun _ => None) nat Mock.refusing
                  0%nat Mock.oneInputTx Mock.known _ eq_refl)).
Defined.

(** * The address chain *)

Section ChainFacts.

Import Addresses.

Variables ExtendedKey Params PublicKey AddressType Address : Type.
Variable Child : ExtendedKey -> Z -> ExtendedKey + error.
Variable ECPubKey : ExtendedKey -> PublicKey + error.
Variable NewAddress : PublicKey -> Params -> string -> AddressType -> Address.
Variable isUsed : Address -> bool.
Variable IsPrivate : ExtendedKey -> bool.
Variable IsForNet : ExtendedKey -> Params -> bool.

Let Chain := AddressChain ExtendedKey Params AddressType Address.
Let tail (chain : Chain) := unusedTailCount _ _ _ _ isUsed chain.
Let add (chain : Chain) := addAddress _ _ _ _ _ Child ECPubKey NewAddress chain.
Let ensure (chain : Chain) :=
  EnsureAddresses _ _ _ _ _ Child ECPubKey NewAddress isUsed chain.
Let run := addAddresses ExtendedKey Params PublicKey AddressType Address Child
                        ECPubKey NewAddress.
Let wellIndexed (chain : Chain) :=
  sequential _ _ _ _ _ Child ECPubKey NewAddress chain.
Let at_position (chain : Chain) :=
  derived _ _ _ _ _ Child ECPubKey NewAddress chain.

(** The parts of a chain that appending leaves alone. *)
Let sameSetup (a b : Chain) : Prop :=
  xpub a = xpub b /\ net a = net b
  /\ gapLimit a = gapLimit b
  /\ chainIndex a = chainIndex b
  /\ addressType a = addressType b.

Lemma derived_sameSetup (a b : Chain) position :
  sameSetup a b -> at_position a position = at_position b position.
Proof.
  intros [Hx [Hn [_ [Hc Ht]]]].
  unfold at_position, derived, getPubKey, keyPath. rewrite Hx, Hn, Hc, Ht.
  reflexivity.
Qed.

Lemma addAddress_spec (chain chain' : Chain) (address : Address) :
  add chain = Returned (address, chain') ->
  addresses chain' = addresses chain ++ [address]
  /\ sameSetup chain' chain
  /\ at_position chain (length (addresses chain)) = Some address.
Proof.
  unfold add, addAddress, at_position, derived. intros H.
  destruct (getPubKey _ _ _ _ _ Child ECPubKey chain _) as [pk|msg|];
    try discriminate H.
  injection H as <- <-. cbn. repeat split.
Qed.

(** The loop appends what it returns, at consecutive positions, and leaves
    the rest of the chain alone. *)
Lemma addAddresses_spec (iterations : nat) :
  forall (chain chain' : Chain) (acc added : list Address),
    run iterations chain acc = Returned (added, chain') ->
    exists fresh,
      added = acc ++ fresh
      /\ length fresh = iterations
      /\ addresses chain' = addresses chain ++ fresh
      /\ sameSetup chain' chain
      /\ forall i address, nth_error fresh i = Some address ->
           at_position chain (length (addresses chain) + i) = Some address.
Proof.
  unfold run.
  induction iterations as [|iterations IH]; intros chain chain' acc added H;
    cbn [addAddresses] in H.
  - injection H as <- <-. exists []. rewrite !app_nil_r.
    repeat split. intros [|i] a Hn; discriminate Hn.
  - fold (add chain) in H.
    destruct (add chain) as [[address chain1]|msg|] eqn:Hadd; try discriminate H.
    destruct (addAddress_spec _ _ _ Hadd) as [Ha [Hsetup Hd]].
    destruct (IH _ _ _ _ H) as [fresh [-> [Hl [Hc [Hs Hi]]]]].
    exists (address :: fresh). rewrite <- app_assoc. cbn [app length].
    rewrite Hc, Ha, <- app_assoc. cbn [app]. repeat split; try lia.
    + destruct Hs as [? [? [? [? ?]]]], Hsetup as [? [? [? [? ?]]]]; congruence.
    + destruct Hs as [? [? [? [? ?]]]], Hsetup as [? [? [? [? ?]]]]; congruence.
    + destruct Hs as [? [? [? [? ?]]]], Hsetup as [? [? [? [? ?]]]]; congruence.
    + destruct Hs as [? [? [? [? ?]]]], Hsetup as [? [? [? [? ?]]]]; congruence.
    + destruct Hs as [? [? [? [? ?]]]], Hsetup as [? [? [? [? ?]]]]; congruence.
    + intros [|i] a Hn; cbn [nth_error] in Hn.
      * injection Hn as <-. rewrite Nat.add_0_r. exact Hd.
      * rewrite <- (derived_sameSetup chain1 chain _ Hsetup).
        replace (length (addresses chain) + S i)%nat
          with (length (addresses chain1) + i)%nat
          by (rewrite Ha, length_app; cbn; lia).
        apply Hi. exact Hn.
Qed.

(** [EnsureAddresses] only appends: the chain it leaves is the old chain
    followed by exactly the addresses it returns, as many as the unused tail
    is short of the gap limit (none if it is not), with key, network, gap
    limit, chain index and type unchanged; and if every address was the one
    derived at its position, that still holds. *)
Theorem EnsureAddresses_appends :
  forall (chain chain' : Chain) (added : list Address),
    ensure chain = Returned (added, chain') ->
    addresses chain' = addresses chain ++ added
    /\ Z.of_nat (length added)
       = Z.max 0 (gapLimit chain - tail chain)
    /\ sameSetup chain' chain
    /\ (wellIndexed chain -> wellIndexed chain').
Proof.
  intros chain chain' added H.
  unfold ensure, EnsureAddresses in H. cbv zeta in H. fold (tail chain) in H.
  apply (addAddresses_spec _ chain chain' [] added) in H.
  destruct H as [fresh [Hadded [Hlen [Hc [Hs Hi]]]]].
  cbn [app] in Hadded. subst added.
  repeat split; try apply Hs.
  - exact Hc.
  - rewrite Hlen. lia.
  - intros Hseq position address Hn.
    unfold wellIndexed, sequential in *. fold (at_position chain' position).
    rewrite (derived_sameSetup chain' chain _ Hs).
    rewrite Hc in Hn.
    destruct (Nat.lt_ge_cases position (length (addresses chain)))
      as [Hlt|Hge].
    + rewrite nth_error_app1 in Hn by exact Hlt. apply Hseq. exact Hn.
    + rewrite nth_error_app2 in Hn by exact Hge.
      replace position
        with (length (addresses chain)
              + (position - length (addresses chain)))%nat by lia.
      apply Hi. exact Hn.
Qed.

Lemma unusedRun_fresh (fresh old : list Address) :
  Forall (fun a => isUsed a = false) fresh ->
  unusedRun _ isUsed (rev (old ++ fresh))
  = (length fresh + unusedRun _ isUsed (rev old))%nat.
Proof.
  intros Hall. rewrite rev_app_distr.
  assert (Hrev : Forall (fun a => isUsed a = false) (rev fresh))
    by (apply Forall_rev; exact Hall).
  rewrite <- (length_rev fresh).
  induction Hrev as [|a l Ha _ IH]; [reflexivity|].
  cbn [app unusedRun length]. rewrite Ha, IH. reflexivity.
Qed.

(** With fresh addresses unused and the unused tail not longer than the gap
    limit, [EnsureAddresses] leaves exactly [gapLimit] unused addresses at
    the tail, and calling it again appends nothing. *)
Theorem EnsureAddresses_restores_gap :
  forall (chain chain' : Chain) (added : list Address),
    (forall publicKey net path type,
        isUsed (NewAddress publicKey net path type) = false) ->
    tail chain <= gapLimit chain ->
    ensure chain = Returned (added, chain') ->
    tail chain' = gapLimit chain'
    /\ ensure chain' = Returned ([], chain').
Proof.
  intros chain chain' added Hfresh Hle H.
  assert (Htail : tail chain' = gapLimit chain').
  { unfold ensure, EnsureAddresses in H. cbv zeta in H. fold (tail chain) in H.
    apply (addAddresses_spec _ chain chain' [] added) in H.
    destruct H as [fresh [_ [Hlen [Hc [[_ [_ [Hg _]]] Hi]]]]].
    assert (Hall : Forall (fun a => isUsed a = false) fresh).
    { apply Forall_forall. intros a Ha.
      apply In_nth_error in Ha. destruct Ha as [i Ha].
      specialize (Hi i a Ha). unfold at_position, derived in Hi.
      destruct (getPubKey _ _ _ _ _ Child ECPubKey chain _); try discriminate Hi.
      injection Hi as <-. apply Hfresh. }
    unfold tail, unusedTailCount in *. rewrite Hc, unusedRun_fresh by exact Hall.
    rewrite Hg, Hlen. lia. }
  split; [exact Htail|].
  unfold ensure, EnsureAddresses. cbv zeta. fold (tail chain').
  rewrite Htail, Z.sub_diag. reflexivity.
Qed.

Let unused (chain : Chain) := GetUnused _ _ _ _ isUsed chain.

(** A list read backwards: its run of unused addresses, then what is left,
    which is empty or starts with a used address. *)
Lemma unusedRun_split (reversed : list Address) :
  exists streak rest,
    reversed = streak ++ rest
    /\ length streak = unusedRun _ isUsed reversed
    /\ Forall (fun a => isUsed a = false) streak
    /\ (rest = [] \/ exists x rest', rest = x :: rest' /\ isUsed x = true).
Proof.
  induction reversed as [|a reversed IH].
  - exists [], []. repeat split; [constructor | left; reflexivity].
  - cbn [unusedRun]. destruct (isUsed a) eqn:Ha.
    + exists [], (a :: reversed). repeat split; [constructor|].
      right. exists a, reversed. split; [reflexivity | exact Ha].
    + destruct IH as [streak' [rest [-> [Hl [Hall Hrest]]]]].
      exists (a :: streak'), rest. cbn [app length]. rewrite Hl.
      repeat split; [constructor; assumption | exact Hrest].
Qed.

(** The address [GetUnused] returns opens the unused tail: it and all
    addresses after it are unused, they are [gapLimit] in number, and the
    address before it, if there is one, is used. *)
Theorem GetUnused_first_of_tail :
  forall (chain : Chain) (address : Address),
    unused chain = Returned address ->
    exists before after,
      addresses chain = before ++ address :: after
      /\ Z.of_nat (length (address :: after)) = gapLimit chain
      /\ Forall (fun a => isUsed a = false) (address :: after)
      /\ (before = []
          \/ exists earlier last, before = earlier ++ [last]
                                  /\ isUsed last = true).
Proof.
  intros chain address H. unfold unused, GetUnused in H.
  destruct (unusedTailCount _ _ _ _ isUsed chain =? gapLimit chain)
    eqn:Hsync; cbn [negb] in H; [|discriminate H].
  apply Z.eqb_eq in Hsync. unfold unusedTailCount in Hsync.
  destruct (unusedRun_split (rev (addresses chain)))
    as [streak [rest [Hrev [Hlen [Hall Hrest]]]]].
  assert (Hl : addresses chain = rev rest ++ rev streak).
  { rewrite <- rev_app_distr, <- Hrev, rev_involutive. reflexivity. }
  rewrite <- Hsync, <- Hlen, Hl, length_app, !length_rev in H.
  replace (Z.to_nat (Z.of_nat (length rest + length streak) - Z.of_nat (length streak)))
    with (length (rev rest) + 0)%nat in H by (rewrite length_rev; lia).
  rewrite nth_error_app2 in H by lia.
  replace (length (rev rest) + 0 - length (rev rest))%nat with 0%nat in H by lia.
  destruct (rev streak) as [|a after] eqn:Hrun; [discriminate H|].
  cbn [nth_error] in H. injection H as ->.
  exists (rev rest), after. repeat split.
  - exact Hl.
  - rewrite <- Hsync, <- Hlen, <- (length_rev streak), Hrun. reflexivity.
  - rewrite <- Hrun. apply Forall_rev. exact Hall.
  - destruct Hrest as [-> | [x [rest' [-> Hx]]]]; [left; reflexivity|].
    right. exists (rev rest'), x. split; [reflexivity | exact Hx].
Qed.



(** A chain fresh from [NewAddressChain] comes from a public key of the
    right network.  After its first [EnsureAddresses], with a positive gap
    limit and fresh addresses unused, it holds exactly the addresses
    returned, [gapLimit] of them, each the one derived at its position, and
    [GetUnused] returns the first of them. *)
Theorem fresh_chain_first_sync :
  forall (key : ExtendedKey) (network : Params) (gap index : Z)
         (type : AddressType) (chain0 chain : Chain) (added : list Address),
    NewAddressChain _ _ _ _ IsPrivate IsForNet Child key network gap index type
    = Returned chain0 ->
    ensure chain0 = Returned (added, chain) ->
    (forall publicKey net path type,
        isUsed (NewAddress publicKey net path type) = false) ->
    0 < gap ->
    IsPrivate key = false /\ IsForNet key network = true
    /\ addresses chain = added
    /\ Z.of_nat (length added) = gap
    /\ wellIndexed chain
    /\ exists address,
         unused chain = Returned address
         /\ nth_error added 0 = Some address
         /\ at_position chain 0 = Some address.
Proof.
  intros key network gap index type chain0 chain added Hnew Hensure Hfresh Hgap.
  unfold NewAddressChain in Hnew.
  destruct (IsPrivate key) eqn:Hpriv; [discriminate Hnew|].
  destruct (IsForNet key network) eqn:Hnet; cbn [negb] in Hnew;
    [|discriminate Hnew].
  destruct (Child key index) as [chainKey|e]; [|discriminate Hnew].
  injection Hnew as <-.
  unfold ensure, EnsureAddresses in Hensure. cbv zeta in Hensure.
  unfold unusedTailCount in Hensure.
  cbn [addresses gapLimit rev unusedRun Z.of_nat] in Hensure.
  apply addAddresses_spec in Hensure.
  destruct Hensure as [fresh [Hadded [Hlen [Hc [Hs Hi]]]]].
  cbn [app addresses length Nat.add] in Hadded, Hc, Hi. subst added.
  assert (Hseq : wellIndexed chain).
  { intros position address Hn. fold (at_position chain position).
    rewrite (derived_sameSetup _ _ _ Hs). apply Hi.
    rewrite <- Hc. exact Hn. }
  assert (Hall : Forall (fun a => isUsed a = false) fresh).
  { apply Forall_forall. intros a Ha.
    apply In_nth_error in Ha. destruct Ha as [i Ha].
    specialize (Hi i a Ha). unfold at_position, derived in Hi.
    destruct (getPubKey _ _ _ _ _ Child ECPubKey _ _); try discriminate Hi.
    injection Hi as <-. apply Hfresh. }
  assert (Hg : gapLimit chain = gap) by apply Hs.
  repeat split; try assumption; [lia|].
  destruct fresh as [|address fresh]; [cbn [length] in Hlen; lia|].
  exists address. repeat split.
  - unfold unused, GetUnused, unusedTailCount.
    rewrite Hc, Hg.
    rewrite <- (app_nil_l (address :: fresh)), unusedRun_fresh by exact Hall.
    cbn [rev unusedRun app]. rewrite Nat.add_0_r.
    replace (Z.of_nat (length (address :: fresh)) =? gap) with true
      by (symmetry; apply Z.eqb_eq; lia).
    cbn [negb].
    replace (Z.to_nat (Z.of_nat (length (address :: fresh)) - gap)) with 0%nat
      by lia.
    reflexivity.
  - apply Hseq. rewrite Hc. reflexivity.
Qed.

End ChainFacts.

Lemma EnsureAddresses_appends_witness :
  Mock.testEnsure (Mock.testChain 2 [("0/0", true)])
  = Returned ([("0/1", false); ("0/2", false)],
              Mock.testChain 2 [("0/0", true); ("0/1", false); ("0/2", false)])
  /\ Z.of_nat 2 = Z.max 0 (2 - 0).
Proof.
  split; [reflexivity|].
  exact (proj1 (proj2 (EnsureAddresses_appends Z unit Z unit Mock.TestAddress
                         Mock.testChild Mock.testPubKey Mock.testAddress snd
                         (Mock.testChain 2 [("0/0", true)]) _ _ eq_refl))).
Defined.

Lemma EnsureAddresses_restores_gap_witness :
  Addresses.unusedTailCount Z unit unit Mock.TestAddress snd
    (Mock.testChain 2 [("0/0", true); ("0/1", false); ("0/2", false)])
  = 2.
Proof.
  exact (proj1 (EnsureAddresses_restores_gap Z unit Z unit Mock.TestAddress
                  Mock.testChild Mock.testPubKey Mock.testAddress snd
                  (Mock.testChain 2 [("0/0", true)]) _ _
                  (fun _ _ _ _ => eq_refl) ltac:(vm_compute; discriminate)
                  eq_refl)).
Defined.

Lemma GetUnused_first_of_tail_witness :
  exists before after,
    [("0/0", true); ("0/1", false); ("0/2", false)]
    = before ++ ("0/1", false) :: after
    /\ Z.of_nat (length (("0/1", false) :: after)) = 2.
Proof.
  destruct (GetUnused_first_of_tail Z unit unit Mock.TestAddress snd
              (Mock.testChain 2 [("0/0", true); ("0/1", false); ("0/2", false)])
              ("0/1", false) eq_refl)
    as [before [after [Ha [Hg _]]]].
  exists before, after. split; [exact Ha | exact Hg].
Defined.

Lemma fresh_chain_first_sync_witness :
  exists address,
    Addresses.GetUnused Z unit unit Mock.TestAddress snd
      (Mock.testChain 2 [("0/0", false); ("0/1", false)])
    = Returned address.
Proof.
  destruct (fresh_chain_first_sync Z unit Z unit Mock.TestAddress
              Mock.testChild Mock.testPubKey Mock.testAddress snd
              (fun _ => false) (fun _ _ => true) 7 tt 2 0 tt _ _ _
              eq_refl eq_refl (fun _ _ _ _ => eq_refl) ltac:(lia))
    as [_ [_ [_ [_ [_ [address [Ha _]]]]]]].
  exists address. exact Ha.
Defined.
